(** * tsp-solver-frontend: geometry and interaction core

    A shallow embedding of the route table ([SolutionDetails]), of the two
    renderers ([TSPVisualizationSVG], [TSPVisualization]) and of the selection
    state kept by [App].

    Numbers.  A JavaScript [number] is modelled as a real number: arithmetic
    is exact, and [NaN], the infinities, signed zeros and rounding are outside
    the model.  Every statement below is a statement about the computation
    carried out in exact arithmetic.

    Errors.  Reading an array out of range gives [undefined] in JavaScript,
    and reading [.x] of [undefined] throws.  Array reads are [nth_error], and a
    computation that would throw (or continue with [undefined]) is [None]. *)

From Stdlib Require Import Reals Lra Lia ZArith String Ascii Bool List.
From Stdlib Require Import DecimalString.
From Stdlib Require DecimalFacts DecimalPos.
Import ListNotations.
Open Scope R_scope.

(** ** A small error monad for computations that may throw *)

Definition bind {A B : Type} (c : option A) (k : A -> option B) : option B :=
  match c with
  | Some a => k a
  | None => None
  end.

Notation "v <- c ;; k" := (bind c (fun v => k))
  (at level 61, c at next level, right associativity).

(** [sequence] collects the results of the callbacks of an [Array.map]: the
    whole map throws as soon as one callback does. *)
Fixpoint sequence {A : Type} (l : list (option A)) : option (list A) :=
  match l with
  | [] => Some []
  | c :: l' => a <- c ;; r <- sequence l' ;; Some (a :: r)
  end.

(** [Array.prototype.map] with the (element, index) callback. *)
Fixpoint map_from {A B : Type} (f : A -> nat -> B) (i : nat) (l : list A) : list B :=
  match l with
  | [] => []
  | a :: l' => f a i :: map_from f (S i) l'
  end.

Definition Array_map {A B : Type} (f : A -> nat -> B) (l : list A) : list B :=
  map_from f 0 l.

(** [Array.prototype.findIndex]: the first index whose element satisfies the
    predicate, [-1] when there is none. *)
Fixpoint findIndex_from {A : Type} (pred : A -> bool) (i : Z) (l : list A) : Z :=
  match l with
  | [] => (-1)%Z
  | a :: l' => if pred a then i else findIndex_from pred (i + 1)%Z l'
  end.

Definition findIndex {A : Type} (pred : A -> bool) (l : list A) : Z :=
  findIndex_from pred 0%Z l.

(** [a || b] on numbers: [b] when [a] is falsy, that is when [a] is zero. *)
Definition or_else (a b : R) : R :=
  if Req_dec_T a 0 then b else a.

(** [a < b] as a JavaScript boolean. *)
Definition Rltb (a b : R) : bool :=
  if Rlt_dec a b then true else false.

(** [Math.min(...l)] and [Math.max(...l)].  With no argument JavaScript
    answers with an infinity, which the reals do not have; both renderers
    return before this call when the array is empty, and the value [0] given
    here for the empty list is never used. *)
Definition Math_min (l : list R) : R :=
  match l with
  | [] => 0
  | a :: l' => fold_left Rmin l' a
  end.

Definition Math_max (l : list R) : R :=
  match l with
  | [] => 0
  | a :: l' => fold_left Rmax l' a
  end.

(** The sum of a list of numbers. *)
Definition Rsum (l : list R) : R := fold_right Rplus 0 l.

(** ** Number.prototype.toFixed

    [toFixed x f] follows ECMA-262.  Below [10^21], [n] is the integer for
    which [n / 10^f - x] is closest to zero, the larger one on a tie, that is
    [floor (x * 10^f + 1/2)]; its decimal digits are padded with zeros to at
    least [f + 1] digits and the point is put before the last [f] of them.
    From [10^21] on the result is the default string of the number, which is
    in exponent notation there: the first significant digit, a point and the
    other significant digits if there are any, then [e+] and the exponent. *)

Definition digits_of_Z (n : Z) : string :=
  NilZero.string_of_uint (N.to_uint (Z.to_N n)).

Fixpoint zeros (k : nat) : string :=
  match k with
  | O => EmptyString
  | S k' => String "0"%char (zeros k')
  end.

Definition pad_left (k : nat) (m : string) : string :=
  append (zeros (k - String.length m)) m.

(** The digits of [n] with the point before the last [f] of them. *)
Definition fixed_digits (n : Z) (f : nat) : string :=
  let m := pad_left (f + 1) (digits_of_Z n) in
  match f with
  | O => m
  | _ =>
      let k := String.length m in
      append (substring 0 (k - f) m) (append "." (substring (k - f) f m))
  end.

(** A string of digits without the zeros it ends with. *)
Fixpoint stripTrailingZeros (s : string) : string :=
  match s with
  | EmptyString => EmptyString
  | String c rest =>
      match stripTrailingZeros rest with
      | EmptyString =>
          if Ascii.eqb c "0" then EmptyString else String c EmptyString
      | rest' => String c rest'
      end
  end.

(** [Number::toString] for [x >= 10^21]: with [n] the number of digits of
    the whole part of [x] and [s] its significant digits, [s] with a point
    after its first digit, then [e+] and [n - 1].  The digits are those of
    [x] in exact arithmetic.  JavaScript prints the fewest digits that read
    back as the same floating-point number; these are the digits of [x]
    whenever [x] has at most 15 significant digits. *)
Definition exponentNotation (x : R) : string :=
  let digits := digits_of_Z (Int_part x) in
  let n := String.length digits in
  let e := append "e+" (digits_of_Z (Z.of_nat (n - 1))) in
  match stripTrailingZeros digits with
  | EmptyString => e
  | String c EmptyString => String c e
  | String c rest => String c (String "."%char (append rest e))
  end.

Definition toFixed_nonneg (x : R) (f : nat) : string :=
  if Rle_dec (10 ^ 21) x then exponentNotation x
  else fixed_digits (Int_part (x * 10 ^ f + / 2)) f.

Definition toFixed (x : R) (f : nat) : string :=
  if Rlt_dec x 0 then append "-" (toFixed_nonneg (- x) f)
  else toFixed_nonneg x f.

(** ** Math and the shapes both renderers draw with *)

(** [Math.atan2(dy, dx)], without the signed zeros. *)
Definition Math_atan2 (dy dx : R) : R :=
  if Rlt_dec 0 dx then atan (dy / dx)
  else if Rlt_dec dx 0 then
    (if Rle_dec 0 dy then atan (dy / dx) + PI else atan (dy / dx) - PI)
  else if Rlt_dec 0 dy then PI / 2
  else if Rlt_dec dy 0 then - (PI / 2)
  else 0.

(** [String(n)] for a natural number. *)
Definition String_of_nat (n : nat) : string :=
  NilZero.string_of_uint (Nat.to_uint n).

(** What a render pass puts on its surface, back to front: an SVG element
    with the attributes that place and colour it, or the canvas calls that
    paint one figure with the styles in force at that moment
    ([beginPath]/[moveTo]/[lineTo]/[stroke] is a [Line], [beginPath]/[arc]/
    [fill]/[stroke] a [Circle]).  Fonts, stroke widths, opacities, dash
    lengths and text alignment are left out. *)
Inductive Shape : Type :=
| Background (fill : string)
| GridPattern (cellWidth cellHeight : R) (stroke : string)
| Line (x1 y1 x2 y2 : R) (stroke : string) (dashed markerEnd : bool)
| Arrow (tipX tipY x1 y1 x2 y2 : R) (stroke : string)
| Circle (cx cy r : R) (fill : option string) (stroke : string)
| FillRect (rx ry rw rh : R) (fill : string)
| StrokeRect (rx ry rw rh : R) (stroke : string)
| Text (tx ty : R) (content : string) (fill : string) (rotated : bool).

(** The ambient page: the [data-theme] attribute of [document.documentElement],
    [None] when the attribute is not set. *)
Record Document : Type := mkDocument {
  data_theme : option string
}.

(** ** types/tsp.ts *)

(** The structural interface [{ x: number; y: number }] that the distance and
    projection functions ask of their arguments. *)
Class XY (A : Type) : Type := {
  x : A -> R;
  y : A -> R
}.

Module Point.
Record t : Type := mk {
  x : R;
  y : R;
  address : option string
}.
End Point.

Module RoutePoint.
Record t : Type := mk {
  x : R;
  y : R;
  address : option string;
  order : Z
}.
End RoutePoint.

#[export] Instance Point_XY : XY Point.t :=
  {| x := Point.x; y := Point.y |}.

#[export] Instance RoutePoint_XY : XY RoutePoint.t :=
  {| x := RoutePoint.x; y := RoutePoint.y |}.

Inductive SolutionStatus : Type :=
| UPLOADED
| GEOCODED
| SOLVING
| SOLVED
| ERROR.

(** [originalPoints] is declared as an array, but both renderers and the table
    test it before use ([Array.isArray], truthiness): [None] is a value that
    fails that test.  [route] is optional in the declaration. *)
Record TSPSolution : Type := mkTSPSolution {
  id : string;
  pointCount : nat;
  status : SolutionStatus;
  totalDistance : option R;
  route : option (list RoutePoint.t);
  originalPoints : option (list Point.t)
}.

(** ** components/SolutionDetails.tsx *)

Module SolutionDetails.

(** [!solution.id || !solution.status || !solution.pointCount], line 258:
    the component shows an error panel in place of its tables when the [id]
    is the empty string or the [pointCount] is zero; a [status] is one of
    five non-empty strings and is never falsy. *)
Definition invalidSolution (solution : TSPSolution) : bool :=
  String.eqb (id solution) "" || Nat.eqb (pointCount solution) 0.

Definition formatDistance (distance : option R) : string :=
  match distance with
  | None => "N/A"
  | Some d => if Req_dec_T d 0 then "N/A" else toFixed d 2
  end.

Definition calculateDistance {A B : Type} `{XY A} `{XY B}
    (point1 : A) (point2 : B) : R :=
  let dx := x point2 - x point1 in
  let dy := y point2 - y point1 in
  sqrt (dx * dx + dy * dy).

(** The body of the [for] loop of [getRouteDistances], [k] iterations
    before [i] reaches [route.length]. *)
Fixpoint getRouteDistances_for {A : Type} `{XY A}
    (route : list A) (k i : nat) (distances : list R) : option (list R) :=
  match k with
  | O => Some distances
  | S k' =>
      current <- nth_error route i ;;
      next <- nth_error route ((i + 1) mod length route) ;;
      getRouteDistances_for route k' (i + 1)
        (distances ++ [calculateDistance current next])
  end.

Definition getRouteDistances {A : Type} `{XY A} (route : list A)
    : option (list R) :=
  getRouteDistances_for route (length route) 0 [].

(** The value of the "Original #" cell: a number, or the string ['N/A']. *)
Inductive OriginalIndex : Type :=
| Num (n : Z)
| NA.

(** The predicate handed to [findIndex]. *)
Definition matches {A B : Type} `{XY A} `{XY B} (point : A) (op : B) : bool :=
  Rltb (Rabs (x op - x point)) (1 / 1000) &&
  Rltb (Rabs (y op - y point)) (1 / 1000).

Definition originalIndex {A : Type} `{XY A}
    (originalPoints : option (list Point.t)) (point : A) : OriginalIndex :=
  match originalPoints with
  | Some ops => Num (findIndex (matches point) ops + 1)
  | None => NA
  end.

(** One row of the "Optimized Route Details" table: the cells that carry
    data, in column order, the numbers they are formatted from, and whether
    the row is drawn as selected.  Style classes and the coordinates cell
    are left out. *)
Record Row : Type := mkRow {
  row_originalIndex : OriginalIndex;
  row_routeOrder : nat;
  row_start : bool;
  row_distance : R;
  row_segmentDistance : string;
  row_returnToStart : bool;
  row_cumulativeDistance : R;
  row_totalDistance : string;
  row_selected : bool
}.

Definition option_nat_eqb (s : option nat) (index : nat) : bool :=
  match s with
  | Some i => Nat.eqb i index
  | None => false
  end.

(** [solution.route.map((point, index) => ...)] with the running
    [cumulativeDistance] threaded through the rows. *)
Fixpoint routeRows_from (originalPoints : option (list Point.t))
    (n : nat) (selectedRoutePoint : option nat) (routeDistances : list R)
    (index : nat) (cumulativeDistance : R) (route : list RoutePoint.t)
    : option (list Row) :=
  match route with
  | [] => Some []
  | point :: rest =>
      distance <- nth_error routeDistances index ;;
      let cumulativeDistance := cumulativeDistance + distance in
      let row :=
        {| row_originalIndex := originalIndex originalPoints point;
           row_routeOrder := index + 1;
           row_start := Nat.eqb index 0;
           row_distance := distance;
           row_segmentDistance := formatDistance (Some distance);
           row_returnToStart := Nat.eqb index (n - 1);
           row_cumulativeDistance := cumulativeDistance;
           row_totalDistance := formatDistance (Some cumulativeDistance);
           row_selected := option_nat_eqb selectedRoutePoint index |} in
      rows <- routeRows_from originalPoints n selectedRoutePoint
                routeDistances (S index) cumulativeDistance rest ;;
      Some (row :: rows)
  end.

Definition routeRows (solution : TSPSolution)
    (selectedRoutePoint : option nat) (route : list RoutePoint.t)
    : option (list Row) :=
  routeDistances <- getRouteDistances route ;;
  routeRows_from (originalPoints solution) (length route)
    selectedRoutePoint routeDistances 0 0 route.

(** The route table is rendered when the solution passes the check of line
    258 and [solution.route] is present and not empty; [None] here is "no
    table", not an error. *)
Definition routeTable (solution : TSPSolution)
    (selectedRoutePoint : option nat) : option (option (list Row)) :=
  if invalidSolution solution then None
  else
    match route solution with
    | Some r =>
        if Nat.ltb 0 (length r)
        then Some (routeRows solution selectedRoutePoint r)
        else None
    | None => None
    end.

(** The click handlers of the two tables: the argument they pass to
    [onSelectOriginalPoint] and [onSelectRoutePoint]. *)
Definition onClick (selected : option nat) (index : nat) : option nat :=
  if option_nat_eqb selected index then None else Some index.

End SolutionDetails.

(** ** The projection of both renderers

    [TSPVisualizationSVG.tsx], lines 57-84, and [TSPVisualization.tsx], lines
    75-98, are the same computation: they differ in the names of the surface
    dimensions ([svgWidth], [svgHeight] against [canvas.width],
    [canvas.height]) and in the value of [padding] (60 against 40).  It is
    written once here, with the dimensions and the padding as arguments. *)

Record Scaled : Type := mkScaled {
  scaled_x : R;
  scaled_y : R
}.

#[export] Instance Scaled_XY : XY Scaled :=
  {| x := scaled_x; y := scaled_y |}.

Record Bounds : Type := mkBounds {
  minX : R;
  maxX : R;
  minY : R;
  maxY : R;
  scale : R;
  offsetX : R;
  offsetY : R;
  svgWidth : R;
  svgHeight : R
}.

Definition computeBounds (width height padding : R) (points : list Point.t)
    : Bounds :=
  let xCoords := map Point.x points in
  let yCoords := map Point.y points in
  let minX := Math_min xCoords in
  let maxX := Math_max xCoords in
  let minY := Math_min yCoords in
  let maxY := Math_max yCoords in
  let rangeX := or_else (maxX - minX) 1 in
  let rangeY := or_else (maxY - minY) 1 in
  let scaleX := (width - 2 * padding) / rangeX in
  let scaleY := (height - 2 * padding) / rangeY in
  let scale := Rmin scaleX scaleY in
  let offsetX := (width - rangeX * scale) / 2 - minX * scale in
  let offsetY := (height - rangeY * scale) / 2 - minY * scale in
  {| minX := minX; maxX := maxX; minY := minY; maxY := maxY;
     scale := scale; offsetX := offsetX; offsetY := offsetY;
     svgWidth := width; svgHeight := height |}.

Definition scalePoint {A : Type} `{XY A} (b : Bounds) (point : A) : Scaled :=
  {| scaled_x := x point * scale b + offsetX b;
     scaled_y := svgHeight b - (y point * scale b + offsetY b) |}.

(** ** components/TSPVisualizationSVG.tsx *)

Module TSPVisualizationSVG.

Definition calculateDistance {A B : Type} `{XY A} `{XY B}
    (point1 : A) (point2 : B) : R :=
  let dx := x point2 - x point1 in
  let dy := y point2 - y point1 in
  sqrt (dx * dx + dy * dy).

Record Memo : Type := mkMemo {
  scaledPoints : list Scaled;
  scaledRoute : list Scaled;
  bounds : option Bounds;
  routeDistances : list R
}.

Definition emptyMemo : Memo :=
  {| scaledPoints := []; scaledRoute := []; bounds := None;
     routeDistances := [] |}.

(** [route.length > 1 ? route.map(...) : []], lines 52-55. *)
Definition distancesOf (route : list RoutePoint.t) : option (list R) :=
  if Nat.ltb 1 (length route)
  then sequence (Array_map (fun current i =>
         next <- nth_error route ((i + 1) mod length route) ;;
         Some (calculateDistance current next)) route)
  else Some [].

(** The callback of [useMemo], with the three constants of lines 66-68 as
    arguments. *)
Definition useMemo_at (svgWidth svgHeight padding : R)
    (solution : option TSPSolution) : option Memo :=
  match solution with
  | None => Some emptyMemo
  | Some solution =>
      let points :=
        match originalPoints solution with Some a => a | None => [] end in
      let route :=
        match route solution with Some a => a | None => [] end in
      if Nat.eqb (length points) 0 then Some emptyMemo
      else
        distances <- distancesOf route ;;
        let b := computeBounds svgWidth svgHeight padding points in
        Some {| scaledPoints := map (scalePoint b) points;
                scaledRoute := map (scalePoint b) route;
                bounds := Some b;
                routeDistances := distances |}
  end.

Definition useMemo (solution : option TSPSolution) : option Memo :=
  useMemo_at 800 600 60 solution.

(** *** The theme, lines 19-35 *)

Definition isDarkMode (document : Document) : bool :=
  match data_theme document with
  | Some v => String.eqb v "dark"
  | None => false
  end.

(** [useState(isDarkMode())] at mount, and the [MutationObserver] callback
    [setDarkMode(isDarkMode())] for each change of the attribute, in order:
    the value of [darkMode] after the page went through [mutations]. *)
Definition darkMode_after (document : Document) (mutations : list Document)
    : bool :=
  fold_left (fun _ document' => isDarkMode document') mutations
    (isDarkMode document).

(** *** The scene, lines 132-377 *)

Record Props : Type := mkProps {
  solution : option TSPSolution;
  showRoute : bool;
  selectedOriginalPoint : option nat;
  selectedRoutePoint : option nat
}.

Definition distanceLabel (distance : option R) : string :=
  match distance with
  | Some d => if Req_dec_T d 0 then "0.0" else toFixed d 1
  | None => "0.0"
  end.

(** One [<g key={i}>] of the route: the line, its order number and its
    distance label, lines 195-255. *)
Definition segmentShapes (scaledRoute : list Scaled) (routeDistances : list R)
    (current : Scaled) (i : nat) : option (list Shape) :=
  next <- nth_error scaledRoute ((i + 1) mod length scaledRoute) ;;
  let midX := x current + (x next - x current) * (1 / 2) in
  let midY := y current + (y next - y current) * (1 / 2) in
  let lineAngle := Math_atan2 (y next - y current) (x next - x current) in
  let perpAngle := lineAngle + PI / 2 in
  let offsetDistance := 25 in
  let offsetX := cos perpAngle * offsetDistance in
  let offsetY := sin perpAngle * offsetDistance in
  let distance := nth_error routeDistances i in
  Some [ Line (x current) (y current) (x next) (y next) "#ef4444" false true;
         Text (midX + offsetX) (midY + offsetY - 8)
              (String_of_nat (i + 1)) "#ef4444" false;
         Text (midX + offsetX) (midY + offsetY + 8)
              (distanceLabel distance) "#059669" false ].

Definition routeShapes (showRoute : bool) (scaledRoute : list Scaled)
    (routeDistances : list R) : option (list Shape) :=
  if showRoute && Nat.ltb 1 (length scaledRoute)
  then groups <- sequence (Array_map
                   (segmentShapes scaledRoute routeDistances) scaledRoute) ;;
       Some (concat groups)
  else Some [].

Definition coordinateLabel (originalPoint : Point.t) : string :=
  append "(" (append (toFixed (Point.x originalPoint) 1)
    (append ", " (append (toFixed (Point.y originalPoint) 1) ")"))).

(** One [<g key={index}>] of the points, lines 260-343. *)
Definition pointShapes (solution : TSPSolution)
    (selectedOriginalPoint : option nat) (point : Scaled) (index : nat)
    : list Shape :=
  let originalPoint :=
    match originalPoints solution with
    | Some ops => nth_error ops index
    | None => None
    end in
  let isSelectedOriginal :=
    SolutionDetails.option_nat_eqb selectedOriginalPoint index in
  (if isSelectedOriginal
   then [Circle (x point) (y point) 12 None "#3b82f6"] else []) ++
  [Circle (x point) (y point) (if isSelectedOriginal then 8 else 6)
     (Some (if Nat.eqb index 0 then "#22c55e" else "#3b82f6")%string) "#ffffff"] ++
  (if Nat.eqb index 0
   then [Text (x point) (y point - 25) "START" "#22c55e" false] else []) ++
  (match originalPoint with
   | Some op =>
       [Text (x point) (y point + 20) (coordinateLabel op)
          (if isSelectedOriginal then "#3b82f6" else "#374151") false]
   | None => []
   end) ++
  (if isSelectedOriginal
   then [Text (x point) (y point + 4) (String_of_nat (index + 1))
           "#ffffff" false]
   else []).

(** The ring and the caption of the selected route point, lines 346-376. *)
Definition highlightShapes (showRoute : bool) (selectedRoutePoint : option nat)
    (scaledRoute : list Scaled) : list Shape :=
  match selectedRoutePoint with
  | Some k =>
      match nth_error scaledRoute k with
      | Some p =>
          if showRoute
          then [ Circle (x p) (y p) 15 None "#22c55e";
                 Text (x p) (y p - 30)
                   (append "ROUTE #" (String_of_nat (k + 1))) "#22c55e" false ]
          else []
      | None => []
      end
  | None => []
  end.

Inductive View : Type :=
| Placeholder
| Svg (viewBoxWidth viewBoxHeight : R) (shapes : list Shape).

Definition render_at (width height padding : R) (darkMode : bool)
    (props : Props) : option View :=
  memo <- useMemo_at width height padding (solution props) ;;
  match solution props with
  | None => Some Placeholder
  | Some sol =>
      let w := match bounds memo with
               | Some b => or_else (svgWidth b) 800
               | None => 800
               end in
      let h := match bounds memo with
               | Some b => or_else (svgHeight b) 600
               | None => 600
               end in
      let captionX := match bounds memo with
                      | Some b => if Req_dec_T (svgWidth b) 0
                                  then 400 else svgWidth b / 2
                      | None => 400
                      end in
      let captionY := match bounds memo with
                      | Some b => if Req_dec_T (svgHeight b) 0
                                  then 590 else svgHeight b - 10
                      | None => 590
                      end in
      let middleY := match bounds memo with
                     | Some b => if Req_dec_T (svgHeight b) 0
                                 then 300 else svgHeight b / 2
                     | None => 300
                     end in
      segments <- routeShapes (showRoute props) (scaledRoute memo)
                    (routeDistances memo) ;;
      Some (Svg w h
        ([ Background (if darkMode then "#1e293b" else "#ffffff");
           GridPattern 80 60 (if darkMode then "#334155" else "#f3f4f6");
           Text captionX captionY "X Coordinate"
             (if darkMode then "#94a3b8" else "#6b7280") false;
           Text 15 middleY "Y Coordinate"
             (if darkMode then "#94a3b8" else "#6b7280") true ] ++
         segments ++
         concat (Array_map (pointShapes sol (selectedOriginalPoint props))
                   (scaledPoints memo)) ++
         highlightShapes (showRoute props) (selectedRoutePoint props)
           (scaledRoute memo)))
  end.

Definition render (darkMode : bool) (props : Props) : option View :=
  render_at 800 600 60 darkMode props.

(** What the component shows once the page has been through [mutations]. *)
Definition display (document : Document) (mutations : list Document)
    (props : Props) : option View :=
  render (darkMode_after document mutations) props.

End TSPVisualizationSVG.

(** ** components/TSPVisualization.tsx *)

Module TSPVisualization.

(** *** The surface size, lines 16-31 *)

Record Dimensions : Type := mkDimensions {
  width : R;
  height : R
}.

Definition initialDimensions : Dimensions :=
  {| width := 600; height := 400 |}.

Definition handleResize (clientWidth : R) : Dimensions :=
  let width := Rmin (clientWidth - 32) 800 in
  let height := Rmin (width * (75 / 100)) 600 in
  {| width := width; height := height |}.

(** *** The theme, lines 33-49 *)

Definition isDarkMode (document : Document) : bool :=
  match data_theme document with
  | Some v => String.eqb v "dark"
  | None => false
  end.

Definition darkMode_after (document : Document) (mutations : list Document)
    : bool :=
  fold_left (fun _ document' => isDarkMode document') mutations
    (isDarkMode document).

(** *** The drawing effect, lines 51-275 *)

Definition drawArrow (strokeStyle : string) (fromX fromY toX toY size : R)
    : Shape :=
  let angle := Math_atan2 (toY - fromY) (toX - fromX) in
  let arrowLength := size in
  let arrowAngle := PI / 6 in
  let x1 := toX - arrowLength * cos (angle - arrowAngle) in
  let y1 := toY - arrowLength * sin (angle - arrowAngle) in
  let x2 := toX - arrowLength * cos (angle + arrowAngle) in
  let y2 := toY - arrowLength * sin (angle + arrowAngle) in
  Arrow toX toY x1 y1 x2 y2 strokeStyle.

(** The [for] loop of lines 130-175, [k] iterations before [i] reaches
    [scaledRoute.length]; [drawn] is what the loop has painted so far. *)
Fixpoint drawRoute_for (scaledRoute : list Scaled) (k i : nat)
    (drawn : list Shape) : option (list Shape) :=
  match k with
  | O => Some drawn
  | S k' =>
      current <- nth_error scaledRoute i ;;
      next <- nth_error scaledRoute ((i + 1) mod length scaledRoute) ;;
      let arrowX := x current + (x next - x current) * (8 / 10) in
      let arrowY := y current + (y next - y current) * (8 / 10) in
      let midX := x current + (x next - x current) * (1 / 2) in
      let midY := y current + (y next - y current) * (1 / 2) in
      let lineAngle := Math_atan2 (y next - y current) (x next - x current) in
      let perpAngle := lineAngle + PI / 2 in
      let offsetDistance := 15 in
      let offsetX := cos perpAngle * offsetDistance in
      let offsetY := sin perpAngle * offsetDistance in
      drawRoute_for scaledRoute k' (i + 1)
        (drawn ++
         [ Line (x current) (y current) (x next) (y next) "#ef4444" false false;
           drawArrow "#ef4444" (x current) (y current) arrowX arrowY 8;
           Circle (midX + offsetX) (midY + offsetY) 10 (Some "#ef4444"%string)
             "#ffffff";
           Text (midX + offsetX) (midY + offsetY) (String_of_nat (i + 1))
             "#ffffff" false ])
  end.

(** The callback of [points.forEach], lines 179-233. *)
Definition drawPoint (measureText : string -> R) (b : Bounds)
    (point : Point.t) (index : nat) : list Shape :=
  let scaled := scalePoint b point in
  Circle (x scaled) (y scaled) 6
    (Some (if Nat.eqb index 0 then "#22c55e" else "#3b82f6")%string)
    "#ffffff" ::
  (if Nat.eqb index 0
   then
     let text := "START"%string in
     let textWidth := measureText text in
     let textHeight := 12 in
     let padding := 4 in
     [ FillRect (x scaled - textWidth / 2 - padding)
         (y scaled - 25 - textHeight - padding)
         (textWidth + 2 * padding) (textHeight + 2 * padding) "#22c55e";
       StrokeRect (x scaled - textWidth / 2 - padding)
         (y scaled - 25 - textHeight - padding)
         (textWidth + 2 * padding) (textHeight + 2 * padding) "#ffffff";
       Text (x scaled) (y scaled - 25) text "#ffffff" false ]
   else []).

(** The two grid loops, lines 241-256. *)
Definition drawGrid (darkMode : bool) (canvas_width canvas_height : R)
    : list Shape :=
  let strokeStyle := (if darkMode then "#334155" else "#f3f4f6")%string in
  map (fun i => let x := canvas_width / 10 * INR i in
                Line x 0 x canvas_height strokeStyle true false) (seq 0 11) ++
  map (fun i => let y := canvas_height / 10 * INR i in
                Line 0 y canvas_width y strokeStyle true false) (seq 0 11).

(** One run of the effect on a mounted canvas whose [width] and [height]
    read back as [canvas_width] and [canvas_height], with [padding] the
    constant of line 84 and [measureText] the text metrics of the drawing
    context.  Without a solution nothing is drawn. *)
Definition draw_at (padding : R) (measureText : string -> R)
    (canvas_width canvas_height : R) (darkMode : bool)
    (solution : option TSPSolution) (showRoute : bool)
    : option (list Shape) :=
  match solution with
  | None => Some []
  | Some solution =>
      let cleared := [Background (if darkMode then "#1e293b" else "#ffffff")] in
      let points :=
        match originalPoints solution with Some a => a | None => [] end in
      let route :=
        match route solution with Some a => a | None => [] end in
      if Nat.eqb (length points) 0 then Some cleared
      else
        let b := computeBounds canvas_width canvas_height padding points in
        routeDrawn <-
          (if showRoute && Nat.ltb 1 (length route)
           then let scaledRoute := map (scalePoint b) route in
                drawRoute_for scaledRoute (length scaledRoute) 0 []
           else Some []) ;;
        Some (cleared ++ routeDrawn ++
              concat (Array_map (drawPoint measureText b) points) ++
              drawGrid darkMode canvas_width canvas_height ++
              [ Text (canvas_width / 2) (canvas_height - 10) "X Coordinate"
                  (if darkMode then "#94a3b8" else "#6b7280") false;
                Text 15 (canvas_height / 2) "Y Coordinate"
                  (if darkMode then "#94a3b8" else "#6b7280") true ])
  end.

Definition draw (measureText : string -> R) (canvas_width canvas_height : R)
    (darkMode : bool) (solution : option TSPSolution) (showRoute : bool)
    : option (list Shape) :=
  draw_at 40 measureText canvas_width canvas_height darkMode solution
    showRoute.

(** What the effect paints once the page has been through [mutations]. *)
Definition display (measureText : string -> R)
    (canvas_width canvas_height : R) (document : Document)
    (mutations : list Document) (solution : option TSPSolution)
    (showRoute : bool) : option (list Shape) :=
  draw measureText canvas_width canvas_height
    (darkMode_after document mutations) solution showRoute.

End TSPVisualization.

(** ** App.tsx: the selection shared by the table and the graph *)

Module App.

Record State : Type := mkState {
  currentSolution : option TSPSolution;
  selectedOriginalPoint : option nat;
  selectedRoutePoint : option nat
}.

(** The three [useState] initial values, lines 327-334. *)
Definition initial : State :=
  {| currentSolution := None;
     selectedOriginalPoint := None;
     selectedRoutePoint := None |}.

Definition setCurrentSolution (v : option TSPSolution) (st : State) : State :=
  {| currentSolution := v;
     selectedOriginalPoint := selectedOriginalPoint st;
     selectedRoutePoint := selectedRoutePoint st |}.

Definition setSelectedOriginalPoint (v : option nat) (st : State) : State :=
  {| currentSolution := currentSolution st;
     selectedOriginalPoint := v;
     selectedRoutePoint := selectedRoutePoint st |}.

Definition setSelectedRoutePoint (v : option nat) (st : State) : State :=
  {| currentSolution := currentSolution st;
     selectedOriginalPoint := selectedOriginalPoint st;
     selectedRoutePoint := v |}.

(** What can happen to the selection: a solution is loaded or dropped, or a
    row of one of the two tables is clicked. *)
Inductive Event : Type :=
| Load (solution : option TSPSolution)
| ClickOriginalRow (index : nat)
| ClickRouteRow (index : nat).

(** The rows that exist to be clicked: [SolutionDetails] shows its tables
    for a solution with a non-empty [id] and a non-zero [pointCount], one row
    per element of a non-empty array. *)
Definition originalRows (st : State) : nat :=
  match currentSolution st with
  | Some s =>
      if SolutionDetails.invalidSolution s then 0%nat
      else match originalPoints s with Some a => length a | None => 0%nat end
  | None => 0%nat
  end.

Definition routeRowsShown (st : State) : nat :=
  match currentSolution st with
  | Some s =>
      if SolutionDetails.invalidSolution s then 0%nat
      else match route s with Some a => length a | None => 0%nat end
  | None => 0%nat
  end.

(** [onSelectOriginalPoint={setSelectedOriginalPoint}] and
    [onSelectRoutePoint={setSelectedRoutePoint}], lines 515-518, called by
    the [onClick] of the rows; [None] when the event cannot happen. *)
Definition handle (st : State) (ev : Event) : option State :=
  match ev with
  | Load solution => Some (setCurrentSolution solution st)
  | ClickOriginalRow index =>
      if Nat.ltb index (originalRows st)
      then Some (setSelectedOriginalPoint
                   (SolutionDetails.onClick (selectedOriginalPoint st) index) st)
      else None
  | ClickRouteRow index =>
      if Nat.ltb index (routeRowsShown st)
      then Some (setSelectedRoutePoint
                   (SolutionDetails.onClick (selectedRoutePoint st) index) st)
      else None
  end.

Fixpoint run (st : State) (evs : list Event) : option State :=
  match evs with
  | [] => Some st
  | ev :: evs' => st' <- handle st ev ;; run st' evs'
  end.

Definition reachable (st : State) : Prop :=
  exists evs, run initial evs = Some st.

(** The props [App] hands to the graph, lines 529-534. *)
Definition graphProps (st : State) : TSPVisualizationSVG.Props :=
  {| TSPVisualizationSVG.solution := currentSolution st;
     TSPVisualizationSVG.showRoute := true;
     TSPVisualizationSVG.selectedOriginalPoint := selectedOriginalPoint st;
     TSPVisualizationSVG.selectedRoutePoint := selectedRoutePoint st |}.

End App.

(** ** Reading a scene

    What a test at the level of the emitted shapes would look for: the
    distance labels (the only texts in that green), the route lines (the
    only lines in that red) and the point markers (the only circles filled
    green or blue). *)

Definition distanceLabelOf (s : Shape) : list string :=
  match s with
  | Text _ _ content fill _ =>
      if String.eqb fill "#059669" then [content] else []
  | _ => []
  end.

Definition distanceLabels (shapes : list Shape) : list string :=
  flat_map distanceLabelOf shapes.

Definition routeLineOf (s : Shape) : list (R * R * R * R) :=
  match s with
  | Line x1 y1 x2 y2 stroke _ _ =>
      if String.eqb stroke "#ef4444" then [(x1, y1, x2, y2)] else []
  | _ => []
  end.

Definition routeLines (shapes : list Shape) : list (R * R * R * R) :=
  flat_map routeLineOf shapes.

Definition markerOf (s : Shape) : list (R * R * string) :=
  match s with
  | Circle cx cy _ (Some fill) _ =>
      if String.eqb fill "#22c55e" || String.eqb fill "#3b82f6"
      then [(cx, cy, fill)] else []
  | _ => []
  end.

Definition markers (shapes : list Shape) : list (R * R * string) :=
  flat_map markerOf shapes.

Definition shapesOf (v : TSPVisualizationSVG.View) : list Shape :=
  match v with
  | TSPVisualizationSVG.Placeholder => []
  | TSPVisualizationSVG.Svg _ _ shapes => shapes
  end.

(** The lines of a closed tour over projected route points, and the labels
    of its segments. *)
Definition tourLineOf (scaledRoute : list Scaled) (current : Scaled) (i : nat)
    : list (R * R * R * R) :=
  match nth_error scaledRoute ((i + 1) mod length scaledRoute) with
  | Some next => [(x current, y current, x next, y next)]
  | None => []
  end.

Definition tourLines (scaledRoute : list Scaled) : list (R * R * R * R) :=
  concat (map_from (tourLineOf scaledRoute) 0 scaledRoute).

Definition tourLabels (routeDistances : list R) (n : nat) : list string :=
  map (fun i => TSPVisualizationSVG.distanceLabel (nth_error routeDistances i))
    (seq 0 n).

(** The colour of the marker of original point [index]. *)
Definition markerColour (index : nat) : string :=
  if Nat.eqb index 0 then "#22c55e"%string else "#3b82f6"%string.

(** ** JavaScript strings

    A string is its sequence of UTF-16 code units. *)

Definition JSString : Type := list N.

(** The code units [String.prototype.trim] strips: WhiteSpace and
    LineTerminator of ECMA-262. *)
Definition isWhiteSpace (c : N) : bool :=
  existsb (N.eqb c)
    [9; 10; 11; 12; 13; 32; 160; 5760; 8192; 8193; 8194; 8195; 8196; 8197;
     8198; 8199; 8200; 8201; 8202; 8232; 8233; 8239; 8287; 12288; 65279]%N.

Fixpoint trimStart (s : JSString) : JSString :=
  match s with
  | [] => []
  | c :: s' => if isWhiteSpace c then trimStart s' else s
  end.

Definition trimEnd (s : JSString) : JSString :=
  rev (trimStart (rev s)).

Definition trim (s : JSString) : JSString :=
  trimEnd (trimStart s).

(** [s.split(sep)] for a separator of one code unit: the pieces between the
    separators, one more than there are separators. *)
Fixpoint split (sep : N) (s : JSString) : list JSString :=
  match s with
  | [] => [[]]
  | c :: s' =>
      if N.eqb c sep then [] :: split sep s'
      else match split sep s' with
           | piece :: pieces => (c :: piece) :: pieces
           | [] => [[c]]
           end
  end.

Fixpoint startsWith (s prefix : JSString) : bool :=
  match prefix, s with
  | [], _ => true
  | p :: prefix', c :: s' => N.eqb c p && startsWith s' prefix'
  | _ :: _, [] => false
  end.

Definition endsWith (s suffix : JSString) : bool :=
  startsWith (rev s) (rev suffix).

(** The code units of ['\n'], [','], ['.txt'] and ['.csv']. *)
Definition LF : N := 10%N.
Definition COMMA : N := 44%N.
Definition dot_txt : JSString := [46; 116; 120; 116]%N.
Definition dot_csv : JSString := [46; 99; 115; 118]%N.

(** A value that was thrown or that a promise was rejected with: an [Error]
    with its message, or anything else. *)
Inductive Thrown : Type :=
| ErrorObject (message : string)
| NotAnError.

(** [error instanceof Error ? error.message : fallback]. *)
Definition messageOr (fallback : string) (error : Thrown) : string :=
  match error with
  | ErrorObject message => message
  | NotAnError => fallback
  end.

(** [a || b] on strings: [b] when [a] is the empty string. *)
Definition string_or_else (a b : string) : string :=
  match a with
  | EmptyString => b
  | _ => a
  end.

(** ** services/tspService.ts: validateCoordinateFile

    [parseFloat] and [isNaN] are the built-ins of the language; they are
    taken as they come, over any type of numbers. *)

Module TSPService.

Inductive Validation (Number : Type) : Type :=
| Valid (points : list (Number * Number))
| Invalid (error : string).

Arguments Valid {Number} points.
Arguments Invalid {Number} error.

(** The text of the two errors thrown for line [index + 1]. *)
Definition expectedFormat (index : nat) : string :=
  append "Line " (append (String_of_nat (index + 1))
    (append ": Expected format "
       (String "034"%char (append "x,y" (String "034"%char EmptyString))))).

Definition invalidCoordinates (index : nat) : string :=
  append "Line " (append (String_of_nat (index + 1)) ": Invalid coordinates").

Section Validate.

Variable Number : Type.
Variable parseFloat : JSString -> Number.
Variable isNaN : Number -> bool.

(** The callback of [lines.map], lines 84-97: the point of the line, or the
    error it throws. *)
Definition parseLine (line : JSString) (index : nat)
    : Thrown + (Number * Number) :=
  let parts := split COMMA (trim line) in
  if negb (Nat.eqb (length parts) 2)
  then inl (ErrorObject (expectedFormat index))
  else
    let x := parseFloat (nth 0 parts []) in
    let y := parseFloat (nth 1 parts []) in
    if isNaN x || isNaN y
    then inl (ErrorObject (invalidCoordinates index))
    else inr (x, y).

(** [lines.map(...)]: the first callback that throws ends the map. *)
Fixpoint parseLines_from (index : nat) (lines : list JSString)
    : Thrown + list (Number * Number) :=
  match lines with
  | [] => inr []
  | line :: rest =>
      match parseLine line index with
      | inl error => inl error
      | inr point =>
          match parseLines_from (S index) rest with
          | inl error => inl error
          | inr points => inr (point :: points)
          end
      end
  end.

Definition validateCoordinateFile (content : JSString) : Validation Number :=
  let lines := split LF (trim content) in
  if Nat.ltb (length lines) 3
  then Invalid "File must contain at least 3 points"
  else if Nat.ltb 1000 (length lines)
  then Invalid "File cannot contain more than 1000 points"
  else
    match parseLines_from 0 lines with
    | inr points => Valid points
    | inl error => Invalid (messageOr "Invalid file format" error)
    end.

End Validate.

Arguments parseLine {Number} parseFloat isNaN line index.
Arguments parseLines_from {Number} parseFloat isNaN index lines.
Arguments validateCoordinateFile {Number} parseFloat isNaN content.

End TSPService.

(** ** components/FileUpload.tsx: onDrop *)

Module FileUpload.

(** A dropped file: its name, its size in bytes, and what [file.text()]
    resolves to or is rejected with. *)
Record File : Type := mkFile {
  name : JSString;
  size : N;
  text : Thrown + JSString
}.

Section OnDrop.

Variable Number : Type.
Variable parseFloat : JSString -> Number.
Variable isNaN : Number -> bool.

Variable UploadResponse : Type.

(** What [onDrop] does to the outside, in order: the calls of the three
    callbacks of the props and the request of [TSPService.uploadFile]. *)
Inductive Effect : Type :=
| SetIsUploading (uploading : bool)
| OnUploadError (error : string)
| OnUploadSuccess (result : UploadResponse)
| UploadFile (file : File).

(** The answer of the server to [TSPService.uploadFile]. *)
Variable uploadFile : File -> Thrown + UploadResponse.

(** The body of the [try], lines 41-53, after [setIsUploading(true)]: what
    it does before it returns or throws, and what it throws. *)
Definition tryBody (file : File) : list Effect * option Thrown :=
  match text file with
  | inl error => ([], Some error)
  | inr content =>
      match TSPService.validateCoordinateFile parseFloat isNaN content with
      | TSPService.Invalid error =>
          ([OnUploadError (string_or_else error "Invalid file format")], None)
      | TSPService.Valid _ =>
          match uploadFile file with
          | inl error => ([UploadFile file], Some error)
          | inr result => ([UploadFile file; OnUploadSuccess result], None)
          end
      end
  end.

Definition onDrop (acceptedFiles : list File) : list Effect :=
  match acceptedFiles with
  | [] => [OnUploadError "No valid file selected"]
  | file :: _ =>
      if negb (endsWith (name file) dot_txt) && negb (endsWith (name file) dot_csv)
      then [OnUploadError "Please upload a .txt or .csv file"]
      else if N.ltb (10 * 1024 * 1024) (size file)
      then [OnUploadError "File size must be less than 10MB"]
      else
        let (done, thrown) := tryBody file in
        [SetIsUploading true] ++ done ++
        (match thrown with
         | Some error => [OnUploadError (messageOr "Upload failed" error)]
         | None => []
         end) ++
        [SetIsUploading false]
  end.

End OnDrop.

Arguments SetIsUploading {UploadResponse} uploading.
Arguments OnUploadError {UploadResponse} error.
Arguments OnUploadSuccess {UploadResponse} result.
Arguments UploadFile {UploadResponse} file.
Arguments tryBody {Number} parseFloat isNaN {UploadResponse} uploadFile file.
Arguments onDrop {Number} parseFloat isNaN {UploadResponse} uploadFile
  acceptedFiles.

End FileUpload.

(** ** components/SolutionDetails.tsx: the table of the original points *)

Module OriginalPointsTable.

(** One row of the "Original Points (Upload Order)" table, lines 361-380:
    its three cells and whether it is drawn as selected. *)
Record Row : Type := mkRow {
  row_number : nat;
  row_coordinates : string;
  row_address : string;
  row_selected : bool
}.

Definition coordinates (point : Point.t) : string :=
  append "(" (append (toFixed (Point.x point) 2)
    (append ", " (append (toFixed (Point.y point) 2) ")"))).

Definition addressCell (point : Point.t) : string :=
  match Point.address point with
  | Some a => string_or_else a "N/A"
  | None => "N/A"%string
  end.

Definition rows (originalPoints : list Point.t)
    (selectedOriginalPoint : option nat) : list Row :=
  Array_map (fun point index =>
    {| row_number := index + 1;
       row_coordinates := coordinates point;
       row_address := addressCell point;
       row_selected :=
         SolutionDetails.option_nat_eqb selectedOriginalPoint index |})
    originalPoints.

(** The table is rendered when the solution passes the check of line 258
    and [solution.originalPoints] is present and not empty. *)
Definition table (solution : TSPSolution) (selectedOriginalPoint : option nat)
    : option (list Row) :=
  if SolutionDetails.invalidSolution solution then None
  else
    match originalPoints solution with
    | Some ops =>
        if Nat.ltb 0 (length ops) then Some (rows ops selectedOriginalPoint)
        else None
    | None => None
    end.

End OriginalPointsTable.

(** ** Reading a line of an uploaded file *)

(** What makes a line a point: after trimming, exactly two pieces around one
    comma, neither of which [parseFloat] turns into [NaN]. *)
Definition wellFormedLine {Number : Type} (parseFloat : JSString -> Number)
    (isNaN : Number -> bool) (line : JSString) (point : Number * Number)
    : Prop :=
  exists a b,
    split COMMA (trim line) = [a; b] /\
    isNaN (parseFloat a) = false /\ isNaN (parseFloat b) = false /\
    point = (parseFloat a, parseFloat b).

(** ** Reading a polyline *)

(** The lines of [ls] form a closed chain: each one ends where the next one
    starts, and the last one ends where the first one starts. *)
Definition closedChain (ls : list (R * R * R * R)) : Prop :=
  forall i x1 y1 x2 y2 x3 y3 x4 y4,
    nth_error ls i = Some (x1, y1, x2, y2) ->
    nth_error ls ((i + 1) mod length ls) = Some (x3, y3, x4, y4) ->
    x2 = x3 /\ y2 = y3.

(** ** Examples *)

(** A solution of one point whose route is that point. *)
Definition onePointSolution : TSPSolution :=
  {| id := "1";
     pointCount := 1;
     status := SOLVED;
     totalDistance := None;
     route := Some [RoutePoint.mk 3 4 None 0];
     originalPoints := Some [Point.mk 3 4 None] |}.

(** A solved instance of two points. *)
Definition twoPointSolution : TSPSolution :=
  {| id := "2";
     pointCount := 2;
     status := SOLVED;
     totalDistance := Some 10;
     route := Some [RoutePoint.mk 0 0 None 0; RoutePoint.mk 3 4 None 1];
     originalPoints := Some [Point.mk 0 0 None; Point.mk 3 4 None] |}.

(** A solved route of two points whose original points did not come with
    the solution. *)
Definition routeWithoutPoints : TSPSolution :=
  {| id := "3";
     pointCount := 2;
     status := SOLVED;
     totalDistance := Some 10;
     route := Some [RoutePoint.mk 0 0 None 0; RoutePoint.mk 3 4 None 1];
     originalPoints := None |}.

Definition lightPage : Document := {| data_theme := None |}.

Definition darkPage : Document := {| data_theme := Some "dark"%string |}.

(** * Properties *)

(** ** The error monad *)

Lemma bind_Some : forall {A B : Type} (c : option A) (k : A -> option B) (b : B),
  bind c k = Some b -> exists a, c = Some a /\ k a = Some b.
Proof.
  intros A B [a|] k b E; simpl in E; [exists a; auto | discriminate].
Qed.

(** ** Segment distances of the route table *)

Section RouteDistances.

Context {A : Type} `{XY A}.

Import SolutionDetails.

Lemma calculateDistance_nonneg : forall (p q : A), 0 <= calculateDistance p q.
Proof. intros p q. unfold calculateDistance. apply sqrt_pos. Qed.

Lemma calculateDistance_self : forall (p : A), calculateDistance p p = 0.
Proof.
  intros p. unfold calculateDistance; cbv zeta.
  replace ((x p - x p) * (x p - x p) + (y p - y p) * (y p - y p)) with 0 by ring.
  apply sqrt_0.
Qed.

Lemma next_index_in_range : forall (route : list A) (i : nat),
  (i < length route)%nat -> ((i + 1) mod length route < length route)%nat.
Proof. intros route i Hi. apply Nat.mod_upper_bound. lia. Qed.

(** The loop invariant: after the remaining [k] iterations the array holds
    what it held, followed by one distance per remaining index. *)
Lemma getRouteDistances_for_inv : forall (route : list A) (k i : nat) (distances : list R),
  (i + k = length route)%nat ->
  exists result,
    getRouteDistances_for route k i distances = Some result /\
    length result = (length distances + k)%nat /\
    (forall j, (j < length distances)%nat ->
       nth_error result j = nth_error distances j) /\
    (forall j, (j < k)%nat ->
       exists current next,
         nth_error route (i + j) = Some current /\
         nth_error route ((i + j + 1) mod length route) = Some next /\
         nth_error result (length distances + j) =
           Some (calculateDistance current next)).
Proof.
  intros route k. induction k as [|k IH]; intros i distances Hik.
  - exists distances. simpl. repeat split; auto; intros; lia.
  - assert (Hi : (i < length route)%nat) by lia.
    destruct (nth_error route i) as [current|] eqn:Ec;
      [| apply nth_error_None in Ec; lia].
    destruct (nth_error route ((i + 1) mod length route)) as [next|] eqn:En;
      [| apply nth_error_None in En;
         pose proof (next_index_in_range route i Hi); lia].
    destruct (IH (i + 1)%nat (distances ++ [calculateDistance current next]))
      as (result & Hres & Hlen & Hold & Hnew); [lia|].
    exists result. simpl. rewrite Ec, En. simpl.
    rewrite length_app in Hlen, Hold, Hnew. simpl in Hlen, Hold, Hnew.
    split; [exact Hres|]. split; [lia|]. split.
    + intros j Hj. rewrite Hold by lia. apply nth_error_app1; exact Hj.
    + intros [|j] Hj.
      * exists current, next. rewrite !Nat.add_0_r.
        split; [exact Ec|]. split; [exact En|].
        rewrite Hold by lia. rewrite nth_error_app2 by lia.
        rewrite Nat.sub_diag. reflexivity.
      * destruct (Hnew j) as (c & n & Hc & Hn & Hd); [lia|].
        exists c, n.
        replace (i + S j)%nat with (i + 1 + j)%nat by lia.
        split; [exact Hc|]. split; [exact Hn|].
        replace (length distances + S j)%nat
          with (length distances + 1 + j)%nat by lia.
        exact Hd.
Qed.

(** [getRouteDistances] returns, for every route, an array as long as the
    route whose element [i] is the Euclidean distance from point [i] to point
    [(i + 1) mod route.length]; the last element is the distance from the
    last point back to the first. *)
Lemma getRouteDistances_elements : forall (route : list A),
  exists distances,
    getRouteDistances route = Some distances /\
    length distances = length route /\
    (forall i, (i < length route)%nat ->
       exists current next,
         nth_error route i = Some current /\
         nth_error route ((i + 1) mod length route) = Some next /\
         nth_error distances i =
           Some (sqrt ((x next - x current) ^ 2 + (y next - y current) ^ 2))) /\
    (forall first final, hd_error route = Some first ->
       nth_error route (length route - 1) = Some final ->
       nth_error distances (length route - 1) =
         Some (sqrt ((x first - x final) ^ 2 + (y first - y final) ^ 2))).
Proof.
  intros route.
  destruct (getRouteDistances_for_inv route (length route) 0 [])
    as (distances & Hres & Hlen & _ & Hnew); [lia|].
  simpl in Hlen, Hnew.
  assert (Hat : forall i, (i < length route)%nat ->
       exists current next,
         nth_error route i = Some current /\
         nth_error route ((i + 1) mod length route) = Some next /\
         nth_error distances i =
           Some (sqrt ((x next - x current) ^ 2 + (y next - y current) ^ 2))).
  { intros i Hi. destruct (Hnew i Hi) as (c & n & Hc & Hn & Hd).
    exists c, n. repeat split; auto. rewrite Hd.
    unfold calculateDistance; cbv zeta. do 2 f_equal. ring. }
  exists distances. repeat split; auto.
  intros first final Hfirst Hfinal.
  destruct route as [|p route]; [discriminate|].
  simpl length in *. simpl in Hfirst. injection Hfirst as ->.
  destruct (Hat (S (length route) - 1)%nat) as (c & n & Hc & Hn & Hd); [lia|].
  rewrite Hfinal in Hc. injection Hc as <-.
  replace (S (length route) - 1 + 1)%nat with (S (length route)) in Hn by lia.
  rewrite Nat.Div0.mod_same in Hn. simpl in Hn. injection Hn as <-.
  exact Hd.
Qed.

End RouteDistances.

(** ** Running sums *)

Lemma Rsum_app : forall l1 l2, Rsum (l1 ++ l2) = Rsum l1 + Rsum l2.
Proof.
  induction l1 as [|a l1 IH]; intros l2; simpl.
  - lra.
  - rewrite IH. lra.
Qed.

Lemma Rsum_nonneg : forall l, Forall (fun d => 0 <= d) l -> 0 <= Rsum l.
Proof.
  induction 1 as [|a l Ha _ IH]; simpl; lra.
Qed.

Lemma Rsum_firstn_mono : forall l i j,
  Forall (fun d => 0 <= d) l -> (i <= j)%nat ->
  Rsum (firstn i l) <= Rsum (firstn j l).
Proof.
  induction l as [|a l IH]; intros i j Hl Hij.
  - rewrite !firstn_nil. lra.
  - inversion Hl as [|? ? Ha Hl']; subst.
    destruct i as [|i], j as [|j]; simpl; try lia; try lra.
    + assert (Rsum (firstn 0 l) <= Rsum (firstn j l)) by (apply IH; [auto | lia]).
      simpl in *. lra.
    + assert (Rsum (firstn i l) <= Rsum (firstn j l)) by (apply IH; [auto | lia]).
      lra.
Qed.

Lemma Rsum_firstn_S : forall l i d,
  nth_error l i = Some d ->
  Rsum (firstn (S i) l) = Rsum (firstn i l) + d.
Proof.
  induction l as [|a l IH]; intros [|i] d E; simpl in *; try discriminate.
  - injection E as ->. lra.
  - rewrite (IH i d E). lra.
Qed.

(** ** The rows of the route table *)

Section RouteRows.

Import SolutionDetails.

Variable originalPoints : option (list Point.t).
Variable n : nat.
Variable selectedRoutePoint : option nat.
Variable routeDistances : list R.

(** The invariant of the row loop: row [j] shows distance number
    [index + j] and the running sum up to and including it. *)
Lemma routeRows_from_inv : forall (route : list RoutePoint.t) (index : nat) (c : R),
  (index + length route <= length routeDistances)%nat ->
  c = Rsum (firstn index routeDistances) ->
  exists rows,
    routeRows_from originalPoints n selectedRoutePoint routeDistances
      index c route = Some rows /\
    length rows = length route /\
    forall j row, nth_error rows j = Some row ->
      nth_error routeDistances (index + j) = Some (row_distance row) /\
      row_cumulativeDistance row =
        Rsum (firstn (S (index + j)) routeDistances) /\
      row_segmentDistance row = formatDistance (Some (row_distance row)) /\
      row_totalDistance row =
        formatDistance (Some (row_cumulativeDistance row)) /\
      row_routeOrder row = (index + j + 1)%nat.
Proof.
  intros route. induction route as [|point rest IH]; intros index c Hlen Hc.
  - exists []. simpl. repeat split; auto. all: destruct j; discriminate.
  - simpl in Hlen.
    destruct (nth_error routeDistances index) as [distance|] eqn:Ed;
      [| apply nth_error_None in Ed; lia].
    destruct (IH (S index) (c + distance)) as (rows & Hrows & Hl & Hrow).
    + lia.
    + rewrite (Rsum_firstn_S _ _ _ Ed). lra.
    + eexists. cbn [routeRows_from]. rewrite Ed. cbn [bind].
      rewrite Hrows. cbn [bind].
      split; [reflexivity|]. split; [simpl; lia|].
      intros [|j] row Hj; simpl in Hj.
      * injection Hj as <-.
        cbn [row_distance row_cumulativeDistance row_segmentDistance
             row_totalDistance row_routeOrder].
        rewrite Nat.add_0_r, (Rsum_firstn_S _ _ _ Ed), Hc.
        repeat split; auto.
      * replace (index + S j)%nat with (S index + j)%nat by lia.
        apply Hrow, Hj.
Qed.

End RouteRows.

Lemma getRouteDistances_nonneg : forall {A : Type} `{XY A} (r : list A),
  exists distances,
    SolutionDetails.getRouteDistances r = Some distances /\
    length distances = length r /\
    Forall (fun d => 0 <= d) distances.
Proof.
  intros A H r.
  destruct (getRouteDistances_for_inv r (length r) 0 [])
    as (distances & Hres & Hlen & _ & Hnew); [lia|].
  simpl in Hlen, Hnew.
  exists distances. repeat split; auto.
  apply Forall_forall. intros d Hd.
  apply In_nth_error in Hd. destruct Hd as (i & Hi).
  assert (Hlt : (i < length r)%nat).
  { rewrite <- Hlen. apply nth_error_Some. congruence. }
  destruct (Hnew i Hlt) as (c & n & _ & _ & Hd).
  rewrite Hi in Hd. injection Hd as ->. apply calculateDistance_nonneg.
Qed.

Lemma last_nth_error : forall {A : Type} (l : list A) (d a : A),
  nth_error l (length l - 1) = Some a -> last l d = a.
Proof.
  induction l as [|b l IH]; intros d a E.
  - discriminate.
  - destruct l as [|c l].
    + simpl in *. congruence.
    + change (last (b :: c :: l) d) with (last (c :: l) d).
      apply IH. simpl length in *.
      replace (S (length l) - 1)%nat with (length l) by lia.
      replace (S (S (length l)) - 1)%nat with (S (length l)) in E by lia.
      exact E.
Qed.

(** C3: the running total of the route table, accumulated row by row, is
    the sum of the segment distances up to and including the row; it never
    decreases from one row to a later one, and in the last row it is the sum
    of all segment distances, the length of the closed tour. *)
Theorem cumulativeDistance_monotone_total :
  forall (solution : TSPSolution) (selectedRoutePoint : option nat)
         (r : list RoutePoint.t),
  exists distances rows,
    SolutionDetails.getRouteDistances r = Some distances /\
    SolutionDetails.routeRows solution selectedRoutePoint r = Some rows /\
    map SolutionDetails.row_distance rows = distances /\
    (forall i row, nth_error rows i = Some row ->
       SolutionDetails.row_cumulativeDistance row =
         Rsum (firstn (S i) distances)) /\
    (forall i j ri rj, (i <= j)%nat ->
       nth_error rows i = Some ri -> nth_error rows j = Some rj ->
       SolutionDetails.row_cumulativeDistance ri <=
       SolutionDetails.row_cumulativeDistance rj) /\
    last (map SolutionDetails.row_cumulativeDistance rows) 0 = Rsum distances.
Proof.
  intros solution sel r.
  destruct (getRouteDistances_nonneg r) as (distances & Hd & Hlen & Hpos).
  destruct (routeRows_from_inv (originalPoints solution) (length r) sel
              distances r 0%nat 0)
    as (rows & Hrows & Hl & Hrow); [simpl; lia | reflexivity |].
  assert (Hcum : forall i row, nth_error rows i = Some row ->
            SolutionDetails.row_cumulativeDistance row =
              Rsum (firstn (S i) distances)).
  { intros i row Hi. apply (Hrow i row Hi). }
  exists distances, rows.
  split; [exact Hd|]. split.
  { unfold SolutionDetails.routeRows. rewrite Hd. exact Hrows. }
  split.
  { apply nth_error_ext. intros i. rewrite nth_error_map.
    destruct (nth_error rows i) as [row|] eqn:Ei; simpl.
    - symmetry. apply (Hrow i row Ei).
    - symmetry. apply nth_error_None. apply nth_error_None in Ei. lia. }
  split; [exact Hcum|]. split.
  { intros i j ri rj Hij Hi Hj.
    rewrite (Hcum i ri Hi), (Hcum j rj Hj).
    apply Rsum_firstn_mono; [exact Hpos | lia]. }
  destruct rows as [|row0 rows'] eqn:Erows.
  { simpl in Hl. destruct distances; [reflexivity | simpl in Hlen; lia]. }
  rewrite <- Erows in *.
  destruct (nth_error rows (length rows - 1)) as [final|] eqn:Ef.
  - rewrite (last_nth_error _ 0 (SolutionDetails.row_cumulativeDistance final)).
    + rewrite (Hcum _ _ Ef).
      rewrite firstn_all2; [reflexivity|].
      rewrite Erows in *. simpl in *. lia.
    + rewrite length_map, nth_error_map, Ef. reflexivity.
  - apply nth_error_None in Ef. rewrite Erows in Ef. simpl in Ef. lia.
Qed.

(** ** Degenerate routes *)

Lemma getRouteDistances_single : forall {A : Type} `{XY A} (p : A),
  SolutionDetails.getRouteDistances [p] = Some [0].
Proof.
  intros A H p. unfold SolutionDetails.getRouteDistances. simpl.
  rewrite calculateDistance_self. reflexivity.
Qed.

Lemma svg_distancesOf_short : forall (r : list RoutePoint.t),
  (length r <= 1)%nat -> TSPVisualizationSVG.distancesOf r = Some [].
Proof.
  intros r Hr. unfold TSPVisualizationSVG.distancesOf.
  destruct (Nat.ltb_spec 1 (length r)); [lia | reflexivity].
Qed.

(** C4, as stated, fails in the graph: for a route of one point the SVG
    renderer's [routeDistances] is empty, it is not one segment of distance
    zero. *)
Lemma svg_single_point_route_has_no_segment :
  exists memo,
    TSPVisualizationSVG.useMemo (Some onePointSolution) = Some memo /\
    TSPVisualizationSVG.routeDistances memo = [] /\
    TSPVisualizationSVG.routeDistances memo <> [0].
Proof.
  eexists. split; [reflexivity|]. simpl. split; [reflexivity | discriminate].
Qed.

(** C4, amended: in the route table a route of one point gives one segment of
    distance zero and a running total of zero, and an empty route gives an
    empty array, both without error; in the graph a route of at most one
    point gives no segment at all. *)
Theorem degenerate_routes :
  forall (solution : TSPSolution) (selectedRoutePoint : option nat)
         (p : RoutePoint.t),
    SolutionDetails.getRouteDistances [p] = Some [0] /\
    (exists row,
       SolutionDetails.routeRows solution selectedRoutePoint [p] = Some [row] /\
       SolutionDetails.row_distance row = 0 /\
       SolutionDetails.row_cumulativeDistance row = 0) /\
    SolutionDetails.getRouteDistances (@nil RoutePoint.t) = Some [] /\
    SolutionDetails.routeRows solution selectedRoutePoint [] = Some [] /\
    TSPVisualizationSVG.distancesOf [p] = Some [] /\
    TSPVisualizationSVG.distancesOf [] = Some [].
Proof.
  intros solution sel p.
  split; [apply getRouteDistances_single|].
  split.
  { unfold SolutionDetails.routeRows. rewrite getRouteDistances_single.
    eexists. split; [reflexivity|]. simpl. split; [reflexivity | lra]. }
  repeat split; reflexivity.
Qed.

(** ** toFixed *)

Lemma toFixed_nonneg_eval : forall (x : R) (f : nat) (n : Z),
  x < 10 ^ 21 ->
  x * 10 ^ f + / 2 - 1 < IZR n <= x * 10 ^ f + / 2 ->
  toFixed_nonneg x f = fixed_digits n f.
Proof.
  intros x f n Hx Hn. unfold toFixed_nonneg.
  destruct (Rle_dec (10 ^ 21) x) as [Hbig|_]; [lra|].
  rewrite <- (Int_part_spec _ _ Hn). reflexivity.
Qed.

Lemma toFixed_eval : forall (x : R) (f : nat) (n : Z),
  0 <= x < 10 ^ 21 ->
  x * 10 ^ f + / 2 - 1 < IZR n <= x * 10 ^ f + / 2 ->
  toFixed x f = fixed_digits n f.
Proof.
  intros x f n Hx Hn. unfold toFixed.
  destruct (Rlt_dec x 0) as [Hneg|_]; [lra|].
  apply toFixed_nonneg_eval; [lra | exact Hn].
Qed.

(** From [10^21] on: the number printed in exponent notation. *)
Lemma toFixed_exponent : forall (x : R) (f : nat) (n : Z),
  10 ^ 21 <= x ->
  x - 1 < IZR n <= x ->
  toFixed x f = exponentNotation (IZR n).
Proof.
  intros x f n Hx Hn. unfold toFixed.
  destruct (Rlt_dec x 0) as [Hneg|_]; [lra|].
  unfold toFixed_nonneg.
  destruct (Rle_dec (10 ^ 21) x) as [_|Hsmall]; [|lra].
  unfold exponentNotation.
  rewrite <- (Int_part_spec _ _ Hn).
  rewrite <- (Int_part_spec (IZR n) n) by lra. reflexivity.
Qed.

Example toFixed_5_2 : toFixed 5 2 = "5.00"%string.
Proof.
  rewrite (toFixed_eval 5 2 500); [reflexivity | lra | simpl; lra].
Qed.

Example toFixed_tiny_2 : toFixed (1 / 1000) 2 = "0.00"%string.
Proof.
  rewrite (toFixed_eval (1 / 1000) 2 0); [reflexivity | lra | simpl; lra].
Qed.

Example toFixed_half_cent : toFixed (5 / 1000) 2 = "0.01"%string.
Proof.
  rewrite (toFixed_eval (5 / 1000) 2 1); [reflexivity | lra | simpl; lra].
Qed.

Lemma length_append : forall (s1 s2 : string),
  String.length (append s1 s2) = (String.length s1 + String.length s2)%nat.
Proof.
  induction s1 as [|c s1 IH]; intros s2; simpl; [reflexivity | now rewrite IH].
Qed.

Lemma length_substring : forall (s : string) (n m : nat),
  (n + m <= String.length s)%nat -> String.length (substring n m s) = m.
Proof.
  induction s as [|c s IH]; intros n m Hlen; simpl in Hlen.
  - assert (n = 0%nat) by lia. assert (m = 0%nat) by lia. subst. reflexivity.
  - destruct n as [|n]; simpl.
    + destruct m as [|m]; simpl; [reflexivity|].
      rewrite (IH 0%nat m); [reflexivity | lia].
    + apply IH. lia.
Qed.

Lemma length_zeros : forall k, String.length (zeros k) = k.
Proof. induction k as [|k IH]; simpl; [reflexivity | now rewrite IH]. Qed.

Lemma length_pad_left : forall (k : nat) (m : string),
  (k <= String.length (pad_left k m))%nat.
Proof.
  intros k m. unfold pad_left. rewrite length_append, length_zeros. lia.
Qed.

(** A number printed with two decimals is at least four characters long:
    it is never the three characters of ['N/A']. *)
Lemma fixed_digits_2_length : forall (n : Z),
  (4 <= String.length (fixed_digits n 2))%nat.
Proof.
  intros n. unfold fixed_digits.
  pose proof (length_pad_left (2 + 1) (digits_of_Z n)) as Hk.
  set (m := pad_left (2 + 1) (digits_of_Z n)) in *.
  rewrite !length_append, !length_substring by lia.
  simpl String.length. lia.
Qed.

(** Nor is a number printed in exponent notation: its second character is
    a point or the letter [e]. *)
Lemma exponentNotation_not_NA : forall (x : R),
  exponentNotation x <> "N/A"%string.
Proof.
  intros x E. unfold exponentNotation in E.
  destruct (stripTrailingZeros (digits_of_Z (Int_part x))) as [|c [|c' rest]];
    cbn [append] in E; discriminate E.
Qed.

Lemma toFixed_2_not_NA : forall (d : R), 0 <= d -> toFixed d 2 <> "N/A"%string.
Proof.
  intros d Hd E. unfold toFixed in E.
  destruct (Rlt_dec d 0) as [Hneg|_]; [lra|].
  unfold toFixed_nonneg in E.
  destruct (Rle_dec (10 ^ 21) d) as [_|_].
  - exact (exponentNotation_not_NA d E).
  - pose proof (fixed_digits_2_length (Int_part (d * 10 ^ 2 + / 2))) as Hlen.
    rewrite E in Hlen. simpl in Hlen. lia.
Qed.

(** ** Decimal digits

    What [toFixed] prints below [10^21], digit by digit. *)

Lemma string_of_uint_revapp : forall (a b : Decimal.uint),
  NilEmpty.string_of_uint (Decimal.revapp a b) =
    append (NilEmpty.string_of_uint (Decimal.rev a)) (NilEmpty.string_of_uint b).
Proof.
  assert (Happ : forall s c t,
            append (append s (String c EmptyString)) t = append s (String c t)).
  { induction s as [|c' s IH]; intros c t; simpl; [reflexivity | now rewrite IH]. }
  unfold Decimal.rev.
  induction a as [|a IH|a IH|a IH|a IH|a IH|a IH|a IH|a IH|a IH|a IH];
    intros b; simpl Decimal.revapp; [reflexivity|..];
    rewrite IH; symmetry; rewrite IH; simpl NilEmpty.string_of_uint;
    apply Happ.
Qed.

Lemma NilZero_nonnil : forall d : Decimal.uint,
  d <> Decimal.Nil -> NilZero.string_of_uint d = NilEmpty.string_of_uint d.
Proof. intros [| | | | | | | | | |]; intros H; try reflexivity. contradiction. Qed.

(** The digits of [10 * q + k] are the digits of [q] followed by the digit
    [k]. *)
Lemma N_digits_snoc : forall q k : N,
  (0 < q)%N -> (k < 10)%N ->
  NilZero.string_of_uint (N.to_uint (10 * q + k)) =
    append (NilZero.string_of_uint (N.to_uint q))
           (NilZero.string_of_uint (N.to_uint k)).
Proof.
  intros q k Hq Hk.
  destruct q as [|p]; [lia|].
  pose proof (DecimalPos.Unsigned.to_ldec_tenfold p) as H10.
  pose proof (DecimalPos.Unsigned.to_uint_nonnil p) as Hp.
  assert (Hrev : forall n, (0 < n)%N ->
                   N.to_uint n = Decimal.rev (DecimalPos.Unsigned.to_lu n)).
  { intros [|p'] H; [lia | reflexivity]. }
  rewrite (Hrev (10 * N.pos p + k)%N) by lia.
  change (N.to_uint (N.pos p)) with (Decimal.rev (DecimalPos.Unsigned.to_lu (N.pos p))) in *.
  set (l := DecimalPos.Unsigned.to_lu (N.pos p)) in *.
  assert (Hk' : k = N.of_nat (N.to_nat k)) by lia.
  assert (Hlt : (N.to_nat k < 10)%nat) by lia.
  rewrite Hk'. clear Hk' Hk. revert Hlt. generalize (N.to_nat k). clear k.
  intros k Hk.
  assert (Hsucc : (10 * N.pos p + N.of_nat k)%N =
                  Nat.iter k N.succ (10 * N.pos p)%N).
  { clear. induction k as [|k IH]; [simpl; lia|].
    replace (N.of_nat (S k)) with (N.succ (N.of_nat k)) by lia.
    rewrite N.add_succ_r, IH. reflexivity. }
  rewrite Hsucc. clear Hsucc.
  do 10 (destruct k as [|k]; [
    unfold Nat.iter; cbn [nat_rect]; rewrite ?DecimalPos.Unsigned.to_lu_succ, H10;
    cbn [Decimal.Little.succ];
    unfold Decimal.rev at 1; cbn [Decimal.revapp];
    rewrite (NilZero_nonnil (Decimal.revapp l _))
      by (intros E; apply DecimalFacts.revapp_nil_inv in E; destruct E; discriminate);
    rewrite string_of_uint_revapp, (NilZero_nonnil (Decimal.rev l) Hp);
    reflexivity |]).
  lia.
Qed.

Lemma digits_of_Z_snoc : forall n : Z, (10 <= n)%Z ->
  digits_of_Z n = append (digits_of_Z (n / 10)) (digits_of_Z (n mod 10)).
Proof.
  intros n Hn. unfold digits_of_Z.
  pose proof (Z.div_mod n 10 ltac:(lia)) as Hdiv.
  pose proof (Z.mod_pos_bound n 10 ltac:(lia)) as Hmod.
  assert (Hq : (1 <= n / 10)%Z) by (apply Z.div_le_lower_bound; lia).
  rewrite <- N_digits_snoc by lia. do 2 f_equal. lia.
Qed.

Lemma digits_of_Z_digit : forall k : Z, (0 <= k < 10)%Z ->
  String.length (digits_of_Z k) = 1%nat.
Proof.
  intros k Hk.
  assert (H : exists j, (j < 10)%nat /\ k = Z.of_nat j)
    by (exists (Z.to_nat k); lia).
  destruct H as (j & Hj & ->).
  do 10 (destruct j as [|j]; [reflexivity|]). lia.
Qed.

Lemma digits_of_Z_nonempty : forall n : Z,
  (1 <= String.length (digits_of_Z n))%nat.
Proof.
  intros n. unfold digits_of_Z.
  destruct (N.to_uint (Z.to_N n)); simpl; lia.
Qed.

Lemma append_assoc : forall s1 s2 s3 : string,
  append (append s1 s2) s3 = append s1 (append s2 s3).
Proof.
  induction s1 as [|c s1 IH]; intros s2 s3; simpl; [reflexivity | now rewrite IH].
Qed.

Lemma substring_all : forall s : string, substring 0 (String.length s) s = s.
Proof. induction s as [|c s IH]; simpl; [reflexivity | now rewrite IH]. Qed.

Lemma substring_append_l : forall a b : string,
  substring 0 (String.length a) (append a b) = a.
Proof.
  induction a as [|c a IH]; intros b; simpl.
  - destruct b; reflexivity.
  - now rewrite IH.
Qed.

Lemma substring_append_r : forall a b : string,
  substring (String.length a) (String.length b) (append a b) = b.
Proof.
  induction a as [|c a IH]; intros b; simpl; [apply substring_all | apply IH].
Qed.

(** A number printed with one decimal: the digits of the whole part, the
    point, the digit of the tenths. *)
Lemma fixed_digits_1 : forall n : Z, (0 <= n)%Z ->
  fixed_digits n 1 =
    append (digits_of_Z (n / 10)) (append "." (digits_of_Z (n mod 10))).
Proof.
  intros n Hn.
  destruct (Z_lt_le_dec n 10) as [Hsmall|Hbig].
  - assert (H : exists k, (k < 10)%nat /\ n = Z.of_nat k)
      by (exists (Z.to_nat n); lia).
    destruct H as (k & Hk & ->).
    do 10 (destruct k as [|k]; [reflexivity|]). lia.
  - unfold fixed_digits; cbv beta iota zeta. rewrite (digits_of_Z_snoc n Hbig).
    pose proof (digits_of_Z_nonempty (n / 10)) as HX.
    pose proof (digits_of_Z_digit (n mod 10)
                  (Z.mod_pos_bound n 10 ltac:(lia))) as HC.
    set (X := digits_of_Z (n / 10)) in *.
    set (C := digits_of_Z (n mod 10)) in *.
    assert (Hlen : String.length (append X C) = (String.length X + 1)%nat)
      by (rewrite length_append; lia).
    unfold pad_left. rewrite Hlen.
    replace (1 + 1 - (String.length X + 1))%nat with 0%nat by lia.
    cbn [zeros append]. rewrite Hlen.
    replace (String.length X + 1 - 1)%nat with (String.length X) by lia.
    rewrite substring_append_l. rewrite <- HC at 1.
    rewrite substring_append_r. reflexivity.
Qed.

(** A number printed with two decimals: the digits of the whole part, the
    point, the digit of the tenths and the digit of the hundredths. *)
Lemma fixed_digits_2 : forall n : Z, (0 <= n)%Z ->
  fixed_digits n 2 =
    append (digits_of_Z (n / 100))
      (append "." (append (digits_of_Z ((n / 10) mod 10))
                          (digits_of_Z (n mod 10)))).
Proof.
  intros n Hn.
  destruct (Z_lt_le_dec n 100) as [Hsmall|Hbig].
  - assert (H : exists k, (k < 100)%nat /\ n = Z.of_nat k)
      by (exists (Z.to_nat n); lia).
    destruct H as (k & Hk & ->).
    do 100 (destruct k as [|k]; [reflexivity|]). lia.
  - unfold fixed_digits; cbv beta iota zeta.
    assert (Hq : (10 <= n / 10)%Z) by (apply Z.div_le_lower_bound; lia).
    rewrite (digits_of_Z_snoc n) by lia.
    rewrite (digits_of_Z_snoc (n / 10) Hq).
    rewrite Z.div_div by lia. change (10 * 10)%Z with 100%Z.
    pose proof (digits_of_Z_nonempty (n / 100)) as HX.
    pose proof (digits_of_Z_digit ((n / 10) mod 10)
                  (Z.mod_pos_bound (n / 10) 10 ltac:(lia))) as HC1.
    pose proof (digits_of_Z_digit (n mod 10)
                  (Z.mod_pos_bound n 10 ltac:(lia))) as HC0.
    set (X := digits_of_Z (n / 100)) in *.
    set (C1 := digits_of_Z ((n / 10) mod 10)) in *.
    set (C0 := digits_of_Z (n mod 10)) in *.
    rewrite append_assoc.
    assert (HC : String.length (append C1 C0) = 2%nat)
      by (rewrite length_append; lia).
    set (C := append C1 C0) in *.
    assert (Hlen : String.length (append X C) = (String.length X + 2)%nat)
      by (rewrite length_append; lia).
    unfold pad_left. rewrite Hlen.
    replace (2 + 1 - (String.length X + 2))%nat with 0%nat by lia.
    cbn [zeros append]. rewrite Hlen.
    replace (String.length X + 2 - 2)%nat with (String.length X) by lia.
    rewrite substring_append_l. rewrite <- HC at 1.
    rewrite substring_append_r. reflexivity.
Qed.

(** ** Numbers printed with one or two decimals *)

Lemma Int_part_nonneg : forall x : R, 0 <= x -> (0 <= Int_part (x + / 2))%Z.
Proof.
  intros x Hx. destruct (base_Int_part (x + / 2)) as [_ Hlow].
  assert (H : IZR (-1) < IZR (Int_part (x + / 2))) by lra.
  apply lt_IZR in H. lia.
Qed.

(** Below [10^21], [toFixed(1)] prints the number of tenths nearest to [d],
    the larger one on a tie, as its whole part, a point and one digit. *)
Lemma toFixed_1_decimal : forall d : R, 0 <= d < 10 ^ 21 ->
  exists n : Z,
    (0 <= n)%Z /\ IZR n <= 10 * d + / 2 < IZR n + 1 /\
    toFixed d 1 =
      append (digits_of_Z (n / 10)) (append "." (digits_of_Z (n mod 10))).
Proof.
  intros d Hd. exists (Int_part (d * 10 ^ 1 + / 2)).
  assert (H0 : 0 <= d * 10 ^ 1) by lra.
  pose proof (Int_part_nonneg _ H0) as Hn.
  destruct (base_Int_part (d * 10 ^ 1 + / 2)) as [Hup Hlow].
  set (n := Int_part (d * 10 ^ 1 + / 2)) in *.
  split; [exact Hn|]. split; [lra|].
  rewrite (toFixed_eval d 1 n); [|lra|lra].
  apply fixed_digits_1, Hn.
Qed.

(** Below [10^21], [toFixed(2)] prints the number of hundredths nearest to
    [d], the larger one on a tie, as its whole part, a point and two
    digits. *)
Lemma toFixed_2_decimal : forall d : R, 0 <= d < 10 ^ 21 ->
  exists n : Z,
    (0 <= n)%Z /\ IZR n <= 100 * d + / 2 < IZR n + 1 /\
    toFixed d 2 =
      append (digits_of_Z (n / 100))
        (append "." (append (digits_of_Z ((n / 10) mod 10))
                            (digits_of_Z (n mod 10)))).
Proof.
  intros d Hd. exists (Int_part (d * 10 ^ 2 + / 2)).
  assert (H0 : 0 <= d * 10 ^ 2) by lra.
  pose proof (Int_part_nonneg _ H0) as Hn.
  destruct (base_Int_part (d * 10 ^ 2 + / 2)) as [Hup Hlow].
  set (n := Int_part (d * 10 ^ 2 + / 2)) in *.
  split; [exact Hn|]. split; [lra|].
  rewrite (toFixed_eval d 2 n); [|lra|lra].
  apply fixed_digits_2, Hn.
Qed.

Lemma distanceLabel_decimal : forall d : R, 0 <= d < 10 ^ 21 ->
  exists n : Z,
    (0 <= n)%Z /\ IZR n <= 10 * d + / 2 < IZR n + 1 /\
    TSPVisualizationSVG.distanceLabel (Some d) =
      append (digits_of_Z (n / 10)) (append "." (digits_of_Z (n mod 10))).
Proof.
  intros d Hd. unfold TSPVisualizationSVG.distanceLabel.
  destruct (Req_dec_T d 0) as [->|Hne].
  - exists 0%Z. split; [lia|]. split; [lra | reflexivity].
  - apply toFixed_1_decimal, Hd.
Qed.

(** ** The cells of the route table *)

Lemma calculateDistance_same_coordinates :
  forall {A B : Type} `{XY A} `{XY B} (p : A) (q : B),
  x q = x p -> y q = y p -> SolutionDetails.calculateDistance p q = 0.
Proof.
  intros A B HA HB p q Hx Hy. unfold SolutionDetails.calculateDistance; cbv zeta.
  rewrite Hx, Hy.
  replace ((x p - x p) * (x p - x p) + (y p - y p) * (y p - y p)) with 0 by ring.
  apply sqrt_0.
Qed.

(** Row [i] of the table shows the distance from route point [i] to the
    next one on the closed tour. *)
Lemma routeRows_row : forall (solution : TSPSolution) (sel : option nat)
    (r : list RoutePoint.t),
  exists rows,
    SolutionDetails.routeRows solution sel r = Some rows /\
    length rows = length r /\
    forall i p q,
      nth_error r i = Some p ->
      nth_error r ((i + 1) mod length r) = Some q ->
      exists row,
        nth_error rows i = Some row /\
        SolutionDetails.row_distance row = SolutionDetails.calculateDistance p q /\
        SolutionDetails.row_segmentDistance row =
          SolutionDetails.formatDistance (Some (SolutionDetails.row_distance row)).
Proof.
  intros solution sel r.
  destruct (getRouteDistances_for_inv r (length r) 0 [])
    as (distances & Hres & Hlen & _ & Hnew); [lia|].
  simpl in Hlen, Hnew.
  destruct (routeRows_from_inv (originalPoints solution) (length r) sel
              distances r 0%nat 0)
    as (rows & Hrows & Hl & Hrow); [simpl; lia | reflexivity |].
  exists rows. split.
  { unfold SolutionDetails.routeRows, SolutionDetails.getRouteDistances.
    rewrite Hres. exact Hrows. }
  split; [exact Hl|].
  intros i p q Hp Hq.
  assert (Hi : (i < length r)%nat) by (apply nth_error_Some; congruence).
  destruct (nth_error rows i) as [row|] eqn:Ei;
    [| apply nth_error_None in Ei; lia].
  exists row. split; [reflexivity|].
  destruct (Hrow i row Ei) as (Hd & _ & Hs & _).
  destruct (Hnew i Hi) as (c & n & Hc & Hn & Hdi).
  simpl in Hd. rewrite Hp in Hc. rewrite Hq in Hn.
  injection Hc as <-. injection Hn as <-.
  rewrite Hdi in Hd. injection Hd as Hd.
  split; [symmetry; exact Hd | exact Hs].
Qed.




(** ** Finding the original index of a route point *)

Lemma Rltb_true : forall a b, Rltb a b = true <-> a < b.
Proof.
  intros a b. unfold Rltb. destruct (Rlt_dec a b); split; auto; discriminate.
Qed.

(** The tolerance is absolute, strict, and tested on each axis by itself. *)
Lemma matches_tolerance : forall {A B : Type} `{XY A} `{XY B} (point : A) (op : B),
  SolutionDetails.matches point op = true <->
  Rabs (x op - x point) < 1 / 1000 /\ Rabs (y op - y point) < 1 / 1000.
Proof.
  intros A B HA HB point op. unfold SolutionDetails.matches.
  rewrite andb_true_iff, !Rltb_true. reflexivity.
Qed.

Lemma findIndex_from_first : forall {A : Type} (pred : A -> bool) (l : list A) (i : Z),
  (findIndex_from pred i l = (-1)%Z /\ Forall (fun a => pred a = false) l) \/
  (exists k a,
     findIndex_from pred i l = (i + Z.of_nat k)%Z /\
     nth_error l k = Some a /\ pred a = true /\
     Forall (fun b => pred b = false) (firstn k l)).
Proof.
  intros A pred l. induction l as [|a l IH]; intros i.
  - left. split; [reflexivity | constructor].
  - simpl. destruct (pred a) eqn:Ea.
    + right. exists 0%nat, a. simpl. repeat split; auto. lia.
    + destruct (IH (i + 1)%Z) as [(E & Hall) | (k & b & E & Hk & Hb & Hbefore)].
      * left. split; [exact E | constructor; assumption].
      * right. exists (S k), b. simpl. repeat split; auto.
        rewrite E. lia.
Qed.

(** [findIndex] answers with the first index that satisfies the predicate,
    and with [-1] exactly when no element does. *)
Lemma findIndex_first : forall {A : Type} (pred : A -> bool) (l : list A),
  (findIndex pred l = (-1)%Z /\ Forall (fun a => pred a = false) l) \/
  (exists k a,
     findIndex pred l = Z.of_nat k /\
     nth_error l k = Some a /\ pred a = true /\
     Forall (fun b => pred b = false) (firstn k l)).
Proof.
  intros A pred l. unfold findIndex.
  destruct (findIndex_from_first pred l 0) as [H | (k & a & E & H)].
  - left. exact H.
  - right. exists k, a. split; [rewrite E; lia | exact H].
Qed.

(** With nothing within tolerance the "Original #" cell is the number [0]. *)
Lemma originalIndex_no_match : forall {A : Type} `{XY A}
    (ops : list Point.t) (point : A),
  Forall (fun op => SolutionDetails.matches point op = false) ops ->
  SolutionDetails.originalIndex (Some ops) point = SolutionDetails.Num 0.
Proof.
  intros A H ops point Hall. unfold SolutionDetails.originalIndex.
  destruct (findIndex_first (SolutionDetails.matches point) ops)
    as [(E & _) | (k & a & _ & Hk & Ha & _)].
  - rewrite E. reflexivity.
  - rewrite Forall_forall in Hall. apply nth_error_In in Hk.
    rewrite (Hall a Hk) in Ha. discriminate.
Qed.

(** With a point within tolerance the cell is the one-based position of the
    first such point. *)
Lemma originalIndex_first_match : forall {A : Type} `{XY A}
    (ops : list Point.t) (point : A) (k : nat) (op : Point.t),
  nth_error ops k = Some op ->
  SolutionDetails.matches point op = true ->
  Forall (fun b => SolutionDetails.matches point b = false) (firstn k ops) ->
  SolutionDetails.originalIndex (Some ops) point =
    SolutionDetails.Num (Z.of_nat k + 1).
Proof.
  intros A H ops point k op Hk Hop Hbefore. unfold SolutionDetails.originalIndex.
  destruct (findIndex_first (SolutionDetails.matches point) ops)
    as [(_ & Hall) | (k' & a & E & Hk' & Ha & Hbefore')].
  - rewrite Forall_forall in Hall. apply nth_error_In in Hk.
    rewrite (Hall op Hk) in Hop. discriminate.
  - rewrite E. do 2 f_equal. f_equal.
    destruct (Nat.lt_trichotomy k k') as [Hlt | [Heq | Hgt]]; [| congruence |].
    + rewrite Forall_forall in Hbefore'.
      assert (Hin : In op (firstn k' ops)).
      { apply (nth_error_In _ k). rewrite nth_error_firstn.
        destruct (Nat.ltb_spec k k'); [exact Hk | lia]. }
      rewrite (Hbefore' op Hin) in Hop. discriminate.
    + rewrite Forall_forall in Hbefore.
      assert (Hin : In a (firstn k ops)).
      { apply (nth_error_In _ k'). rewrite nth_error_firstn.
        destruct (Nat.ltb_spec k' k); [exact Hk' | lia]. }
      rewrite (Hbefore a Hin) in Ha. discriminate.
Qed.

Ltac Rabs_case :=
  unfold Rabs; repeat (destruct (Rcase_abs _)); try lra.

(** C5: the scan is for the first point within the tolerance, and it does not
    throw, but a route point that no original point matches is answered with
    the number [0] ([findIndex]'s [-1], plus one), not with the ['N/A'] that
    the same expression keeps for "no index". *)
Theorem originalIndex_unmatched_is_zero :
  SolutionDetails.originalIndex (Some [Point.mk 0 0 None])
    (RoutePoint.mk 5 5 None 0) = SolutionDetails.Num 0 /\
  SolutionDetails.originalIndex (Some [Point.mk 0 0 None])
    (RoutePoint.mk 5 5 None 0) <> SolutionDetails.NA /\
  SolutionDetails.originalIndex None (RoutePoint.mk 5 5 None 0) =
    SolutionDetails.NA.
Proof.
  assert (E : SolutionDetails.originalIndex (Some [Point.mk 0 0 None])
                (RoutePoint.mk 5 5 None 0) = SolutionDetails.Num 0).
  { apply originalIndex_no_match. repeat constructor.
    unfold SolutionDetails.matches, Rltb; simpl.
    destruct (Rlt_dec (Rabs (0 - 5)) (1 / 1000)) as [Hlt|_]; [|reflexivity].
    revert Hlt. Rabs_case. }
  split; [exact E|]. split; [rewrite E; discriminate | reflexivity].
Qed.

(** ** The selection kept by App *)

(** C6, as stated, fails: after a click on the first row of the original
    points and a click on the second row of the route, both selections are
    set. *)
Lemma both_selections_active :
  exists st,
    App.reachable st /\
    App.selectedOriginalPoint st = Some 0%nat /\
    App.selectedRoutePoint st = Some 1%nat.
Proof.
  exists {| App.currentSolution := Some twoPointSolution;
            App.selectedOriginalPoint := Some 0%nat;
            App.selectedRoutePoint := Some 1%nat |}.
  split; [| split; reflexivity].
  exists [App.Load (Some twoPointSolution); App.ClickOriginalRow 0;
          App.ClickRouteRow 1].
  reflexivity.
Qed.

(** C6, amended: the two selections are independent.  A click on a row of
    one table sets that table's selection to the row, or back to none when
    the row was the selected one, and leaves the other table's selection and
    the solution as they were. *)
Theorem selection_click_toggles_own_view : forall (st : App.State) (index : nat),
  ((index < App.originalRows st)%nat ->
   exists st',
     App.handle st (App.ClickOriginalRow index) = Some st' /\
     App.selectedOriginalPoint st' =
       (if SolutionDetails.option_nat_eqb (App.selectedOriginalPoint st) index
        then None else Some index) /\
     App.selectedRoutePoint st' = App.selectedRoutePoint st /\
     App.currentSolution st' = App.currentSolution st) /\
  ((index < App.routeRowsShown st)%nat ->
   exists st',
     App.handle st (App.ClickRouteRow index) = Some st' /\
     App.selectedRoutePoint st' =
       (if SolutionDetails.option_nat_eqb (App.selectedRoutePoint st) index
        then None else Some index) /\
     App.selectedOriginalPoint st' = App.selectedOriginalPoint st /\
     App.currentSolution st' = App.currentSolution st).
Proof.
  intros st index. split; intros Hi; simpl.
  - destruct (Nat.ltb_spec index (App.originalRows st)); [|lia].
    eexists. split; [reflexivity|]. simpl. auto.
  - destruct (Nat.ltb_spec index (App.routeRowsShown st)); [|lia].
    eexists. split; [reflexivity|]. simpl. auto.
Qed.

Lemma selection_click_toggles_own_view_witness :
  let st := {| App.currentSolution := Some twoPointSolution;
               App.selectedOriginalPoint := Some 0%nat;
               App.selectedRoutePoint := Some 1%nat |} in
  (0 < App.originalRows st)%nat /\
  exists st',
    App.handle st (App.ClickOriginalRow 0) = Some st' /\
    App.selectedOriginalPoint st' = None /\
    App.selectedRoutePoint st' = Some 1%nat.
Proof.
  intros st.
  assert (H0 : (0 < App.originalRows st)%nat)
    by (unfold st, App.originalRows; simpl; lia).
  split; [exact H0|].
  destruct (proj1 (selection_click_toggles_own_view st 0) H0)
    as (st' & Hst' & Ho & Hr & _).
  exists st'. split; [exact Hst'|]. split; [exact Ho | exact Hr].
Defined.

(** ** Bounds of the coordinates *)

Lemma fold_left_Rmin_le_init : forall (l : list R) (a : R),
  fold_left Rmin l a <= a.
Proof.
  induction l as [|b l IH]; intros a; simpl.
  - lra.
  - pose proof (IH (Rmin a b)). pose proof (Rmin_l a b). lra.
Qed.

Lemma fold_left_Rmin_le_elem : forall (l : list R) (a c : R),
  In c l -> fold_left Rmin l a <= c.
Proof.
  induction l as [|b l IH]; intros a c Hc; simpl in *.
  - contradiction.
  - destruct Hc as [-> | Hc].
    + pose proof (fold_left_Rmin_le_init l (Rmin a c)).
      pose proof (Rmin_r a c). lra.
    + apply IH, Hc.
Qed.

Lemma fold_left_Rmax_ge_init : forall (l : list R) (a : R),
  a <= fold_left Rmax l a.
Proof.
  induction l as [|b l IH]; intros a; simpl.
  - lra.
  - pose proof (IH (Rmax a b)). pose proof (Rmax_l a b). lra.
Qed.

Lemma fold_left_Rmax_ge_elem : forall (l : list R) (a c : R),
  In c l -> c <= fold_left Rmax l a.
Proof.
  induction l as [|b l IH]; intros a c Hc; simpl in *.
  - contradiction.
  - destruct Hc as [-> | Hc].
    + pose proof (fold_left_Rmax_ge_init l (Rmax a c)).
      pose proof (Rmax_r a c). lra.
    + apply IH, Hc.
Qed.

Lemma Math_min_le : forall (l : list R) (c : R), In c l -> Math_min l <= c.
Proof.
  intros [|a l] c Hc; simpl in *; [contradiction|].
  destruct Hc as [-> | Hc];
    [apply fold_left_Rmin_le_init | apply fold_left_Rmin_le_elem, Hc].
Qed.

Lemma Math_max_ge : forall (l : list R) (c : R), In c l -> c <= Math_max l.
Proof.
  intros [|a l] c Hc; simpl in *; [contradiction|].
  destruct Hc as [-> | Hc];
    [apply fold_left_Rmax_ge_init | apply fold_left_Rmax_ge_elem, Hc].
Qed.

Lemma Rdiv_nonneg : forall a c : R, 0 <= a -> 0 < c -> 0 <= a / c.
Proof.
  intros a c Ha Hc. unfold Rdiv. apply Rmult_le_pos; [exact Ha|].
  left. apply Rinv_0_lt_compat, Hc.
Qed.

(** [d || 1] for a difference [d] that is not negative. *)
Lemma or_else_1_range : forall (d : R), 0 <= d ->
  0 < or_else d 1 /\ d <= or_else d 1.
Proof.
  intros d Hd. unfold or_else. destruct (Req_dec_T d 0); lra.
Qed.

(** ** The projection stays inside the padded surface *)

Section Containment.

Variables width height padding : R.
Variable points : list Point.t.

Hypothesis padding_fits_width : 2 * padding <= width.
Hypothesis padding_fits_height : 2 * padding <= height.

(** A point whose coordinates lie in the bounding box of [points] is drawn
    inside the surface, at least [padding] away from its edges. *)
Lemma scalePoint_in_box : forall {A : Type} `{XY A} (p : A),
  let b := computeBounds width height padding points in
  minX b <= x p <= maxX b -> minY b <= y p <= maxY b ->
  padding <= scaled_x (scalePoint b p) <= width - padding /\
  padding <= scaled_y (scalePoint b p) <= height - padding.
Proof.
  intros A HA p b Hx Hy. subst b. unfold scalePoint.
  unfold computeBounds in *. cbn [minX maxX minY maxY scale offsetX offsetY
    svgWidth svgHeight scaled_x scaled_y] in *.
  set (mnX := Math_min (map Point.x points)) in *.
  set (mxX := Math_max (map Point.x points)) in *.
  set (mnY := Math_min (map Point.y points)) in *.
  set (mxY := Math_max (map Point.y points)) in *.
  destruct (or_else_1_range (mxX - mnX)) as (HrX & HdX); [lra|].
  destruct (or_else_1_range (mxY - mnY)) as (HrY & HdY); [lra|].
  set (rangeX := or_else (mxX - mnX) 1) in *.
  set (rangeY := or_else (mxY - mnY) 1) in *.
  set (s := Rmin ((width - 2 * padding) / rangeX)
                 ((height - 2 * padding) / rangeY)).
  assert (Hs0 : 0 <= s).
  { apply Rmin_glb; apply Rdiv_nonneg; lra. }
  assert (HsX : rangeX * s <= width - 2 * padding).
  { pose proof (Rmin_l ((width - 2 * padding) / rangeX)
                       ((height - 2 * padding) / rangeY)) as Hl.
    fold s in Hl.
    apply (Rmult_le_compat_l rangeX) in Hl; [|lra].
    replace (rangeX * ((width - 2 * padding) / rangeX))
      with (width - 2 * padding) in Hl by (field; lra).
    exact Hl. }
  assert (HsY : rangeY * s <= height - 2 * padding).
  { pose proof (Rmin_r ((width - 2 * padding) / rangeX)
                       ((height - 2 * padding) / rangeY)) as Hr.
    fold s in Hr.
    apply (Rmult_le_compat_l rangeY) in Hr; [|lra].
    replace (rangeY * ((height - 2 * padding) / rangeY))
      with (height - 2 * padding) in Hr by (field; lra).
    exact Hr. }
  assert (Hpx : 0 <= (x p - mnX) * s <= rangeX * s) by (split; nra).
  assert (Hpy : 0 <= (y p - mnY) * s <= rangeY * s) by (split; nra).
  replace (x p * s + ((width - rangeX * s) / 2 - mnX * s))
    with ((x p - mnX) * s + (width - rangeX * s) / 2) by field.
  replace (height - (y p * s + ((height - rangeY * s) / 2 - mnY * s)))
    with (height - ((y p - mnY) * s + (height - rangeY * s) / 2)) by field.
  lra.
Qed.

Lemma point_in_bounds : forall (p : Point.t), In p points ->
  let b := computeBounds width height padding points in
  minX b <= Point.x p <= maxX b /\ minY b <= Point.y p <= maxY b.
Proof.
  intros p Hp b. subst b. unfold computeBounds.
  cbn [minX maxX minY maxY].
  pose proof (in_map Point.x _ _ Hp) as HinX.
  pose proof (in_map Point.y _ _ Hp) as HinY.
  repeat split;
    first [apply Math_min_le; assumption | apply Math_max_ge; assumption].
Qed.

End Containment.

Lemma or_else_nonzero : forall a c : R, a <> 0 -> or_else a c = a.
Proof. intros a c Ha. unfold or_else. destruct (Req_dec_T a 0); [contradiction | reflexivity]. Qed.

Lemma or_else_zero : forall a c : R, a = 0 -> or_else a c = c.
Proof. intros a c Ha. unfold or_else. destruct (Req_dec_T a 0); [reflexivity | contradiction]. Qed.

(** Evaluation of [Rmin], [Rmax] and [||] on numerals, innermost first. *)
Ltac Rcases :=
  repeat first
    [ rewrite Rminus_0_r
    | match goal with
      | |- context [Rmin ?a ?c] =>
          first [rewrite (Rmin_left a c) by lra | rewrite (Rmin_right a c) by lra]
      | |- context [Rmax ?a ?c] =>
          first [rewrite (Rmax_left a c) by lra | rewrite (Rmax_right a c) by lra]
      | |- context [or_else ?a ?c] =>
          first [rewrite (or_else_nonzero a c) by lra
                | rewrite (or_else_zero a c) by lra]
      end ].

Lemma scalePoint_of_point_in_box :
  forall (width height padding : R) (points : list Point.t) (p : Point.t),
    2 * padding <= width -> 2 * padding <= height -> In p points ->
    let s := scalePoint (computeBounds width height padding points) p in
    padding <= x s <= width - padding /\ padding <= y s <= height - padding.
Proof.
  intros width height padding points p Hw Hh Hin s.
  destruct (point_in_bounds width height padding points p Hin) as (Hx & Hy).
  exact (scalePoint_in_box width height padding points Hw Hh p Hx Hy).
Qed.

(** C1, as stated, fails on a small canvas: in a container 100 pixels wide
    the canvas is 68 by 51, less than twice the padding of 40, and the point
    (0, 0) of the two points (0, 0) and (100, 1) is drawn at x = 1484. *)
Lemma projection_leaves_small_canvas :
  TSPVisualization.handleResize 100 = TSPVisualization.mkDimensions 68 51 /\
  0 < 68 /\ 0 < 51 /\
  In (Point.mk 0 0 None) [Point.mk 0 0 None; Point.mk 100 1 None] /\
  scaled_x (scalePoint
              (computeBounds 68 51 40 [Point.mk 0 0 None; Point.mk 100 1 None])
              (Point.mk 0 0 None)) = 1484 /\
  ~ (0 <= scaled_x (scalePoint
              (computeBounds 68 51 40 [Point.mk 0 0 None; Point.mk 100 1 None])
              (Point.mk 0 0 None)) <= 68).
Proof.
  assert (E : scaled_x (scalePoint
              (computeBounds 68 51 40 [Point.mk 0 0 None; Point.mk 100 1 None])
              (Point.mk 0 0 None)) = 1484).
  { unfold scalePoint, computeBounds, Math_min, Math_max. simpl.
    Rcases. lra. }
  split.
  { unfold TSPVisualization.handleResize. cbv zeta. Rcases. f_equal; lra. }
  split; [lra|]. split; [lra|]. split; [left; reflexivity|].
  split; [exact E | rewrite E; lra].
Qed.

(** C1, amended: when the padding is not negative and fits twice into the
    width and into the height of the surface, every point of a non-empty
    sequence of points is projected inside the padded surface, hence inside
    [0, width] x [0, height]. *)
Theorem projection_contained :
  forall (width height padding : R) (points : list Point.t) (p : Point.t),
    0 <= padding -> 2 * padding <= width -> 2 * padding <= height ->
    In p points ->
    let s := scalePoint (computeBounds width height padding points) p in
    (padding <= x s <= width - padding /\
     padding <= y s <= height - padding) /\
    (0 <= x s <= width /\ 0 <= y s <= height).
Proof.
  intros width height padding points p Hp Hw Hh Hin s.
  pose proof (scalePoint_of_point_in_box width height padding points p
                Hw Hh Hin) as H.
  fold s in H. split; [exact H | lra].
Qed.

Lemma projection_contained_witness :
  0 <= 60 /\ 2 * 60 <= 800 /\ 2 * 60 <= 600 /\
  In (Point.mk 3 4 None) [Point.mk 0 0 None; Point.mk 3 4 None] /\
  0 <= x (scalePoint
            (computeBounds 800 600 60 [Point.mk 0 0 None; Point.mk 3 4 None])
            (Point.mk 3 4 None)) <= 800.
Proof.
  assert (H1 : 0 <= 60) by lra.
  assert (H2 : 2 * 60 <= 800) by lra.
  assert (H3 : 2 * 60 <= 600) by lra.
  assert (H4 : In (Point.mk 3 4 None) [Point.mk 0 0 None; Point.mk 3 4 None])
    by (right; left; reflexivity).
  repeat (split; [assumption|]).
  exact (proj1 (proj2 (projection_contained 800 600 60 _ _ H1 H2 H3 H4))).
Defined.

(** Every marker of the graph lies on its 800 by 600 surface. *)
Lemma svg_scaledPoints_contained : forall (solution : TSPSolution)
    (memo : TSPVisualizationSVG.Memo),
  TSPVisualizationSVG.useMemo (Some solution) = Some memo ->
  Forall (fun s => 0 <= x s <= 800 /\ 0 <= y s <= 600)
    (TSPVisualizationSVG.scaledPoints memo).
Proof.
  intros solution memo. unfold TSPVisualizationSVG.useMemo,
    TSPVisualizationSVG.useMemo_at.
  destruct (Nat.eqb _ 0).
  - intros E. injection E as <-. constructor.
  - intros E. apply bind_Some in E. destruct E as (distances & _ & E).
    injection E as <-. simpl. apply Forall_forall. intros s Hs.
    apply in_map_iff in Hs. destruct Hs as (p & <- & Hp).
    destruct (scalePoint_of_point_in_box 800 600 60 _ p
                ltac:(lra) ltac:(lra) Hp) as (Hx & Hy).
    simpl in Hx, Hy. simpl. lra.
Qed.

(** ** Array.map with an index *)

Lemma map_from_nth_error : forall {A B : Type} (f : A -> nat -> B) (l : list A)
    (i j : nat),
  nth_error (map_from f i l) j = option_map (fun a => f a (i + j)%nat) (nth_error l j).
Proof.
  intros A B f l. induction l as [|a l IH]; intros i j.
  - destruct j; reflexivity.
  - destruct j as [|j]; simpl.
    + now rewrite Nat.add_0_r.
    + rewrite IH. now replace (S i + j)%nat with (i + S j)%nat by lia.
Qed.

Lemma map_from_map : forall {A B C : Type} (h : A -> B) (f : B -> nat -> C)
    (l : list A) (i : nat),
  map_from f i (map h l) = map_from (fun a j => f (h a) j) i l.
Proof.
  intros A B C h f l. induction l as [|a l IH]; intros i; simpl; [reflexivity|].
  now rewrite IH.
Qed.

(** A map whose callbacks all return without throwing returns their results
    in order. *)
Lemma sequence_map_from : forall {A B : Type} (f : A -> nat -> option B)
    (g : A -> nat -> B) (l : list A) (i : nat),
  (forall j a, nth_error l j = Some a -> f a (i + j)%nat = Some (g a (i + j)%nat)) ->
  sequence (map_from f i l) = Some (map_from g i l).
Proof.
  intros A B f g l. induction l as [|a l IH]; intros i Hf; simpl; [reflexivity|].
  pose proof (Hf 0%nat a eq_refl) as H0. rewrite Nat.add_0_r in H0.
  rewrite H0. simpl. rewrite IH; [reflexivity|].
  intros j b Hj. specialize (Hf (S j) b Hj).
  now replace (S i + j)%nat with (i + S j)%nat by lia.
Qed.

(** ** The route of the graph *)

Section SvgRoute.

Variable scaledRoute : list Scaled.
Variable routeDistances : list R.

Lemma svg_segments : forall (l : list Scaled) (i : nat),
  (i + length l <= length scaledRoute)%nat ->
  exists groups,
    sequence (map_from
      (TSPVisualizationSVG.segmentShapes scaledRoute routeDistances) i l)
      = Some groups /\
    distanceLabels (concat groups) =
      map (fun k => TSPVisualizationSVG.distanceLabel
                      (nth_error routeDistances k)) (seq i (length l)) /\
    routeLines (concat groups) =
      concat (map_from (tourLineOf scaledRoute) i l) /\
    markers (concat groups) = [].
Proof.
  intros l. induction l as [|current l IH]; intros i Hi.
  - exists []. repeat split; reflexivity.
  - simpl in Hi.
    destruct (IH (S i)) as (groups & Hg & Hlabels & Hlines & Hmarkers); [lia|].
    destruct (nth_error scaledRoute ((i + 1) mod length scaledRoute))
      as [next|] eqn:En.
    2:{ apply nth_error_None in En.
        assert ((i + 1) mod length scaledRoute < length scaledRoute)%nat
          by (apply Nat.mod_upper_bound; lia).
        lia. }
    eexists. split.
    { cbn [map_from sequence]. unfold TSPVisualizationSVG.segmentShapes at 1.
      rewrite En. cbn [bind]. rewrite Hg. cbn [bind]. reflexivity. }
    cbn [concat]. unfold distanceLabels, routeLines, markers in *.
    rewrite !flat_map_app, Hlabels, Hlines, Hmarkers.
    cbn [map_from concat seq length map].
    replace (tourLineOf scaledRoute current i)
      with [(x current, y current, x next, y next)]
      by (unfold tourLineOf; rewrite En; reflexivity).
    repeat split; reflexivity.
Qed.

Lemma svg_routeShapes : forall (showRoute : bool),
  exists segments,
    TSPVisualizationSVG.routeShapes showRoute scaledRoute routeDistances
      = Some segments /\
    distanceLabels segments =
      (if showRoute && Nat.ltb 1 (length scaledRoute)
       then tourLabels routeDistances (length scaledRoute) else []) /\
    routeLines segments =
      (if showRoute && Nat.ltb 1 (length scaledRoute)
       then tourLines scaledRoute else []) /\
    markers segments = [].
Proof.
  intros showRoute. unfold TSPVisualizationSVG.routeShapes.
  destruct (showRoute && Nat.ltb 1 (length scaledRoute)).
  - destruct (svg_segments scaledRoute 0) as (groups & Hg & Hl & Hr & Hm);
      [simpl; lia|].
    exists (concat groups). unfold Array_map. rewrite Hg. cbn [bind].
    repeat split; assumption.
  - exists []. repeat split; reflexivity.
Qed.

End SvgRoute.

(** ** The distances of the graph are those of the table *)

Lemma svg_distancesOf_map : forall (r : list RoutePoint.t),
  TSPVisualizationSVG.distancesOf r =
    Some (if Nat.ltb 1 (length r)
          then map_from (fun current i =>
                 TSPVisualizationSVG.calculateDistance current
                   (nth ((i + 1) mod length r) r current)) 0 r
          else []).
Proof.
  intros r. unfold TSPVisualizationSVG.distancesOf.
  destruct (Nat.ltb 1 (length r)); [|reflexivity].
  unfold Array_map. apply sequence_map_from.
  intros j a Hj. simpl.
  assert (Hlt : (j < length r)%nat) by (apply nth_error_Some; congruence).
  destruct (nth_error r ((j + 1) mod length r)) as [next|] eqn:En.
  - simpl. rewrite (nth_error_nth _ _ a En). reflexivity.
  - apply nth_error_None in En.
    pose proof (Nat.mod_upper_bound (j + 1) (length r)). lia.
Qed.

(** For a route of at least two points the graph computes the same array of
    distances as the table, from the same unprojected coordinates. *)
Lemma svg_distancesOf_table : forall (r : list RoutePoint.t),
  (1 < length r)%nat ->
  TSPVisualizationSVG.distancesOf r = SolutionDetails.getRouteDistances r.
Proof.
  intros r Hr. rewrite svg_distancesOf_map.
  destruct (Nat.ltb_spec 1 (length r)); [|lia].
  destruct (getRouteDistances_for_inv r (length r) 0 [])
    as (distances & Hres & Hlen & _ & Hnew); [lia|].
  simpl in Hlen, Hnew.
  unfold SolutionDetails.getRouteDistances. rewrite Hres. f_equal.
  apply nth_error_ext. intros i. rewrite map_from_nth_error. simpl.
  destruct (nth_error r i) as [c|] eqn:Ec; simpl.
  - assert (Hi : (i < length r)%nat) by (apply nth_error_Some; congruence).
    destruct (Hnew i Hi) as (c' & n & Hc & Hn & Hd).
    rewrite Ec in Hc. injection Hc as <-.
    rewrite Hd, (nth_error_nth _ _ c Hn). reflexivity.
  - symmetry. apply nth_error_None. apply nth_error_None in Ec. lia.
Qed.

Lemma svg_useMemo_at_total : forall (w h pad : R) (sol : TSPSolution),
  exists memo,
    TSPVisualizationSVG.useMemo_at w h pad (Some sol) = Some memo /\
    TSPVisualizationSVG.distancesOf
      (if Nat.eqb (length (match originalPoints sol with
                           | Some a => a | None => [] end)) 0
       then []
       else match route sol with Some a => a | None => [] end)
      = Some (TSPVisualizationSVG.routeDistances memo) /\
    length (TSPVisualizationSVG.scaledRoute memo) =
      (if Nat.eqb (length (match originalPoints sol with
                           | Some a => a | None => [] end)) 0
       then 0%nat
       else length (match route sol with Some a => a | None => [] end)).
Proof.
  intros w h pad sol. unfold TSPVisualizationSVG.useMemo_at.
  destruct (Nat.eqb _ 0).
  - exists TSPVisualizationSVG.emptyMemo. repeat split; reflexivity.
  - rewrite svg_distancesOf_map. cbn [bind]. eexists.
    split; [reflexivity|]. cbn [TSPVisualizationSVG.routeDistances
      TSPVisualizationSVG.scaledRoute].
    split; [reflexivity | apply length_map].
Qed.

(** C2, as stated, fails in the graph: its [routeDistances] is empty, not as
    long as the route, for a route of one point and for a route whose
    solution has no original points. *)
Lemma svg_routeDistances_shorter_than_route :
  (exists memo r,
     TSPVisualizationSVG.useMemo (Some onePointSolution) = Some memo /\
     route onePointSolution = Some r /\ length r = 1%nat /\
     length (TSPVisualizationSVG.routeDistances memo) = 0%nat) /\
  (exists memo r,
     TSPVisualizationSVG.useMemo (Some routeWithoutPoints) = Some memo /\
     route routeWithoutPoints = Some r /\ length r = 2%nat /\
     length (TSPVisualizationSVG.routeDistances memo) = 0%nat).
Proof.
  split; do 2 eexists; repeat split; reflexivity.
Qed.

(** C2, amended: the [getRouteDistances] of the table returns, for every
    route, an array as long as the route whose element [i] is the Euclidean
    distance from point [i] to point [(i + 1) mod route.length], the last
    element being the distance from the last point back to the first.  The
    [routeDistances] of the graph is that array when the solution has an
    original point and the route at least two points, and is empty
    otherwise. *)
Theorem segment_distances_closed_tour :
  forall (sol : TSPSolution) (r : list RoutePoint.t),
    route sol = Some r ->
    exists distances memo,
      SolutionDetails.getRouteDistances r = Some distances /\
      length distances = length r /\
      (forall i, (i < length r)%nat ->
         exists current next,
           nth_error r i = Some current /\
           nth_error r ((i + 1) mod length r) = Some next /\
           nth_error distances i =
             Some (sqrt ((x next - x current) ^ 2 +
                         (y next - y current) ^ 2))) /\
      (forall first final, hd_error r = Some first ->
         nth_error r (length r - 1) = Some final ->
         nth_error distances (length r - 1) =
           Some (sqrt ((x first - x final) ^ 2 + (y first - y final) ^ 2))) /\
      TSPVisualizationSVG.useMemo (Some sol) = Some memo /\
      TSPVisualizationSVG.routeDistances memo =
        match originalPoints sol with
        | Some (_ :: _) => if Nat.ltb 1 (length r) then distances else []
        | _ => []
        end.
Proof.
  intros sol r Hr.
  destruct (getRouteDistances_elements r)
    as (distances & Hres & Hlen & Hat & Hback).
  destruct (svg_useMemo_at_total 800 600 60 sol) as (memo & Hmemo & Hd & _).
  exists distances, memo.
  split; [exact Hres|]. split; [exact Hlen|]. split; [exact Hat|].
  split; [exact Hback|]. split; [exact Hmemo|].
  rewrite Hr in Hd.
  destruct (originalPoints sol) as [[|op ops]|]; simpl in Hd.
  - injection Hd as <-. reflexivity.
  - destruct (Nat.ltb_spec 1 (length r)) as [Hlong|Hshort].
    + rewrite (svg_distancesOf_table r Hlong), Hres in Hd.
      injection Hd as <-. reflexivity.
    + rewrite svg_distancesOf_short in Hd by lia.
      injection Hd as <-. reflexivity.
  - injection Hd as <-. reflexivity.
Qed.

(** ** The points and the highlight of the graph *)

Lemma svg_pointShapes : forall (sol : TSPSolution) (sel : option nat)
    (point : Scaled) (index : nat),
  distanceLabels (TSPVisualizationSVG.pointShapes sol sel point index) = [] /\
  routeLines (TSPVisualizationSVG.pointShapes sol sel point index) = [] /\
  markers (TSPVisualizationSVG.pointShapes sol sel point index) =
    [(x point, y point, markerColour index)].
Proof.
  intros sol sel point index.
  unfold TSPVisualizationSVG.pointShapes, distanceLabels, routeLines, markers,
    markerColour.
  rewrite !flat_map_app.
  destruct (SolutionDetails.option_nat_eqb sel index),
    (Nat.eqb index 0),
    (match originalPoints sol with
     | Some ops => nth_error ops index
     | None => None
     end); repeat split; reflexivity.
Qed.

Lemma svg_highlightShapes : forall (showRoute : bool) (sel : option nat)
    (scaledRoute : list Scaled),
  distanceLabels (TSPVisualizationSVG.highlightShapes showRoute sel scaledRoute) = [] /\
  routeLines (TSPVisualizationSVG.highlightShapes showRoute sel scaledRoute) = [] /\
  markers (TSPVisualizationSVG.highlightShapes showRoute sel scaledRoute) = [].
Proof.
  intros showRoute [k|] scaledRoute; simpl; [|repeat split; reflexivity].
  destruct (nth_error scaledRoute k), showRoute; repeat split; reflexivity.
Qed.

Lemma svg_points : forall (sol : TSPSolution) (sel : option nat)
    (l : list Scaled) (i : nat),
  distanceLabels (concat (map_from (TSPVisualizationSVG.pointShapes sol sel) i l)) = [] /\
  routeLines (concat (map_from (TSPVisualizationSVG.pointShapes sol sel) i l)) = [] /\
  markers (concat (map_from (TSPVisualizationSVG.pointShapes sol sel) i l)) =
    map_from (fun p index => (x p, y p, markerColour index)) i l.
Proof.
  intros sol sel l. induction l as [|p l IH]; intros i.
  - repeat split; reflexivity.
  - destruct (IH (S i)) as (Hl & Hr & Hm).
    destruct (svg_pointShapes sol sel p i) as (Hl0 & Hr0 & Hm0).
    cbn [map_from concat]. unfold distanceLabels, routeLines, markers in *.
    rewrite !flat_map_app, Hl, Hr, Hm, Hl0, Hr0, Hm0.
    repeat split; reflexivity.
Qed.

(** ** The scene of the graph *)

Lemma svg_render_at_scene : forall (w h pad : R) (darkMode : bool)
    (props : TSPVisualizationSVG.Props) (sol : TSPSolution),
  TSPVisualizationSVG.solution props = Some sol ->
  exists memo vw vh shapes,
    TSPVisualizationSVG.useMemo_at w h pad (Some sol) = Some memo /\
    TSPVisualizationSVG.render_at w h pad darkMode props
      = Some (TSPVisualizationSVG.Svg vw vh shapes) /\
    hd_error shapes =
      Some (Background (if darkMode then "#1e293b" else "#ffffff")) /\
    distanceLabels shapes =
      (if TSPVisualizationSVG.showRoute props &&
          Nat.ltb 1 (length (TSPVisualizationSVG.scaledRoute memo))
       then tourLabels (TSPVisualizationSVG.routeDistances memo)
              (length (TSPVisualizationSVG.scaledRoute memo))
       else []) /\
    routeLines shapes =
      (if TSPVisualizationSVG.showRoute props &&
          Nat.ltb 1 (length (TSPVisualizationSVG.scaledRoute memo))
       then tourLines (TSPVisualizationSVG.scaledRoute memo)
       else []) /\
    markers shapes =
      map_from (fun p index => (x p, y p, markerColour index)) 0
        (TSPVisualizationSVG.scaledPoints memo).
Proof.
  intros w h pad darkMode props sol Hsol.
  destruct (svg_useMemo_at_total w h pad sol) as (memo & Hmemo & _).
  destruct (svg_routeShapes (TSPVisualizationSVG.scaledRoute memo)
              (TSPVisualizationSVG.routeDistances memo)
              (TSPVisualizationSVG.showRoute props))
    as (segments & Hseg & Hl & Hr & Hm).
  destruct (svg_points sol (TSPVisualizationSVG.selectedOriginalPoint props)
              (TSPVisualizationSVG.scaledPoints memo) 0) as (Hpl & Hpr & Hpm).
  destruct (svg_highlightShapes (TSPVisualizationSVG.showRoute props)
              (TSPVisualizationSVG.selectedRoutePoint props)
              (TSPVisualizationSVG.scaledRoute memo)) as (Hhl & Hhr & Hhm).
  exists memo. do 3 eexists.
  split; [exact Hmemo|].
  split.
  { unfold TSPVisualizationSVG.render_at. rewrite Hsol, Hmemo. cbn [bind].
    rewrite Hseg. cbn [bind]. reflexivity. }
  unfold Array_map, distanceLabels, routeLines, markers in *.
  split; [reflexivity|].
  rewrite !flat_map_app, Hl, Hr, Hm, Hpl, Hpr, Hpm, Hhl, Hhr, Hhm.
  rewrite !app_nil_r.
  destruct darkMode; repeat split; reflexivity.
Qed.

Lemma tourLabels_all : forall (distances : list R),
  tourLabels distances (length distances) =
  map (fun d => TSPVisualizationSVG.distanceLabel (Some d)) distances.
Proof.
  intros distances. unfold tourLabels. apply nth_error_ext. intros i.
  rewrite !nth_error_map, nth_error_seq.
  destruct (Nat.ltb_spec i (length distances)) as [Hlt|Hge]; simpl.
  - destruct (nth_error distances i) eqn:E; [reflexivity|].
    apply nth_error_None in E. lia.
  - assert (E : nth_error distances i = None) by (apply nth_error_None; lia).
    rewrite E. reflexivity.
Qed.

(** The labels of the graph, read off the props alone: the surface and its
    padding do not come into them. *)
Lemma svg_render_at_labels : forall (w h pad : R) (darkMode : bool)
    (props : TSPVisualizationSVG.Props) (sol : TSPSolution),
  TSPVisualizationSVG.solution props = Some sol ->
  exists distances vw vh shapes,
    TSPVisualizationSVG.distancesOf
      (if Nat.eqb (length (match originalPoints sol with
                           | Some a => a | None => [] end)) 0
       then []
       else match route sol with Some a => a | None => [] end)
      = Some distances /\
    TSPVisualizationSVG.render_at w h pad darkMode props
      = Some (TSPVisualizationSVG.Svg vw vh shapes) /\
    distanceLabels shapes =
      (if TSPVisualizationSVG.showRoute props &&
          Nat.ltb 1
            (if Nat.eqb (length (match originalPoints sol with
                                 | Some a => a | None => [] end)) 0
             then 0%nat
             else length (match route sol with Some a => a | None => [] end))
       then tourLabels distances
              (if Nat.eqb (length (match originalPoints sol with
                                   | Some a => a | None => [] end)) 0
               then 0%nat
               else length (match route sol with Some a => a | None => [] end))
       else []).
Proof.
  intros w h pad darkMode props sol Hsol.
  destruct (svg_render_at_scene w h pad darkMode props sol Hsol)
    as (memo & vw & vh & shapes & Hmemo & Hrender & _ & Hlabels & _).
  destruct (svg_useMemo_at_total w h pad sol) as (memo' & Hmemo' & Hd & Hn).
  rewrite Hmemo in Hmemo'. injection Hmemo' as <-.
  exists (TSPVisualizationSVG.routeDistances memo), vw, vh, shapes.
  split; [exact Hd|]. split; [exact Hrender|].
  rewrite Hlabels, Hn. reflexivity.
Qed.

Lemma svg_labels_any_surface : forall (w h pad : R) (darkMode : bool)
    (props : TSPVisualizationSVG.Props),
  option_map (fun v => distanceLabels (shapesOf v))
    (TSPVisualizationSVG.render_at w h pad darkMode props) =
  option_map (fun v => distanceLabels (shapesOf v))
    (TSPVisualizationSVG.render darkMode props).
Proof.
  intros w h pad darkMode props. unfold TSPVisualizationSVG.render.
  destruct (TSPVisualizationSVG.solution props) as [sol|] eqn:Hsol.
  - destruct (svg_render_at_labels w h pad darkMode props sol Hsol)
      as (d1 & vw1 & vh1 & s1 & Hd1 & Hr1 & Hl1).
    destruct (svg_render_at_labels 800 600 60 darkMode props sol Hsol)
      as (d2 & vw2 & vh2 & s2 & Hd2 & Hr2 & Hl2).
    rewrite Hd1 in Hd2. injection Hd2 as <-.
    rewrite Hr1, Hr2. cbn [option_map shapesOf]. rewrite Hl1, Hl2. reflexivity.
  - unfold TSPVisualizationSVG.render_at. rewrite Hsol. reflexivity.
Qed.

(** The labels of a shown route of at least two points in a solution that
    has an original point: one per route point, made from the distances of
    the closed tour. *)
Lemma svg_render_labels_of_route : forall (darkMode : bool)
    (sol : TSPSolution) (selO selR : option nat)
    (ops : list Point.t) (r : list RoutePoint.t),
  originalPoints sol = Some ops -> ops <> [] ->
  route sol = Some r -> (1 < length r)%nat ->
  exists distances vw vh shapes,
    SolutionDetails.getRouteDistances r = Some distances /\
    length distances = length r /\
    TSPVisualizationSVG.render darkMode
      (TSPVisualizationSVG.mkProps (Some sol) true selO selR)
      = Some (TSPVisualizationSVG.Svg vw vh shapes) /\
    distanceLabels shapes =
      map (fun d => TSPVisualizationSVG.distanceLabel (Some d)) distances.
Proof.
  intros darkMode sol selO selR ops r Hops Hne Hr Hlen.
  destruct (svg_render_at_labels 800 600 60 darkMode
              (TSPVisualizationSVG.mkProps (Some sol) true selO selR)
              sol eq_refl)
    as (distances & vw & vh & shapes & Hd & Hrender & Hlabels).
  rewrite Hops, Hr in Hd, Hlabels.
  destruct ops as [|op ops]; [contradiction|].
  cbn [length Nat.eqb TSPVisualizationSVG.showRoute andb] in Hd, Hlabels.
  rewrite (svg_distancesOf_table r Hlen) in Hd.
  destruct (getRouteDistances_elements r) as (ds & Hres & Hl & _).
  rewrite Hres in Hd. injection Hd as <-.
  destruct (Nat.ltb_spec 1 (length r)); [|lia].
  rewrite <- Hl, tourLabels_all in Hlabels.
  exists ds, vw, vh, shapes. repeat split; assumption.
Qed.


(** ** The scene of the canvas *)

Lemma skipn_nth_error : forall {A : Type} (l : list A) (i : nat) (a : A),
  nth_error l i = Some a -> skipn i l = a :: skipn (S i) l.
Proof.
  intros A l. induction l as [|b l IH]; intros [|i] a E; simpl in *;
    try discriminate.
  - now injection E as ->.
  - rewrite (IH i a E). destruct l; reflexivity.
Qed.

Lemma canvas_drawRoute_for : forall (scaledRoute : list Scaled) (k i : nat)
    (drawn : list Shape),
  (i + k = length scaledRoute)%nat ->
  exists segments,
    TSPVisualization.drawRoute_for scaledRoute k i drawn
      = Some (drawn ++ segments) /\
    routeLines segments =
      concat (map_from (tourLineOf scaledRoute) i (skipn i scaledRoute)) /\
    markers segments = [] /\
    distanceLabels segments = [].
Proof.
  intros scaledRoute k. induction k as [|k IH]; intros i drawn Hik.
  - exists []. rewrite app_nil_r.
    rewrite skipn_all2 by lia. repeat split; reflexivity.
  - assert (Hi : (i < length scaledRoute)%nat) by lia.
    destruct (nth_error scaledRoute i) as [current|] eqn:Ec;
      [| apply nth_error_None in Ec; lia].
    destruct (nth_error scaledRoute ((i + 1) mod length scaledRoute))
      as [next|] eqn:En.
    2:{ apply nth_error_None in En.
        pose proof (Nat.mod_upper_bound (i + 1) (length scaledRoute)). lia. }
    cbn [TSPVisualization.drawRoute_for]. rewrite Ec, En. cbn [bind].
    match goal with
    | |- context [TSPVisualization.drawRoute_for _ k (i + 1) (drawn ++ ?g)] =>
        destruct (IH (i + 1)%nat (drawn ++ g))
          as (segments & Hres & Hlines & Hmarkers & Hlabels); [lia|];
        exists (g ++ segments)
    end.
    split; [rewrite Hres, <- app_assoc; reflexivity|].
    unfold routeLines, markers, distanceLabels in *.
    rewrite !flat_map_app, Hlines, Hmarkers, Hlabels.
    rewrite (skipn_nth_error _ _ _ Ec). cbn [map_from concat].
    replace (tourLineOf scaledRoute current i)
      with [(x current, y current, x next, y next)]
      by (unfold tourLineOf; rewrite En; reflexivity).
    replace (i + 1)%nat with (S i) by lia.
    repeat split; reflexivity.
Qed.

Lemma canvas_points : forall (measureText : string -> R) (b : Bounds)
    (l : list Point.t) (i : nat),
  routeLines (concat (map_from (TSPVisualization.drawPoint measureText b) i l)) = [] /\
  distanceLabels (concat (map_from (TSPVisualization.drawPoint measureText b) i l)) = [] /\
  markers (concat (map_from (TSPVisualization.drawPoint measureText b) i l)) =
    map_from (fun p index =>
                (x (scalePoint b p), y (scalePoint b p), markerColour index)) i l.
Proof.
  intros measureText b l. induction l as [|p l IH]; intros i.
  - repeat split; reflexivity.
  - destruct (IH (S i)) as (Hr & Hl & Hm).
    cbn [map_from concat]. unfold routeLines, distanceLabels, markers in *.
    rewrite !flat_map_app, Hr, Hl, Hm.
    unfold TSPVisualization.drawPoint, markerColour.
    destruct (Nat.eqb i 0); repeat split; reflexivity.
Qed.

Lemma canvas_grid : forall (darkMode : bool) (w h : R),
  routeLines (TSPVisualization.drawGrid darkMode w h) = [] /\
  distanceLabels (TSPVisualization.drawGrid darkMode w h) = [] /\
  markers (TSPVisualization.drawGrid darkMode w h) = [].
Proof.
  intros darkMode w h. unfold TSPVisualization.drawGrid.
  destruct darkMode; repeat split; reflexivity.
Qed.

Lemma canvas_draw_at_scene : forall (pad : R) (measureText : string -> R)
    (w h : R) (darkMode : bool) (sol : TSPSolution) (showRoute : bool),
  let points := match originalPoints sol with Some a => a | None => [] end in
  let r := match route sol with Some a => a | None => [] end in
  let b := computeBounds w h pad points in
  exists shapes,
    TSPVisualization.draw_at pad measureText w h darkMode (Some sol) showRoute
      = Some shapes /\
    hd_error shapes =
      Some (Background (if darkMode then "#1e293b" else "#ffffff")) /\
    distanceLabels shapes = [] /\
    routeLines shapes =
      (if Nat.eqb (length points) 0 then []
       else if showRoute && Nat.ltb 1 (length r)
            then tourLines (map (scalePoint b) r) else []) /\
    markers shapes =
      (if Nat.eqb (length points) 0 then []
       else map_from (fun p index =>
              (x (scalePoint b p), y (scalePoint b p), markerColour index))
              0 points).
Proof.
  intros pad measureText w h darkMode sol showRoute points r b.
  unfold TSPVisualization.draw_at. fold points. fold r. fold b.
  destruct (Nat.eqb (length points) 0).
  { eexists. split; [reflexivity|]. destruct darkMode; repeat split; reflexivity. }
  destruct (canvas_points measureText b points 0) as (Hpr & Hpl & Hpm).
  destruct (canvas_grid darkMode w h) as (Hgr & Hgl & Hgm).
  assert (Hroute : exists segments,
    (if showRoute && Nat.ltb 1 (length r)
     then TSPVisualization.drawRoute_for (map (scalePoint b) r)
            (length (map (scalePoint b) r)) 0 []
     else Some []) = Some segments /\
    routeLines segments =
      (if showRoute && Nat.ltb 1 (length r)
       then tourLines (map (scalePoint b) r) else []) /\
    markers segments = [] /\ distanceLabels segments = []).
  { destruct (showRoute && Nat.ltb 1 (length r)).
    - destruct (canvas_drawRoute_for (map (scalePoint b) r)
                  (length (map (scalePoint b) r)) 0 [])
        as (segments & Hres & Hl & Hm & Hd); [lia|].
      exists segments. repeat split; assumption.
    - exists []. repeat split; reflexivity. }
  destruct Hroute as (segments & Hres & Hsr & Hsm & Hsl).
  rewrite Hres. cbn [bind]. eexists. split; [reflexivity|].
  unfold Array_map, routeLines, distanceLabels, markers in *.
  split; [reflexivity|].
  rewrite !flat_map_app, Hsr, Hsm, Hsl, Hpr, Hpl, Hpm, Hgr, Hgl, Hgm.
  destruct darkMode; repeat split; simpl; rewrite ?app_nil_r; reflexivity.
Qed.

Lemma svg_useMemo_at_scaled : forall (w h pad : R) (sol : TSPSolution)
    (memo : TSPVisualizationSVG.Memo),
  TSPVisualizationSVG.useMemo_at w h pad (Some sol) = Some memo ->
  let points := match originalPoints sol with Some a => a | None => [] end in
  let r := match route sol with Some a => a | None => [] end in
  let b := computeBounds w h pad points in
  TSPVisualizationSVG.scaledPoints memo =
    (if Nat.eqb (length points) 0 then [] else map (scalePoint b) points) /\
  TSPVisualizationSVG.scaledRoute memo =
    (if Nat.eqb (length points) 0 then [] else map (scalePoint b) r).
Proof.
  intros w h pad sol memo. unfold TSPVisualizationSVG.useMemo_at.
  destruct (Nat.eqb _ 0).
  - intros E. injection E as <-. split; reflexivity.
  - rewrite svg_distancesOf_map. cbn [bind]. intros E. injection E as <-.
    split; reflexivity.
Qed.

(** ** The lines of a tour *)

Lemma map_from_ext_in : forall {A B : Type} (f g : A -> nat -> B) (l : list A) (i : nat),
  (forall j a, nth_error l j = Some a -> f a (i + j)%nat = g a (i + j)%nat) ->
  map_from f i l = map_from g i l.
Proof.
  intros A B f g l. induction l as [|a l IH]; intros i Hfg; simpl; [reflexivity|].
  f_equal.
  - specialize (Hfg 0%nat a eq_refl). now rewrite Nat.add_0_r in Hfg.
  - apply IH. intros j b Hj.
    specialize (Hfg (S j) b Hj). now replace (S i + j)%nat with (i + S j)%nat by lia.
Qed.

Lemma map_from_length : forall {A B : Type} (f : A -> nat -> B) (l : list A) (i : nat),
  length (map_from f i l) = length l.
Proof.
  intros A B f l. induction l as [|a l IH]; intros i; simpl; [reflexivity|].
  now rewrite IH.
Qed.

Lemma tourLines_from : forall (sr l : list Scaled) (i : nat),
  (i + length l <= length sr)%nat ->
  concat (map_from (tourLineOf sr) i l) =
  map_from (fun c j =>
    (x c, y c, x (nth ((j + 1) mod length sr) sr c),
     y (nth ((j + 1) mod length sr) sr c))) i l.
Proof.
  intros sr l. induction l as [|c l IH]; intros i Hi; [reflexivity|].
  simpl in Hi. cbn [map_from concat]. rewrite IH by lia.
  unfold tourLineOf at 1.
  destruct (nth_error sr ((i + 1) mod length sr)) as [next|] eqn:En.
  - rewrite (nth_error_nth _ _ c En). reflexivity.
  - apply nth_error_None in En.
    pose proof (Nat.mod_upper_bound (i + 1) (length sr)). lia.
Qed.

(** Line [i] of a tour goes from point [i] to point [(i + 1) mod n]. *)
Lemma tourLines_nth : forall (sr : list Scaled) (i : nat) (c next : Scaled),
  nth_error sr i = Some c ->
  nth_error sr ((i + 1) mod length sr) = Some next ->
  nth_error (tourLines sr) i = Some (x c, y c, x next, y next).
Proof.
  intros sr i c next Hc Hn. unfold tourLines.
  rewrite tourLines_from by (simpl; lia).
  rewrite map_from_nth_error, Hc. simpl.
  rewrite (nth_error_nth _ _ c Hn). reflexivity.
Qed.

Lemma tourLines_length : forall (sr : list Scaled),
  length (tourLines sr) = length sr.
Proof.
  intros sr. unfold tourLines. rewrite tourLines_from by (simpl; lia).
  apply map_from_length.
Qed.

Lemma map_from_colours : forall {A : Type} (px py : A -> R) (l : list A) (i : nat),
  map snd (map_from (fun p index => (px p, py p, markerColour index)) i l) =
  map_from (fun _ index => markerColour index) i l.
Proof.
  intros A px py l. induction l as [|a l IH]; intros i; simpl;
    [reflexivity | now rewrite IH].
Qed.

(** C8, amended: the two renderers are not equivalent, but they share the
    plan of what they draw.  For the same solution, flag and theme they
    paint the same background colour, as many route lines in the same order
    (line [i] from projected route point [i] to the next one on the closed
    tour, when the route is shown and has at least two points) and as many
    point markers in the same order and colours (the first green, the
    others blue).  Each places them with its own projection: the graph on
    800 x 600 with a padding of 60, the canvas on its own width and height
    with a padding of 40.  The canvas never draws a distance label. *)
Theorem renderers_share_route_and_markers :
  forall (measureText : string -> R) (canvas_width canvas_height : R)
         (darkMode : bool) (sol : TSPSolution) (showRoute : bool)
         (selO selR : option nat),
    let points := match originalPoints sol with Some a => a | None => [] end in
    let r := match route sol with Some a => a | None => [] end in
    let svgBounds := computeBounds 800 600 60 points in
    let canvasBounds := computeBounds canvas_width canvas_height 40 points in
    exists vw vh svgShapes canvasShapes,
      TSPVisualizationSVG.render darkMode
        (TSPVisualizationSVG.mkProps (Some sol) showRoute selO selR)
        = Some (TSPVisualizationSVG.Svg vw vh svgShapes) /\
      TSPVisualization.draw measureText canvas_width canvas_height darkMode
        (Some sol) showRoute = Some canvasShapes /\
      hd_error svgShapes = hd_error canvasShapes /\
      hd_error canvasShapes =
        Some (Background (if darkMode then "#1e293b" else "#ffffff")) /\
      routeLines svgShapes =
        (if Nat.eqb (length points) 0 then []
         else if showRoute && Nat.ltb 1 (length r)
              then tourLines (map (scalePoint svgBounds) r) else []) /\
      routeLines canvasShapes =
        (if Nat.eqb (length points) 0 then []
         else if showRoute && Nat.ltb 1 (length r)
              then tourLines (map (scalePoint canvasBounds) r) else []) /\
      length (routeLines svgShapes) = length (routeLines canvasShapes) /\
      markers svgShapes =
        (if Nat.eqb (length points) 0 then []
         else map_from (fun p index =>
                (x (scalePoint svgBounds p), y (scalePoint svgBounds p),
                 markerColour index)) 0 points) /\
      markers canvasShapes =
        (if Nat.eqb (length points) 0 then []
         else map_from (fun p index =>
                (x (scalePoint canvasBounds p), y (scalePoint canvasBounds p),
                 markerColour index)) 0 points) /\
      map snd (markers svgShapes) = map snd (markers canvasShapes) /\
      distanceLabels canvasShapes = [].
Proof.
  intros measureText w h darkMode sol showRoute selO selR
    points r svgBounds canvasBounds.
  destruct (svg_render_at_scene 800 600 60 darkMode
              (TSPVisualizationSVG.mkProps (Some sol) showRoute selO selR)
              sol eq_refl)
    as (memo & vw & vh & svgShapes & Hmemo & Hrender & Hhd & _ & Hlines
        & Hmarkers).
  destruct (canvas_draw_at_scene 40 measureText w h darkMode sol showRoute)
    as (canvasShapes & Hdraw & Hhd' & Hlabels' & Hlines' & Hmarkers').
  destruct (svg_useMemo_at_scaled 800 600 60 sol memo Hmemo) as (Hsp & Hsr).
  fold points in Hsp, Hsr, Hlines', Hmarkers'.
  fold r in Hsr, Hlines'. fold svgBounds in Hsp, Hsr.
  fold canvasBounds in Hlines', Hmarkers'.
  cbn [TSPVisualizationSVG.showRoute] in Hlines.
  assert (Hl : routeLines svgShapes =
    (if Nat.eqb (length points) 0 then []
     else if showRoute && Nat.ltb 1 (length r)
          then tourLines (map (scalePoint svgBounds) r) else [])).
  { rewrite Hlines, Hsr. destruct (Nat.eqb (length points) 0).
    - rewrite andb_false_r. reflexivity.
    - rewrite length_map. reflexivity. }
  assert (Hm : markers svgShapes =
    (if Nat.eqb (length points) 0 then []
     else map_from (fun p index =>
            (x (scalePoint svgBounds p), y (scalePoint svgBounds p),
             markerColour index)) 0 points)).
  { rewrite Hmarkers, Hsp. destruct (Nat.eqb (length points) 0);
      [reflexivity | apply map_from_map]. }
  exists vw, vh, svgShapes, canvasShapes.
  split; [exact Hrender|]. split; [exact Hdraw|].
  split; [congruence|]. split; [exact Hhd'|].
  split; [exact Hl|]. split; [exact Hlines'|].
  split.
  { rewrite Hl, Hlines'. destruct (Nat.eqb (length points) 0); [reflexivity|].
    destruct (showRoute && Nat.ltb 1 (length r)); [|reflexivity].
    rewrite !tourLines_length, !length_map. reflexivity. }
  split; [exact Hm|]. split; [exact Hmarkers'|].
  split; [|exact Hlabels'].
  rewrite Hm, Hmarkers'. destruct (Nat.eqb (length points) 0); [reflexivity|].
  rewrite !map_from_colours. reflexivity.
Qed.

(** ** The two renderers on the two-point example *)

Lemma sqrt_25 : forall a : R, a = 25 -> sqrt a = 5.
Proof. intros a ->. apply sqrt_lem_1; lra. Qed.

Example twoPoint_table_distances :
  SolutionDetails.getRouteDistances
    [RoutePoint.mk 0 0 None 0; RoutePoint.mk 3 4 None 1] = Some [5; 5].
Proof.
  unfold SolutionDetails.getRouteDistances. simpl.
  unfold SolutionDetails.calculateDistance. simpl.
  rewrite !sqrt_25 by lra. reflexivity.
Qed.

Example distanceLabel_5 :
  TSPVisualizationSVG.distanceLabel (Some 5) = "5.0"%string.
Proof.
  unfold TSPVisualizationSVG.distanceLabel.
  destruct (Req_dec_T 5 0) as [E|_]; [lra|].
  rewrite (toFixed_eval 5 1 50); [reflexivity | lra | simpl; lra].
Qed.

Example twoPoint_svg_origin :
  scalePoint (computeBounds 800 600 60 [Point.mk 0 0 None; Point.mk 3 4 None])
    (Point.mk 0 0 None) = mkScaled 220 540.
Proof.
  unfold scalePoint, computeBounds, Math_min, Math_max. simpl.
  Rcases. f_equal; lra.
Qed.

Example twoPoint_canvas_origin :
  scalePoint (computeBounds 800 600 40 [Point.mk 0 0 None; Point.mk 3 4 None])
    (Point.mk 0 0 None) = mkScaled 205 560.
Proof.
  unfold scalePoint, computeBounds, Math_min, Math_max. simpl.
  Rcases. f_equal; lra.
Qed.

(** C8, as stated, fails: for the two-point solution, with the route shown,
    the light theme and a canvas as large as the SVG surface, the first
    marker is at (220, 540) in the graph and at (205, 560) on the canvas, and
    the graph has two distance labels where the canvas has none. *)
Lemma renderers_differ :
  exists vw vh svgShapes canvasShapes,
    TSPVisualizationSVG.render false
      (TSPVisualizationSVG.mkProps (Some twoPointSolution) true None None)
      = Some (TSPVisualizationSVG.Svg vw vh svgShapes) /\
    TSPVisualization.draw (fun _ => 30) 800 600 false (Some twoPointSolution)
      true = Some canvasShapes /\
    hd_error (markers svgShapes) = Some (220, 540, "#22c55e"%string) /\
    hd_error (markers canvasShapes) = Some (205, 560, "#22c55e"%string) /\
    distanceLabels svgShapes = ["5.0"%string; "5.0"%string] /\
    distanceLabels canvasShapes = [] /\
    svgShapes <> canvasShapes.
Proof.
  destruct (svg_render_at_scene 800 600 60 false
              (TSPVisualizationSVG.mkProps (Some twoPointSolution) true None None)
              twoPointSolution eq_refl)
    as (memo & vw & vh & svgShapes & Hmemo & Hrender & _ & Hlabels & _ & Hmarkers).
  destruct (canvas_draw_at_scene 40 (fun _ => 30) 800 600 false
              twoPointSolution true)
    as (canvasShapes & Hdraw & _ & Hlabels' & _ & Hmarkers').
  destruct (svg_useMemo_at_scaled 800 600 60 twoPointSolution memo Hmemo)
    as (Hsp & Hsr).
  destruct (svg_useMemo_at_total 800 600 60 twoPointSolution)
    as (memo' & Hmemo' & Hdist & _).
  rewrite Hmemo in Hmemo'. injection Hmemo' as <-.
  unfold twoPointSolution in Hsp, Hsr, Hdist, Hmarkers'.
  cbn [originalPoints route length Nat.eqb map] in Hsp, Hsr, Hdist, Hmarkers'.
  unfold TSPVisualizationSVG.distancesOf, TSPVisualizationSVG.calculateDistance
    in Hdist. simpl in Hdist. injection Hdist as Hdist.
  rewrite !sqrt_25 in Hdist by lra.
  rewrite Hsp in Hmarkers. rewrite Hsr, <- Hdist in Hlabels.
  unfold tourLabels in Hlabels.
  cbn [length map Nat.ltb Nat.leb andb seq nth_error
       TSPVisualizationSVG.showRoute] in Hlabels.
  rewrite distanceLabel_5 in Hlabels.
  cbn [map_from] in Hmarkers, Hmarkers'.
  rewrite twoPoint_svg_origin in Hmarkers.
  rewrite twoPoint_canvas_origin in Hmarkers'.
  exists vw, vh, svgShapes, canvasShapes.
  split; [exact Hrender|]. split; [exact Hdraw|].
  split; [rewrite Hmarkers; reflexivity|].
  split; [rewrite Hmarkers'; reflexivity|].
  split; [exact Hlabels|]. split; [exact Hlabels'|].
  intros E. rewrite E, Hlabels' in Hlabels. discriminate.
Qed.

(** ** The theme *)

Lemma last_cons_default : forall {A : Type} (l : list A) (a d d' : A),
  last (a :: l) d = last (a :: l) d'.
Proof.
  intros A l. induction l as [|b l IH]; intros a d d'; [reflexivity|].
  change (last (a :: b :: l) d) with (last (b :: l) d).
  change (last (a :: b :: l) d') with (last (b :: l) d').
  apply IH.
Qed.

Lemma fold_left_latest : forall {A B : Type} (f : B -> A) (l : list B) (a : A) (d : B),
  a = f d -> fold_left (fun _ b => f b) l a = f (last l d).
Proof.
  intros A B f l. induction l as [|b l IH]; intros a d Ha; simpl fold_left.
  - exact Ha.
  - rewrite (IH (f b) b eq_refl). destruct l as [|c l]; [reflexivity|].
    change (last (b :: c :: l) d) with (last (c :: l) d).
    f_equal. apply last_cons_default.
Qed.

(** [darkMode] mirrors the attribute of the page as it is now. *)
Lemma svg_darkMode_after_latest : forall (document : Document)
    (mutations : list Document),
  TSPVisualizationSVG.darkMode_after document mutations =
    TSPVisualizationSVG.isDarkMode (last mutations document).
Proof.
  intros document mutations. unfold TSPVisualizationSVG.darkMode_after.
  apply fold_left_latest. reflexivity.
Qed.

Lemma canvas_darkMode_after_latest : forall (document : Document)
    (mutations : list Document),
  TSPVisualization.darkMode_after document mutations =
    TSPVisualization.isDarkMode (last mutations document).
Proof.
  intros document mutations. unfold TSPVisualization.darkMode_after.
  apply fold_left_latest. reflexivity.
Qed.

(** C7, as stated, fails: the theme is not among the props.  With the same
    props the graph is drawn on a white background on a page without
    [data-theme] and on a dark one on a page whose [data-theme] is ['dark'],
    and a change of the attribute alone changes what is drawn. *)
Lemma theme_read_from_page :
  let props :=
    TSPVisualizationSVG.mkProps (Some twoPointSolution) true None None in
  TSPVisualizationSVG.display lightPage [] props <>
  TSPVisualizationSVG.display darkPage [] props /\
  TSPVisualizationSVG.display lightPage [darkPage] props <>
  TSPVisualizationSVG.display lightPage [] props /\
  TSPVisualization.display (fun _ => 30) 800 600 lightPage []
    (Some twoPointSolution) true <>
  TSPVisualization.display (fun _ => 30) 800 600 darkPage []
    (Some twoPointSolution) true.
Proof.
  intros props.
  destruct (svg_render_at_scene 800 600 60 false props twoPointSolution eq_refl)
    as (_ & vw & vh & light & _ & Hlight & Hhd & _).
  destruct (svg_render_at_scene 800 600 60 true props twoPointSolution eq_refl)
    as (_ & vw' & vh' & dark & _ & Hdark & Hhd' & _).
  destruct (canvas_draw_at_scene 40 (fun _ => 30) 800 600 false
              twoPointSolution true) as (clight & Hclight & Hchd & _).
  destruct (canvas_draw_at_scene 40 (fun _ => 30) 800 600 true
              twoPointSolution true) as (cdark & Hcdark & Hchd' & _).
  assert (Hne : Some (TSPVisualizationSVG.Svg vw vh light) <>
                Some (TSPVisualizationSVG.Svg vw' vh' dark)).
  { intros E. injection E as _ _ E. rewrite E, Hhd' in Hhd. discriminate. }
  unfold TSPVisualizationSVG.display, TSPVisualization.display.
  rewrite ?svg_darkMode_after_latest, ?canvas_darkMode_after_latest.
  cbn [last]. unfold TSPVisualizationSVG.render, TSPVisualization.draw.
  change (TSPVisualizationSVG.isDarkMode lightPage) with false.
  change (TSPVisualizationSVG.isDarkMode darkPage) with true.
  change (TSPVisualization.isDarkMode lightPage) with false.
  change (TSPVisualization.isDarkMode darkPage) with true.
  rewrite Hlight, Hdark, Hclight, Hcdark.
  split; [exact Hne|]. split; [intros E; apply Hne; symmetry; exact E|].
  intros E. injection E as E. rewrite E, Hchd' in Hchd. discriminate.
Qed.

Example twoPoint_small_canvas_origin :
  scalePoint (computeBounds 400 300 40 [Point.mk 0 0 None; Point.mk 3 4 None])
    (Point.mk 0 0 None) = mkScaled (235 / 2) 260.
Proof.
  unfold scalePoint, computeBounds, Math_min, Math_max. simpl.
  Rcases. f_equal; lra.
Qed.

(** The canvas also draws differently on canvases of different sizes: the
    first marker of the two-point solution is at (205, 560) on 800 x 600
    and at (117.5, 260) on 400 x 300. *)
Example canvas_drawing_changes_with_size :
  TSPVisualization.draw (fun _ => 30) 800 600 false (Some twoPointSolution) true
  <>
  TSPVisualization.draw (fun _ => 30) 400 300 false (Some twoPointSolution) true.
Proof.
  destruct (canvas_draw_at_scene 40 (fun _ => 30) 800 600 false
              twoPointSolution true) as (large & Hlarge & _ & _ & _ & Hm).
  destruct (canvas_draw_at_scene 40 (fun _ => 30) 400 300 false
              twoPointSolution true) as (small & Hsmall & _ & _ & _ & Hm').
  unfold TSPVisualization.draw. rewrite Hlarge, Hsmall.
  intros E. injection E as E. subst small.
  unfold twoPointSolution in Hm, Hm'.
  cbn [originalPoints length Nat.eqb map_from] in Hm, Hm'.
  rewrite twoPoint_canvas_origin in Hm.
  rewrite twoPoint_small_canvas_origin in Hm'.
  rewrite Hm in Hm'. injection Hm' as Hx _. cbn [x y Scaled_XY scaled_x] in Hx.
  lra.
Qed.

(** C7, amended: the theme is not a parameter.  Each renderer keeps a
    [darkMode] state that it reads from the [data-theme] attribute of the
    page at mount and again at each change of it, so that the state is the
    attribute of the page as it is now.  What the graph draws is a function
    of its props and of that state; what the canvas draws is a function of
    its props, of that state, of the width and height of the canvas and of
    the text metrics of its drawing context.  Two runs that agree on these
    draw the same when the attribute is ['dark'] in both pages as they are
    now, or in neither. *)
Theorem display_depends_on_page_theme :
  forall (document1 document2 : Document) (mutations1 mutations2 : list Document)
         (props : TSPVisualizationSVG.Props) (measureText : string -> R)
         (canvas_width canvas_height : R),
    TSPVisualizationSVG.isDarkMode (last mutations1 document1) =
    TSPVisualizationSVG.isDarkMode (last mutations2 document2) ->
    TSPVisualizationSVG.display document1 mutations1 props =
      TSPVisualizationSVG.render
        (TSPVisualizationSVG.isDarkMode (last mutations1 document1)) props /\
    TSPVisualizationSVG.display document1 mutations1 props =
    TSPVisualizationSVG.display document2 mutations2 props /\
    TSPVisualization.display measureText canvas_width canvas_height
      document1 mutations1 (TSPVisualizationSVG.solution props)
      (TSPVisualizationSVG.showRoute props) =
      TSPVisualization.draw measureText canvas_width canvas_height
        (TSPVisualization.isDarkMode (last mutations1 document1))
        (TSPVisualizationSVG.solution props)
        (TSPVisualizationSVG.showRoute props) /\
    TSPVisualization.display measureText canvas_width canvas_height
      document1 mutations1 (TSPVisualizationSVG.solution props)
      (TSPVisualizationSVG.showRoute props) =
    TSPVisualization.display measureText canvas_width canvas_height
      document2 mutations2 (TSPVisualizationSVG.solution props)
      (TSPVisualizationSVG.showRoute props).
Proof.
  intros document1 document2 mutations1 mutations2 props measureText w h Hsame.
  unfold TSPVisualizationSVG.display, TSPVisualization.display.
  rewrite ?svg_darkMode_after_latest, ?canvas_darkMode_after_latest.
  change TSPVisualization.isDarkMode with TSPVisualizationSVG.isDarkMode.
  rewrite Hsame. repeat split; reflexivity.
Qed.

Lemma display_depends_on_page_theme_witness :
  let props :=
    TSPVisualizationSVG.mkProps (Some twoPointSolution) true None None in
  TSPVisualizationSVG.isDarkMode (last [lightPage; darkPage] lightPage) =
  TSPVisualizationSVG.isDarkMode (last [] darkPage) /\
  TSPVisualizationSVG.display lightPage [lightPage; darkPage] props =
  TSPVisualizationSVG.display darkPage [] props /\
  TSPVisualization.display (fun _ => 30) 800 600 lightPage
    [lightPage; darkPage] (Some twoPointSolution) true =
  TSPVisualization.display (fun _ => 30) 800 600 darkPage []
    (Some twoPointSolution) true.
Proof.
  intros props.
  assert (H : TSPVisualizationSVG.isDarkMode (last [lightPage; darkPage] lightPage) =
              TSPVisualizationSVG.isDarkMode (last [] darkPage)) by reflexivity.
  split; [exact H|].
  destruct (display_depends_on_page_theme lightPage darkPage
              [lightPage; darkPage] [] props (fun _ => 30) 800 600 H)
    as (_ & Hsvg & _ & Hcanvas).
  split; [exact Hsvg | exact Hcanvas].
Defined.

(** ** The claims on the two-point example *)

Lemma segment_distances_closed_tour_witness :
  route twoPointSolution =
    Some [RoutePoint.mk 0 0 None 0; RoutePoint.mk 3 4 None 1] /\
  exists distances memo,
    SolutionDetails.getRouteDistances
      [RoutePoint.mk 0 0 None 0; RoutePoint.mk 3 4 None 1] = Some distances /\
    length distances = 2%nat /\
    nth_error distances 1 = Some (sqrt ((0 - 3) ^ 2 + (0 - 4) ^ 2)) /\
    TSPVisualizationSVG.useMemo (Some twoPointSolution) = Some memo /\
    TSPVisualizationSVG.routeDistances memo = distances.
Proof.
  split; [reflexivity|].
  destruct (segment_distances_closed_tour twoPointSolution
              [RoutePoint.mk 0 0 None 0; RoutePoint.mk 3 4 None 1] eq_refl)
    as (distances & memo & Hres & Hlen & _ & Hback & Hmemo & Hsvg).
  exists distances, memo.
  split; [exact Hres|]. split; [exact Hlen|].
  split.
  { exact (Hback (RoutePoint.mk 0 0 None 0) (RoutePoint.mk 3 4 None 1)
             eq_refl eq_refl). }
  split; [exact Hmemo | exact Hsvg].
Defined.

Lemma cumulativeDistance_monotone_total_witness :
  exists distances rows,
    SolutionDetails.routeRows twoPointSolution None
      [RoutePoint.mk 0 0 None 0; RoutePoint.mk 3 4 None 1] = Some rows /\
    map SolutionDetails.row_distance rows = distances /\
    last (map SolutionDetails.row_cumulativeDistance rows) 0 = Rsum distances.
Proof.
  destruct (cumulativeDistance_monotone_total twoPointSolution None
              [RoutePoint.mk 0 0 None 0; RoutePoint.mk 3 4 None 1])
    as (distances & rows & _ & Hrows & Hmap & _ & _ & Hlast).
  exists distances, rows. split; [exact Hrows|]. split; [exact Hmap | exact Hlast].
Defined.


(** The table of the two-point example: two rows of distance 5, running
    totals 5 and 10, shown as ['5.00'] and ['10.00']. *)
Example twoPoint_table_rows :
  exists row1 row2,
    SolutionDetails.routeRows twoPointSolution None
      [RoutePoint.mk 0 0 None 0; RoutePoint.mk 3 4 None 1]
      = Some [row1; row2] /\
    SolutionDetails.row_originalIndex row1 = SolutionDetails.Num 1 /\
    SolutionDetails.row_originalIndex row2 = SolutionDetails.Num 2 /\
    SolutionDetails.row_cumulativeDistance row1 = 5 /\
    SolutionDetails.row_cumulativeDistance row2 = 10 /\
    SolutionDetails.row_segmentDistance row2 = "5.00"%string /\
    SolutionDetails.row_totalDistance row2 = "10.00"%string.
Proof.
  unfold SolutionDetails.routeRows. rewrite twoPoint_table_distances.
  cbn [bind SolutionDetails.routeRows_from nth_error].
  do 2 eexists. split; [reflexivity|].
  cbn [SolutionDetails.row_originalIndex SolutionDetails.row_cumulativeDistance
       SolutionDetails.row_segmentDistance SolutionDetails.row_totalDistance].
  split.
  { apply (originalIndex_first_match _ _ 0%nat (Point.mk 0 0 None));
      [reflexivity | | constructor].
    apply matches_tolerance. simpl. split; Rabs_case. }
  split.
  { apply (originalIndex_first_match _ _ 1%nat (Point.mk 3 4 None));
      [reflexivity | | ].
    - apply matches_tolerance. simpl. split; Rabs_case.
    - repeat constructor. unfold SolutionDetails.matches, Rltb. simpl.
      destruct (Rlt_dec (Rabs (0 - 3)) (1 / 1000)) as [Hlt|_]; [|reflexivity].
      revert Hlt. Rabs_case. }
  split; [lra|]. split; [lra|].
  unfold SolutionDetails.formatDistance.
  destruct (Req_dec_T 5 0) as [E|_]; [lra|].
  destruct (Req_dec_T (0 + 5 + 5) 0) as [E|_]; [lra|].
  split.
  - rewrite (toFixed_eval 5 2 500); [reflexivity | lra | simpl; lra].
  - rewrite (toFixed_eval (0 + 5 + 5) 2 1000); [reflexivity | lra | simpl; lra].
Qed.

(** ** Further examples *)

(** The scenario of the specification: five points visited in upload
    order. *)
Example scenario_distances :
  SolutionDetails.getRouteDistances
    [RoutePoint.mk 0 0 None 0; RoutePoint.mk 3 4 None 1;
     RoutePoint.mk 6 0 None 2; RoutePoint.mk 3 (-4) None 3;
     RoutePoint.mk (-3) 2 None 4]
  = Some [5; 5; 5; sqrt 72; sqrt 13].
Proof.
  unfold SolutionDetails.getRouteDistances. simpl.
  unfold SolutionDetails.calculateDistance. simpl.
  rewrite !sqrt_25 by lra.
  do 4 f_equal. f_equal; [f_equal; lra|].
  f_equal. f_equal. lra.
Qed.

(** A point one thousandth away on one axis is not within the tolerance: the
    comparison is strict. *)
Example tolerance_is_strict :
  SolutionDetails.matches (RoutePoint.mk 0 0 None 0)
    (Point.mk (1 / 1000) 0 None) = false /\
  SolutionDetails.matches (RoutePoint.mk 0 0 None 0)
    (Point.mk (9 / 10000) (-9 / 10000) None) = true.
Proof.
  unfold SolutionDetails.matches, Rltb. simpl. split.
  - destruct (Rlt_dec (Rabs (1 / 1000 - 0)) (1 / 1000)) as [Hlt|_];
      [|reflexivity].
    revert Hlt. Rabs_case.
  - destruct (Rlt_dec (Rabs (9 / 10000 - 0)) (1 / 1000)) as [_|Hge].
    + destruct (Rlt_dec (Rabs (-9 / 10000 - 0)) (1 / 1000)) as [_|Hge];
        [reflexivity|].
      exfalso. apply Hge. Rabs_case.
    + exfalso. apply Hge. Rabs_case.
Qed.

(** The graph draws the ring of the selected original point and the ring of
    the selected route point in one scene when both are set. *)
Example both_highlights_drawn :
  TSPVisualizationSVG.pointShapes twoPointSolution (Some 0%nat)
    (mkScaled 220 540) 0 =
    [ Circle 220 540 12 None "#3b82f6";
      Circle 220 540 8 (Some "#22c55e"%string) "#ffffff";
      Text 220 (540 - 25) "START" "#22c55e" false;
      Text 220 (540 + 20)
        (TSPVisualizationSVG.coordinateLabel (Point.mk 0 0 None)) "#3b82f6" false;
      Text 220 (540 + 4) "1" "#ffffff" false ] /\
  TSPVisualizationSVG.highlightShapes true (Some 1%nat)
    [mkScaled 220 540; mkScaled 580 60] =
    [ Circle 580 60 15 None "#22c55e";
      Text 580 (60 - 30) "ROUTE #2" "#22c55e" false ].
Proof. split; reflexivity. Qed.

(** On the 800 by 600 surface the two points of the example are 600 pixels
    apart, while the label of the segment between them reads ['5.0']: the
    label is not measured on the projection. *)
Example projected_distance_is_not_shown :
  let b := computeBounds 800 600 60 [Point.mk 0 0 None; Point.mk 3 4 None] in
  SolutionDetails.calculateDistance
    (scalePoint b (RoutePoint.mk 0 0 None 0))
    (scalePoint b (RoutePoint.mk 3 4 None 1)) = 600 /\
  SolutionDetails.calculateDistance
    (RoutePoint.mk 0 0 None 0) (RoutePoint.mk 3 4 None 1) = 5.
Proof.
  split.
  - unfold SolutionDetails.calculateDistance, scalePoint, computeBounds,
      Math_min, Math_max. simpl. Rcases.
    apply sqrt_lem_1; lra.
  - unfold SolutionDetails.calculateDistance. simpl. apply sqrt_25. lra.
Qed.

(** * Further properties of the code *)

(** ** The projection *)

Lemma Rmin_Rmax_fold : forall (l : list R) (a c : R),
  a <= c -> fold_left Rmin l a <= fold_left Rmax l c.
Proof.
  induction l as [|d l IH]; intros a c Hac; simpl; [exact Hac|].
  apply IH. apply Rle_trans with a; [apply Rmin_l|].
  apply Rle_trans with c; [exact Hac | apply Rmax_l].
Qed.

Lemma Math_min_le_max : forall (l : list R), Math_min l <= Math_max l.
Proof.
  intros [|a l]; simpl; [lra|]. apply Rmin_Rmax_fold. lra.
Qed.

Lemma computeBounds_scale_pos : forall (width height padding : R)
    (points : list Point.t),
  2 * padding < width -> 2 * padding < height ->
  0 < scale (computeBounds width height padding points).
Proof.
  intros width height padding points Hw Hh. unfold computeBounds.
  cbn [scale].
  pose proof (Math_min_le_max (map Point.x points)) as HX.
  pose proof (Math_min_le_max (map Point.y points)) as HY.
  destruct (or_else_1_range
              (Math_max (map Point.x points) - Math_min (map Point.x points)))
    as (HrX & _); [lra|].
  destruct (or_else_1_range
              (Math_max (map Point.y points) - Math_min (map Point.y points)))
    as (HrY & _); [lra|].
  apply Rmin_glb_lt; apply Rdiv_lt_0_compat; lra.
Qed.

(** X1.  The projection scales both axes by the same factor: two projected
    points are [|scale|] times as far apart as the points they come from. *)
Theorem projection_scales_distances :
  forall (b : Bounds) {A B : Type} `{XY A} `{XY B} (p : A) (q : B),
    SolutionDetails.calculateDistance (scalePoint b p) (scalePoint b q) =
    Rabs (scale b) * SolutionDetails.calculateDistance p q.
Proof.
  intros b A B HA HB p q.
  unfold SolutionDetails.calculateDistance, scalePoint. simpl.
  replace ((x q * scale b + offsetX b - (x p * scale b + offsetX b)) *
           (x q * scale b + offsetX b - (x p * scale b + offsetX b)) +
           (svgHeight b - (y q * scale b + offsetY b) -
            (svgHeight b - (y p * scale b + offsetY b))) *
           (svgHeight b - (y q * scale b + offsetY b) -
            (svgHeight b - (y p * scale b + offsetY b))))
    with (Rsqr (scale b) *
          ((x q - x p) * (x q - x p) + (y q - y p) * (y q - y p)))
    by (unfold Rsqr; ring).
  rewrite sqrt_mult; [| apply Rle_0_sqr |].
  - rewrite sqrt_Rsqr_abs. reflexivity.
  - pose proof (Rle_0_sqr (x q - x p)) as Hx.
    pose proof (Rle_0_sqr (y q - y p)) as Hy.
    unfold Rsqr in Hx, Hy. lra.
Qed.

(** X2.  On an axis along which the points are not all equal, the middle of
    the bounding box is drawn at the middle of the surface. *)
Theorem projection_centres_bounding_box :
  forall (width height padding : R) (points : list Point.t) {A : Type} `{XY A}
         (p : A),
    let b := computeBounds width height padding points in
    (minX b < maxX b -> x p = (minX b + maxX b) / 2 ->
     scaled_x (scalePoint b p) = width / 2) /\
    (minY b < maxY b -> y p = (minY b + maxY b) / 2 ->
     scaled_y (scalePoint b p) = height / 2).
Proof.
  intros width height padding points A HA p b. subst b.
  unfold scalePoint, computeBounds.
  cbn [minX maxX minY maxY scale offsetX offsetY svgHeight scaled_x scaled_y].
  set (mnX := Math_min (map Point.x points)).
  set (mxX := Math_max (map Point.x points)).
  set (mnY := Math_min (map Point.y points)).
  set (mxY := Math_max (map Point.y points)).
  split; intros Hlt Hp; rewrite Hp.
  - rewrite (or_else_nonzero (mxX - mnX) 1) by lra. field.
  - rewrite (or_else_nonzero (mxY - mnY) 1) by lra. field.
Qed.

Lemma projection_centres_bounding_box_witness :
  let b := computeBounds 800 600 60 [Point.mk 0 0 None; Point.mk 3 4 None] in
  minX b < maxX b /\
  scaled_x (scalePoint b (Point.mk (3 / 2) 2 None)) = 800 / 2.
Proof.
  intros b.
  assert (Hmin : minX b = 0)
    by (unfold b, computeBounds, Math_min; simpl; Rcases; reflexivity).
  assert (Hmax : maxX b = 3)
    by (unfold b, computeBounds, Math_max; simpl; Rcases; reflexivity).
  assert (Hlt : minX b < maxX b) by (rewrite Hmin, Hmax; lra).
  split; [exact Hlt|].
  refine (proj1 (projection_centres_bounding_box 800 600 60
                   [Point.mk 0 0 None; Point.mk 3 4 None]
                   (Point.mk (3 / 2) 2 None)) Hlt _).
  fold b. rewrite Hmin, Hmax. simpl. lra.
Defined.

(** X3.  A solution of a single point is not drawn at the middle of the
    surface: both ranges are replaced by 1, the scale is the smaller padded
    dimension [s], and the point lands at [((width - s) / 2, (height + s) / 2)]
    whatever its coordinates; in the graph that is (160, 540). *)
Theorem single_point_position :
  forall (width height padding : R) (p : Point.t),
    let s := Rmin (width - 2 * padding) (height - 2 * padding) in
    scalePoint (computeBounds width height padding [p]) p =
      mkScaled ((width - s) / 2) ((height + s) / 2) /\
    scalePoint (computeBounds 800 600 60 [p]) p = mkScaled 160 540.
Proof.
  assert (Hgen : forall width height padding p,
    scalePoint (computeBounds width height padding [p]) p =
      mkScaled
        ((width - Rmin (width - 2 * padding) (height - 2 * padding)) / 2)
        ((height + Rmin (width - 2 * padding) (height - 2 * padding)) / 2)).
  { intros width height padding p.
    unfold scalePoint, computeBounds, Math_min, Math_max. simpl.
    rewrite !(or_else_zero (_ - _) 1) by lra.
    replace ((width - 2 * padding) / 1) with (width - 2 * padding) by field.
    replace ((height - 2 * padding) / 1) with (height - 2 * padding) by field.
    f_equal; field. }
  intros width height padding p s. split; [apply Hgen|].
  rewrite Hgen. rewrite Rmin_right by lra. f_equal; lra.
Qed.

(** X4.  When twice the padding is less than the width and the height, the
    projection keeps the order of the x coordinates, reverses the order of
    the y coordinates, and can be undone: the coordinates of a point are
    recovered from those of its projection. *)
Theorem projection_invertible :
  forall {A B : Type} `{XY A} `{XY B} (width height padding : R)
         (points : list Point.t) (p : A) (q : B),
    2 * padding < width -> 2 * padding < height ->
    let b := computeBounds width height padding points in
    (x p < x q <-> scaled_x (scalePoint b p) < scaled_x (scalePoint b q)) /\
    (y p < y q <-> scaled_y (scalePoint b q) < scaled_y (scalePoint b p)) /\
    x p = (scaled_x (scalePoint b p) - offsetX b) / scale b /\
    y p = (svgHeight b - scaled_y (scalePoint b p) - offsetY b) / scale b.
Proof.
  intros A B HA HB width height padding points p q Hw Hh b.
  pose proof (computeBounds_scale_pos width height padding points Hw Hh) as Hs.
  fold b in Hs. unfold scalePoint. cbn [scaled_x scaled_y].
  split; [split; intros Hlt; nra|].
  split; [split; intros Hlt; nra|].
  split; field; lra.
Qed.

Lemma projection_invertible_witness :
  2 * 60 < 800 /\ 2 * 60 < 600 /\
  let b := computeBounds 800 600 60 [Point.mk 0 0 None; Point.mk 3 4 None] in
  Point.x (Point.mk 3 4 None) =
    (scaled_x (scalePoint b (Point.mk 3 4 None)) - offsetX b) / scale b.
Proof.
  assert (Hw : 2 * 60 < 800) by lra.
  assert (Hh : 2 * 60 < 600) by lra.
  split; [exact Hw|]. split; [exact Hh|].
  intros b.
  exact (proj1 (proj2 (proj2 (projection_invertible 800 600 60
           [Point.mk 0 0 None; Point.mk 3 4 None]
           (Point.mk 3 4 None) (Point.mk 3 4 None) Hw Hh)))).
Defined.

(** ** The size of the canvas *)

(** X5.  [handleResize] always gives a 4:3 surface no wider than 800: the
    cap of 600 on the height never takes effect, a container of 832 pixels
    or more gives 800 by 600, and a narrower one gives its width less 32. *)
Theorem handleResize_aspect : forall (clientWidth : R),
  let d := TSPVisualization.handleResize clientWidth in
  TSPVisualization.width d <= 800 /\
  TSPVisualization.height d = TSPVisualization.width d * (75 / 100) /\
  TSPVisualization.height d <= 600 /\
  (832 <= clientWidth ->
   TSPVisualization.width d = 800 /\ TSPVisualization.height d = 600) /\
  (clientWidth <= 832 -> TSPVisualization.width d = clientWidth - 32).
Proof.
  intros clientWidth d. subst d. unfold TSPVisualization.handleResize.
  cbn [TSPVisualization.width TSPVisualization.height].
  pose proof (Rmin_r (clientWidth - 32) 800) as Hw.
  set (w := Rmin (clientWidth - 32) 800) in *.
  assert (Hh : Rmin (w * (75 / 100)) 600 = w * (75 / 100))
    by (apply Rmin_left; lra).
  rewrite Hh.
  split; [exact Hw|]. split; [reflexivity|]. split; [lra|].
  split; intros Hc.
  - assert (w = 800) by (unfold w; apply Rmin_right; lra). split; lra.
  - unfold w. apply Rmin_left. lra.
Qed.

Lemma handleResize_aspect_witness :
  832 <= 1000 /\
  TSPVisualization.width (TSPVisualization.handleResize 1000) = 800 /\
  TSPVisualization.height (TSPVisualization.handleResize 1000) = 600.
Proof.
  assert (H : 832 <= 1000) by lra.
  split; [exact H|].
  exact (proj1 (proj2 (proj2 (proj2 (handleResize_aspect 1000)))) H).
Defined.

(** ** The route as it is drawn *)

Lemma tourLines_closed : forall (sr : list Scaled), closedChain (tourLines sr).
Proof.
  intros sr i x1 y1 x2 y2 x3 y3 x4 y4 Hi Hnext.
  rewrite tourLines_length in Hnext.
  assert (Hlt : (i < length sr)%nat).
  { rewrite <- tourLines_length. apply nth_error_Some. congruence. }
  assert (Hlt' : ((i + 1) mod length sr < length sr)%nat)
    by (apply Nat.mod_upper_bound; lia).
  destruct (nth_error sr i) as [c|] eqn:Ec;
    [| apply nth_error_None in Ec; lia].
  destruct (nth_error sr ((i + 1) mod length sr)) as [n|] eqn:En;
    [| apply nth_error_None in En; lia].
  assert (Hlt'' : ((((i + 1) mod length sr) + 1) mod length sr < length sr)%nat)
    by (apply Nat.mod_upper_bound; lia).
  destruct (nth_error sr ((((i + 1) mod length sr) + 1) mod length sr))
    as [n'|] eqn:En'; [| apply nth_error_None in En'; lia].
  rewrite (tourLines_nth sr i c n Ec En) in Hi.
  rewrite (tourLines_nth sr _ n n' En En') in Hnext.
  injection Hi as _ _ <- <-. injection Hnext as <- <- _ _.
  split; reflexivity.
Qed.

Lemma closedChain_nil : closedChain [].
Proof. intros i x1 y1 x2 y2 x3 y3 x4 y4 Hi. destruct i; discriminate. Qed.

(** X6.  In both renderers the route lines form a closed chain: each line
    ends where the next one starts and the last one ends where the first one
    starts.  When the route is shown, has at least two points and there are
    original points, there is one line per route point, and line [i] starts
    at the projection of route point [i]. *)
Theorem route_drawn_as_closed_tour :
  forall (w h pad : R) (measureText : string -> R) (darkMode : bool)
         (sol : TSPSolution) (showRoute : bool) (selO selR : option nat),
  exists vw vh svgShapes canvasShapes,
    TSPVisualizationSVG.render_at w h pad darkMode
      (TSPVisualizationSVG.mkProps (Some sol) showRoute selO selR)
      = Some (TSPVisualizationSVG.Svg vw vh svgShapes) /\
    TSPVisualization.draw_at pad measureText w h darkMode (Some sol) showRoute
      = Some canvasShapes /\
    closedChain (routeLines svgShapes) /\
    closedChain (routeLines canvasShapes) /\
    (forall (ops : list Point.t) (r : list RoutePoint.t),
       originalPoints sol = Some ops -> ops <> [] ->
       route sol = Some r -> (1 < length r)%nat -> showRoute = true ->
       length (routeLines svgShapes) = length r /\
       length (routeLines canvasShapes) = length r /\
       forall i rp, nth_error r i = Some rp ->
         exists x2 y2,
           nth_error (routeLines svgShapes) i =
             Some (x (scalePoint (computeBounds w h pad ops) rp),
                   y (scalePoint (computeBounds w h pad ops) rp), x2, y2) /\
           nth_error (routeLines canvasShapes) i =
             Some (x (scalePoint (computeBounds w h pad ops) rp),
                   y (scalePoint (computeBounds w h pad ops) rp), x2, y2)).
Proof.
  intros w h pad measureText darkMode sol showRoute selO selR.
  destruct (svg_render_at_scene w h pad darkMode
              (TSPVisualizationSVG.mkProps (Some sol) showRoute selO selR)
              sol eq_refl)
    as (memo & vw & vh & svgShapes & Hmemo & Hrender & _ & _ & Hlines & _).
  destruct (canvas_draw_at_scene pad measureText w h darkMode sol showRoute)
    as (canvasShapes & Hdraw & _ & _ & Hlines' & _).
  destruct (svg_useMemo_at_scaled w h pad sol memo Hmemo) as (_ & Hsr).
  cbn [TSPVisualizationSVG.showRoute] in Hlines.
  exists vw, vh, svgShapes, canvasShapes.
  split; [exact Hrender|]. split; [exact Hdraw|].
  split.
  { rewrite Hlines.
    match goal with |- closedChain (if ?c then _ else _) => case c end;
      [apply tourLines_closed | apply closedChain_nil]. }
  split.
  { rewrite Hlines'.
    match goal with |- closedChain (if ?c then _ else _) => case c end;
      [apply closedChain_nil|].
    match goal with |- closedChain (if ?c then _ else _) => case c end;
      [apply tourLines_closed | apply closedChain_nil]. }
  intros ops r Hops Hne Hr Hlen Hshow.
  rewrite Hops, Hr in Hsr, Hlines'. rewrite Hsr in Hlines.
  destruct ops as [|op ops]; [contradiction|].
  cbn [length Nat.eqb] in Hlines, Hlines'. rewrite length_map in Hlines.
  subst showRoute. destruct (Nat.ltb_spec 1 (length r)); [|lia].
  cbn [andb] in Hlines, Hlines'.
  rewrite Hlines, Hlines', tourLines_length, length_map.
  split; [reflexivity|]. split; [reflexivity|].
  intros i rp Hi.
  assert (Hlt : (i < length r)%nat) by (apply nth_error_Some; congruence).
  destruct (nth_error r ((i + 1) mod length r)) as [rn|] eqn:En.
  2:{ apply nth_error_None in En.
      pose proof (Nat.mod_upper_bound (i + 1) (length r)). lia. }
  set (b := computeBounds w h pad (op :: ops)).
  exists (x (scalePoint b rn)), (y (scalePoint b rn)).
  assert (Hline : nth_error (tourLines (map (scalePoint b) r)) i =
            Some (x (scalePoint b rp), y (scalePoint b rp),
                  x (scalePoint b rn), y (scalePoint b rn))).
  { apply tourLines_nth.
    - rewrite nth_error_map, Hi. reflexivity.
    - rewrite length_map, nth_error_map, En. reflexivity. }
  split; exact Hline.
Qed.

Lemma route_drawn_as_closed_tour_witness :
  exists vw vh svgShapes,
    TSPVisualizationSVG.render_at 800 600 60 false
      (TSPVisualizationSVG.mkProps (Some twoPointSolution) true None None)
      = Some (TSPVisualizationSVG.Svg vw vh svgShapes) /\
    length (routeLines svgShapes) = 2%nat.
Proof.
  destruct (route_drawn_as_closed_tour 800 600 60 (fun _ => 30) false
              twoPointSolution true None None)
    as (vw & vh & svgShapes & canvasShapes & Hrender & _ & _ & _ & Hcount).
  exists vw, vh, svgShapes. split; [exact Hrender|].
  refine (proj1 (Hcount [Point.mk 0 0 None; Point.mk 3 4 None]
                   [RoutePoint.mk 0 0 None 0; RoutePoint.mk 3 4 None 1]
                   eq_refl _ eq_refl _ eq_refl)).
  - discriminate.
  - simpl. lia.
Defined.

(** ** Selections and flags in the graph *)

Lemma option_nat_eqb_Some : forall (i index : nat),
  SolutionDetails.option_nat_eqb (Some i) index = true <-> i = index.
Proof. intros i index. simpl. apply Nat.eqb_eq. Qed.

Lemma svg_pointShapes_unselected : forall (sol : TSPSolution) (i index : nat)
    (point : Scaled),
  i <> index ->
  TSPVisualizationSVG.pointShapes sol (Some i) point index =
  TSPVisualizationSVG.pointShapes sol None point index.
Proof.
  intros sol i index point Hne. unfold TSPVisualizationSVG.pointShapes.
  assert (E : SolutionDetails.option_nat_eqb (Some i) index = false).
  { simpl. apply Nat.eqb_neq, Hne. }
  rewrite E. reflexivity.
Qed.

Lemma svg_highlightShapes_out_of_range : forall (showRoute : bool) (k : nat)
    (scaledRoute : list Scaled),
  (length scaledRoute <= k)%nat ->
  TSPVisualizationSVG.highlightShapes showRoute (Some k) scaledRoute = [].
Proof.
  intros showRoute k scaledRoute Hk. unfold TSPVisualizationSVG.highlightShapes.
  destruct (nth_error scaledRoute k) eqn:E; [|reflexivity].
  assert (k < length scaledRoute)%nat by (apply nth_error_Some; congruence). lia.
Qed.

Lemma svg_highlightShapes_hidden : forall (sel : option nat)
    (scaledRoute : list Scaled),
  TSPVisualizationSVG.highlightShapes false sel scaledRoute = [].
Proof.
  intros [k|] scaledRoute; [|reflexivity]. simpl.
  destruct (nth_error scaledRoute k); reflexivity.
Qed.

(** X7.  A selection that points past the end of its array is drawn like no
    selection at all: with an original-point index beyond the original
    points and a route index beyond the route, the graph is the one drawn
    with both selections empty. *)
Theorem stale_selection_draws_nothing :
  forall (w h pad : R) (darkMode : bool) (sol : TSPSolution) (showRoute : bool)
         (i k : nat),
    (length (match originalPoints sol with Some a => a | None => [] end)
       <= i)%nat ->
    (length (match route sol with Some a => a | None => [] end) <= k)%nat ->
    TSPVisualizationSVG.render_at w h pad darkMode
      (TSPVisualizationSVG.mkProps (Some sol) showRoute (Some i) (Some k)) =
    TSPVisualizationSVG.render_at w h pad darkMode
      (TSPVisualizationSVG.mkProps (Some sol) showRoute None None).
Proof.
  intros w h pad darkMode sol showRoute i k Hi Hk.
  unfold TSPVisualizationSVG.render_at.
  cbn [TSPVisualizationSVG.solution TSPVisualizationSVG.showRoute
       TSPVisualizationSVG.selectedOriginalPoint
       TSPVisualizationSVG.selectedRoutePoint].
  destruct (TSPVisualizationSVG.useMemo_at w h pad (Some sol))
    as [memo|] eqn:Hmemo; [|reflexivity].
  cbn [bind].
  destruct (svg_useMemo_at_scaled w h pad sol memo Hmemo) as (Hsp & Hsr).
  destruct (TSPVisualizationSVG.routeShapes showRoute
              (TSPVisualizationSVG.scaledRoute memo)
              (TSPVisualizationSVG.routeDistances memo)) as [segments|];
    [|reflexivity].
  cbn [bind]. do 3 f_equal. f_equal. f_equal; [f_equal|].
  - unfold Array_map. apply map_from_ext_in. intros j p Hj.
    apply svg_pointShapes_unselected.
    assert (Hlt : (j < length (TSPVisualizationSVG.scaledPoints memo))%nat)
      by (apply nth_error_Some; congruence).
    rewrite Hsp in Hlt. destruct (Nat.eqb _ 0) in Hlt; simpl in Hlt; [lia|].
    rewrite length_map in Hlt. simpl. lia.
  - rewrite svg_highlightShapes_out_of_range; [reflexivity|].
    rewrite Hsr. destruct (Nat.eqb _ 0); simpl; [lia|].
    rewrite length_map. exact Hk.
Qed.

Lemma stale_selection_draws_nothing_witness :
  (length (match originalPoints onePointSolution with
           | Some a => a | None => [] end) <= 4)%nat /\
  TSPVisualizationSVG.render_at 800 600 60 false
    (TSPVisualizationSVG.mkProps (Some onePointSolution) true (Some 4%nat)
       (Some 1%nat)) =
  TSPVisualizationSVG.render_at 800 600 60 false
    (TSPVisualizationSVG.mkProps (Some onePointSolution) true None None).
Proof.
  assert (H1 : (length (match originalPoints onePointSolution with
                        | Some a => a | None => [] end) <= 4)%nat)
    by (simpl; lia).
  assert (H2 : (length (match route onePointSolution with
                        | Some a => a | None => [] end) <= 1)%nat)
    by (simpl; lia).
  split; [exact H1|].
  exact (stale_selection_draws_nothing 800 600 60 false onePointSolution true
           4 1 H1 H2).
Defined.

(** X8.  With [showRoute] off nothing of the route reaches the surface: the
    graph and the canvas are the same for any two routes, and the graph is
    the same whatever route point is selected. *)
Theorem hidden_route_leaves_no_trace :
  forall (w h pad : R) (measureText : string -> R) (darkMode : bool)
         (sol : TSPSolution) (r' : option (list RoutePoint.t))
         (selO selR : option nat),
    let sol' := mkTSPSolution (id sol) (pointCount sol) (status sol)
                  (totalDistance sol) r' (originalPoints sol) in
    TSPVisualizationSVG.render_at w h pad darkMode
      (TSPVisualizationSVG.mkProps (Some sol) false selO selR) =
    TSPVisualizationSVG.render_at w h pad darkMode
      (TSPVisualizationSVG.mkProps (Some sol') false selO None) /\
    TSPVisualization.draw_at pad measureText w h darkMode (Some sol) false =
    TSPVisualization.draw_at pad measureText w h darkMode (Some sol') false.
Proof.
  intros w h pad measureText darkMode sol r' selO selR sol'.
  split.
  - unfold TSPVisualizationSVG.render_at, TSPVisualizationSVG.useMemo_at.
    cbn [TSPVisualizationSVG.solution TSPVisualizationSVG.showRoute
         TSPVisualizationSVG.selectedOriginalPoint
         TSPVisualizationSVG.selectedRoutePoint].
    subst sol'. cbn [originalPoints route].
    destruct (Nat.eqb _ 0);
      rewrite ?svg_distancesOf_map; cbn [bind];
      unfold TSPVisualizationSVG.routeShapes, TSPVisualizationSVG.emptyMemo;
      cbn [andb bind TSPVisualizationSVG.bounds TSPVisualizationSVG.scaledPoints
           TSPVisualizationSVG.scaledRoute];
      rewrite !svg_highlightShapes_hidden; reflexivity.
  - unfold TSPVisualization.draw_at. subst sol'. cbn [originalPoints route andb].
    reflexivity.
Qed.

(** X9.  Both renderers put one marker per original point, in upload order,
    at the projection of the point, and colour the first uploaded point
    green and every other one blue, whatever the route and the selection
    are: the green start marker is original point 1, not the first point of
    the route. *)
Theorem markers_follow_upload_order :
  forall (w h pad : R) (measureText : string -> R) (darkMode : bool)
         (sol : TSPSolution) (showRoute : bool) (selO selR : option nat),
  exists vw vh svgShapes canvasShapes,
    TSPVisualizationSVG.render_at w h pad darkMode
      (TSPVisualizationSVG.mkProps (Some sol) showRoute selO selR)
      = Some (TSPVisualizationSVG.Svg vw vh svgShapes) /\
    TSPVisualization.draw_at pad measureText w h darkMode (Some sol) showRoute
      = Some canvasShapes /\
    markers canvasShapes = markers svgShapes /\
    markers svgShapes =
      map_from (fun p index =>
        (x (scalePoint (computeBounds w h pad
              (match originalPoints sol with Some a => a | None => [] end)) p),
         y (scalePoint (computeBounds w h pad
              (match originalPoints sol with Some a => a | None => [] end)) p),
         if Nat.eqb index 0 then "#22c55e"%string else "#3b82f6"%string))
        0 (match originalPoints sol with Some a => a | None => [] end).
Proof.
  intros w h pad measureText darkMode sol showRoute selO selR.
  destruct (svg_render_at_scene w h pad darkMode
              (TSPVisualizationSVG.mkProps (Some sol) showRoute selO selR)
              sol eq_refl)
    as (memo & vw & vh & svgShapes & Hmemo & Hrender & _ & _ & _ & Hmarkers).
  destruct (canvas_draw_at_scene pad measureText w h darkMode sol showRoute)
    as (canvasShapes & Hdraw & _ & _ & _ & Hmarkers').
  destruct (svg_useMemo_at_scaled w h pad sol memo Hmemo) as (Hsp & _).
  exists vw, vh, svgShapes, canvasShapes.
  split; [exact Hrender|]. split; [exact Hdraw|].
  rewrite Hmarkers, Hmarkers', Hsp.
  destruct (match originalPoints sol with Some a => a | None => [] end)
    as [|op ops]; [split; reflexivity|].
  cbn [length Nat.eqb]. rewrite map_from_map. split; reflexivity.
Qed.

(** X10.  Without original points (the array missing or empty) the graph
    still shows its background, grid and the two axis captions on the
    default 800 by 600 view box, and nothing else; the canvas only clears
    its background and draws neither grid nor captions. *)
Theorem no_points_scene :
  forall (w h pad : R) (measureText : string -> R) (darkMode : bool)
         (sol : TSPSolution) (showRoute : bool) (selO selR : option nat),
    match originalPoints sol with Some a => a | None => [] end = [] ->
    TSPVisualizationSVG.render_at w h pad darkMode
      (TSPVisualizationSVG.mkProps (Some sol) showRoute selO selR) =
      Some (TSPVisualizationSVG.Svg 800 600
        [ Background (if darkMode then "#1e293b" else "#ffffff");
          GridPattern 80 60 (if darkMode then "#334155" else "#f3f4f6");
          Text 400 590 "X Coordinate"
            (if darkMode then "#94a3b8" else "#6b7280") false;
          Text 15 300 "Y Coordinate"
            (if darkMode then "#94a3b8" else "#6b7280") true ]) /\
    TSPVisualization.draw_at pad measureText w h darkMode (Some sol) showRoute =
      Some [Background (if darkMode then "#1e293b" else "#ffffff")].
Proof.
  intros w h pad measureText darkMode sol showRoute selO selR Hempty.
  split.
  - unfold TSPVisualizationSVG.render_at, TSPVisualizationSVG.useMemo_at.
    cbn [TSPVisualizationSVG.solution TSPVisualizationSVG.showRoute
         TSPVisualizationSVG.selectedOriginalPoint
         TSPVisualizationSVG.selectedRoutePoint].
    rewrite Hempty. cbn [length Nat.eqb bind].
    unfold TSPVisualizationSVG.routeShapes, TSPVisualizationSVG.emptyMemo.
    cbn [TSPVisualizationSVG.bounds TSPVisualizationSVG.scaledPoints
         TSPVisualizationSVG.scaledRoute length Nat.ltb Nat.leb].
    rewrite andb_false_r. cbn [bind Array_map map_from concat app].
    destruct selR as [k|]; [|reflexivity].
    unfold TSPVisualizationSVG.highlightShapes.
    destruct k; reflexivity.
  - unfold TSPVisualization.draw_at. rewrite Hempty. reflexivity.
Qed.

Lemma no_points_scene_witness :
  let sol := mkTSPSolution "3" 3 UPLOADED None None (Some []) in
  match originalPoints sol with Some a => a | None => [] end = [] /\
  TSPVisualization.draw_at 40 (fun _ => 30) 600 400 false (Some sol) true =
    Some [Background "#ffffff"].
Proof.
  intros sol.
  assert (H : match originalPoints sol with Some a => a | None => [] end = [])
    by reflexivity.
  split; [exact H|].
  exact (proj2 (no_points_scene 600 400 40 (fun _ => 30) false sol true
                  None None H)).
Defined.

(** ** The graph and the table on the same route *)

Lemma routeRows_distances : forall (solution : TSPSolution) (sel : option nat)
    (r : list RoutePoint.t),
  exists distances rows,
    SolutionDetails.getRouteDistances r = Some distances /\
    SolutionDetails.routeRows solution sel r = Some rows /\
    map SolutionDetails.row_distance rows = distances /\
    forall i row, nth_error rows i = Some row ->
      SolutionDetails.row_segmentDistance row =
        SolutionDetails.formatDistance (Some (SolutionDetails.row_distance row)).
Proof.
  intros solution sel r.
  destruct (getRouteDistances_nonneg r) as (distances & Hd & Hlen & _).
  destruct (routeRows_from_inv (originalPoints solution) (length r) sel
              distances r 0%nat 0)
    as (rows & Hrows & Hl & Hrow); [simpl; lia | reflexivity |].
  exists distances, rows.
  split; [exact Hd|]. split.
  { unfold SolutionDetails.routeRows. rewrite Hd. exact Hrows. }
  split.
  { apply nth_error_ext. intros i. rewrite nth_error_map.
    destruct (nth_error rows i) as [row|] eqn:Ei; simpl.
    - symmetry. apply (Hrow i row Ei).
    - symmetry. apply nth_error_None. apply nth_error_None in Ei. lia. }
  intros i row Hi. apply (Hrow i row Hi).
Qed.

(** X11.  For a shown route of at least two points the labels of the graph
    are made, in route order, from the very distances the rows of the table
    show; only the formatting differs.  In particular a segment of length
    zero is labelled ['0.0'] in the graph while its table cell reads
    ['N/A']. *)
Theorem graph_labels_match_table :
  forall (w h pad : R) (darkMode : bool) (sol : TSPSolution)
         (selO selR tableSel : option nat)
         (ops : list Point.t) (r : list RoutePoint.t),
    originalPoints sol = Some ops -> ops <> [] ->
    route sol = Some r -> (1 < length r)%nat ->
    exists vw vh shapes rows,
      TSPVisualizationSVG.render_at w h pad darkMode
        (TSPVisualizationSVG.mkProps (Some sol) true selO selR)
        = Some (TSPVisualizationSVG.Svg vw vh shapes) /\
      SolutionDetails.routeRows sol tableSel r = Some rows /\
      distanceLabels shapes =
        map (fun row => TSPVisualizationSVG.distanceLabel
                          (Some (SolutionDetails.row_distance row))) rows /\
      (forall i row, nth_error rows i = Some row ->
         SolutionDetails.row_distance row = 0 ->
         SolutionDetails.row_segmentDistance row = "N/A"%string /\
         nth_error (distanceLabels shapes) i = Some "0.0"%string).
Proof.
  intros w h pad darkMode sol selO selR tableSel ops r Hops Hne Hr Hlen.
  destruct (svg_render_at_scene w h pad darkMode
              (TSPVisualizationSVG.mkProps (Some sol) true selO selR)
              sol eq_refl)
    as (memo & vw & vh & shapes & Hmemo & Hrender & _ & Hlabels & _).
  destruct (svg_useMemo_at_total w h pad sol)
    as (memo' & Hmemo' & Hdist & Hn).
  rewrite Hmemo in Hmemo'. injection Hmemo' as <-.
  destruct (routeRows_distances sol tableSel r)
    as (distances & rows & Hd & Hrows & Hmap & Hcell).
  rewrite Hops, Hr in Hdist, Hn.
  destruct ops as [|op ops]; [contradiction|].
  cbn [length Nat.eqb] in Hdist, Hn.
  rewrite (svg_distancesOf_table r Hlen), Hd in Hdist.
  injection Hdist as Hdist.
  assert (Hdlen : length distances = length r).
  { rewrite <- Hmap, length_map.
    destruct (routeRows_row sol tableSel r) as (rows' & Hrows' & Hl & _).
    rewrite Hrows in Hrows'. injection Hrows' as <-. exact Hl. }
  cbn [TSPVisualizationSVG.showRoute] in Hlabels.
  rewrite Hn in Hlabels. destruct (Nat.ltb_spec 1 (length r)); [|lia].
  cbn [andb] in Hlabels.
  rewrite <- Hdist, <- Hdlen, tourLabels_all, <- Hmap, map_map in Hlabels.
  exists vw, vh, shapes, rows.
  split; [exact Hrender|]. split; [exact Hrows|]. split; [exact Hlabels|].
  intros i row Hi Hzero. split.
  - rewrite (Hcell i row Hi), Hzero. unfold SolutionDetails.formatDistance.
    destruct (Req_dec_T 0 0); [reflexivity | contradiction].
  - rewrite Hlabels, nth_error_map, Hi. simpl. rewrite Hzero.
    unfold TSPVisualizationSVG.distanceLabel.
    destruct (Req_dec_T 0 0); [reflexivity | contradiction].
Qed.

Lemma graph_labels_match_table_witness :
  exists vw vh shapes rows,
    TSPVisualizationSVG.render_at 800 600 60 false
      (TSPVisualizationSVG.mkProps (Some twoPointSolution) true None None)
      = Some (TSPVisualizationSVG.Svg vw vh shapes) /\
    SolutionDetails.routeRows twoPointSolution None
      [RoutePoint.mk 0 0 None 0; RoutePoint.mk 3 4 None 1] = Some rows /\
    distanceLabels shapes =
      map (fun row => TSPVisualizationSVG.distanceLabel
                        (Some (SolutionDetails.row_distance row))) rows.
Proof.
  assert (Hne : [Point.mk 0 0 None; Point.mk 3 4 None] <> [])
    by discriminate.
  assert (Hlen : (1 < length [RoutePoint.mk 0 0 None 0;
                              RoutePoint.mk 3 4 None 1])%nat)
    by (simpl; lia).
  destruct (graph_labels_match_table 800 600 60 false twoPointSolution
              None None None _ _ eq_refl Hne eq_refl Hlen)
    as (vw & vh & shapes & rows & H1 & H2 & H3 & _).
  exists vw, vh, shapes, rows. split; [exact H1|]. split; [exact H2 | exact H3].
Defined.

(** ** The "Original #" column *)

(** X12.  The "Original #" of a route point is always a number between 0
    and the number of original points: it is 0 exactly when no original
    point lies within the tolerance, and it is [k + 1] exactly when original
    point [k] lies within the tolerance and none before it does, so of
    several original points within the tolerance only the first is ever
    named. *)
Theorem originalIndex_characterised :
  forall {A : Type} `{XY A} (ops : list Point.t) (point : A),
  exists n,
    SolutionDetails.originalIndex (Some ops) point = SolutionDetails.Num n /\
    (0 <= n <= Z.of_nat (length ops))%Z /\
    (n = 0%Z <->
     Forall (fun op => SolutionDetails.matches point op = false) ops) /\
    (forall k : nat,
       n = (Z.of_nat k + 1)%Z <->
       exists op,
         nth_error ops k = Some op /\
         SolutionDetails.matches point op = true /\
         Forall (fun b => SolutionDetails.matches point b = false)
           (firstn k ops)).
Proof.
  intros A HA ops point.
  destruct (findIndex_first (SolutionDetails.matches point) ops)
    as [(E & Hall) | (k & op & E & Hk & Hop & Hbefore)].
  - exists 0%Z. unfold SolutionDetails.originalIndex. rewrite E.
    split; [reflexivity|]. split; [lia|]. split; [tauto|].
    intros k'. split; [lia|].
    intros (op & Hk & Hop & _). rewrite Forall_forall in Hall.
    apply nth_error_In in Hk. rewrite (Hall op Hk) in Hop. discriminate.
  - exists (Z.of_nat k + 1)%Z. unfold SolutionDetails.originalIndex. rewrite E.
    assert (Hlt : (k < length ops)%nat) by (apply nth_error_Some; congruence).
    split; [reflexivity|]. split; [lia|]. split.
    + split; [lia|]. intros Hall. rewrite Forall_forall in Hall.
      apply nth_error_In in Hk. rewrite (Hall op Hk) in Hop. discriminate.
    + intros k'. split.
      * intros Ek. assert (k' = k) by lia. subst k'. exists op. auto.
      * intros (op' & Hk' & Hop' & Hbefore').
        pose proof (originalIndex_first_match ops point k' op' Hk' Hop' Hbefore')
          as E'.
        unfold SolutionDetails.originalIndex in E'. rewrite E in E'.
        injection E' as E'. lia.
Qed.

Lemma originalIndex_characterised_witness :
  exists n,
    SolutionDetails.originalIndex
      (Some [Point.mk 0 0 None; Point.mk 3 4 None])
      (RoutePoint.mk 3 4 None 1) = SolutionDetails.Num n /\
    (0 <= n <= 2)%Z.
Proof.
  destruct (originalIndex_characterised
              [Point.mk 0 0 None; Point.mk 3 4 None] (RoutePoint.mk 3 4 None 1))
    as (n & Hn & Hrange & _).
  exists n. split; [exact Hn | exact Hrange].
Defined.

Lemma matches_false : forall {A B : Type} `{XY A} `{XY B} (point : A) (op : B),
  1 / 1000 <= Rabs (x op - x point) \/ 1 / 1000 <= Rabs (y op - y point) ->
  SolutionDetails.matches point op = false.
Proof.
  intros A B HA HB point op Hfar.
  destruct (SolutionDetails.matches point op) eqn:E; [|reflexivity].
  apply matches_tolerance in E. lra.
Qed.

(** The cells of the route table that do not carry a distance. *)
Lemma routeRows_from_cells : forall (originalPoints : option (list Point.t))
    (n : nat) (sel : option nat) (distances : list R)
    (r : list RoutePoint.t) (index : nat) (c : R) (rows : list SolutionDetails.Row),
  SolutionDetails.routeRows_from originalPoints n sel distances index c r
    = Some rows ->
  length rows = length r /\
  forall j row point,
    nth_error rows j = Some row -> nth_error r j = Some point ->
    SolutionDetails.row_originalIndex row =
      SolutionDetails.originalIndex originalPoints point /\
    SolutionDetails.row_routeOrder row = (index + j + 1)%nat /\
    SolutionDetails.row_start row = Nat.eqb (index + j) 0 /\
    SolutionDetails.row_returnToStart row = Nat.eqb (index + j) (n - 1) /\
    SolutionDetails.row_selected row =
      SolutionDetails.option_nat_eqb sel (index + j).
Proof.
  intros ops n sel distances r.
  induction r as [|point rest IH]; intros index c rows Hrows.
  - injection Hrows as <-. split; [reflexivity|].
    intros j row p Hj. destruct j; discriminate.
  - cbn [SolutionDetails.routeRows_from] in Hrows.
    apply bind_Some in Hrows. destruct Hrows as (distance & Hd & Hrows).
    apply bind_Some in Hrows. destruct Hrows as (rows' & Hrest & Hrows).
    injection Hrows as <-.
    destruct (IH _ _ _ Hrest) as (Hlen & Hrow).
    split; [simpl; lia|].
    intros [|j] row p Hj Hp; simpl in Hj, Hp.
    + injection Hj as <-. injection Hp as <-. rewrite Nat.add_0_r.
      repeat split; reflexivity.
    + replace (index + S j)%nat with (S index + j)%nat by lia.
      apply (Hrow j row p Hj Hp).
Qed.

(** X13.  When no two original points lie within the tolerance of each
    other, the "Original #" cell gives back the position of the original
    point a route point was copied from: a row whose route point has the
    coordinates of original point [k] reads [k + 1]. *)
Theorem originalIndex_recovers_position :
  forall (sol : TSPSolution) (sel : option nat) (ops : list Point.t)
         (r : list RoutePoint.t) (i k : nat) (rp : RoutePoint.t) (op : Point.t),
    originalPoints sol = Some ops ->
    (forall j opj, (j < k)%nat -> nth_error ops j = Some opj ->
       1 / 1000 <= Rabs (Point.x opj - Point.x op) \/
       1 / 1000 <= Rabs (Point.y opj - Point.y op)) ->
    nth_error ops k = Some op ->
    nth_error r i = Some rp ->
    RoutePoint.x rp = Point.x op -> RoutePoint.y rp = Point.y op ->
    exists rows row,
      SolutionDetails.routeRows sol sel r = Some rows /\
      nth_error rows i = Some row /\
      SolutionDetails.row_originalIndex row =
        SolutionDetails.Num (Z.of_nat k + 1).
Proof.
  intros sol sel ops r i k rp op Hops Hfar Hk Hi Hx Hy.
  destruct (routeRows_row sol sel r) as (rows & Hrows & Hlen & _).
  assert (Hlt : (i < length r)%nat) by (apply nth_error_Some; congruence).
  destruct (nth_error rows i) as [row|] eqn:Erow;
    [| apply nth_error_None in Erow; lia].
  exists rows, row. split; [exact Hrows|]. split; [exact Erow|].
  unfold SolutionDetails.routeRows in Hrows.
  apply bind_Some in Hrows. destruct Hrows as (distances & _ & Hrows).
  destruct (routeRows_from_cells _ _ _ _ _ _ _ _ Hrows) as (_ & Hcells).
  destruct (Hcells i row rp Erow Hi) as (Hcell & _).
  rewrite Hcell, Hops.
  apply (originalIndex_first_match ops rp k op Hk).
  - apply matches_tolerance. simpl. rewrite Hx, Hy.
    replace (Point.x op - Point.x op) with 0 by ring.
    replace (Point.y op - Point.y op) with 0 by ring.
    rewrite Rabs_R0. lra.
  - apply Forall_forall. intros opj Hin.
    apply In_nth_error in Hin. destruct Hin as (j & Hj).
    assert (Hjk : (j < k)%nat).
    { destruct (Nat.lt_ge_cases j k) as [Hlt'|Hge]; [exact Hlt'|].
      rewrite nth_error_firstn in Hj.
      destruct (Nat.ltb_spec j k); [lia | discriminate]. }
    rewrite nth_error_firstn in Hj.
    destruct (Nat.ltb_spec j k); [|lia].
    apply matches_false. simpl. rewrite Hx, Hy. exact (Hfar j opj Hjk Hj).
Qed.

Lemma originalIndex_recovers_position_witness :
  exists rows row,
    SolutionDetails.routeRows twoPointSolution None
      [RoutePoint.mk 3 4 None 0; RoutePoint.mk 0 0 None 1] = Some rows /\
    nth_error rows 0 = Some row /\
    SolutionDetails.row_originalIndex row = SolutionDetails.Num (Z.of_nat 1 + 1).
Proof.
  refine (originalIndex_recovers_position twoPointSolution None
            [Point.mk 0 0 None; Point.mk 3 4 None]
            [RoutePoint.mk 3 4 None 0; RoutePoint.mk 0 0 None 1]
            0 1 (RoutePoint.mk 3 4 None 0) (Point.mk 3 4 None)
            eq_refl _ eq_refl eq_refl eq_refl eq_refl).
  intros j opj Hj Hopj.
  assert (j = 0%nat) by lia. subst j. simpl in Hopj.
  injection Hopj as <-. left. simpl.
  unfold Rabs. destruct (Rcase_abs (0 - 3)); lra.
Defined.

(** ** Flags and highlights of the two tables *)

Lemma filter_none : forall {A : Type} (f : A -> bool) (l : list A),
  (forall j a, nth_error l j = Some a -> f a = false) -> filter f l = [].
Proof.
  intros A f l. induction l as [|a l IH]; intros Hall; simpl; [reflexivity|].
  rewrite (Hall 0%nat a eq_refl). apply IH.
  intros j b Hj. apply (Hall (S j) b Hj).
Qed.

Lemma filter_at_most_one : forall {A : Type} (f : A -> bool) (l : list A),
  (forall j k a b, nth_error l j = Some a -> nth_error l k = Some b ->
     f a = true -> f b = true -> j = k) ->
  (length (filter f l) <= 1)%nat.
Proof.
  intros A f l. induction l as [|a l IH]; intros Huniq; simpl; [lia|].
  destruct (f a) eqn:Ea.
  - assert (Hnone : filter f l = []).
    { apply filter_none. intros j b Hj.
      destruct (f b) eqn:Eb; [|reflexivity].
      assert (0%nat = S j) by (apply (Huniq 0%nat (S j) a b); auto).
      discriminate. }
    rewrite Hnone. simpl. lia.
  - apply IH. intros j k c d Hj Hk Hc Hd.
    assert (S j = S k) by (apply (Huniq (S j) (S k) c d); assumption). lia.
Qed.

(** X14.  The rows of the route table are numbered 1, 2, ... in route
    order; the START badge is on the first row and on no other, and "Return
    to start" is on the last row and on no other, so a route of one point
    has both on its only row. *)
Theorem routeTable_flags :
  forall (sol : TSPSolution) (sel : option nat) (r : list RoutePoint.t),
  exists rows,
    SolutionDetails.routeRows sol sel r = Some rows /\
    length rows = length r /\
    forall i row, nth_error rows i = Some row ->
      SolutionDetails.row_routeOrder row = (i + 1)%nat /\
      (SolutionDetails.row_start row = true <-> i = 0%nat) /\
      (SolutionDetails.row_returnToStart row = true <->
       (i + 1)%nat = length r).
Proof.
  intros sol sel r.
  destruct (routeRows_row sol sel r) as (rows & Hrows & Hlen & _).
  exists rows. split; [exact Hrows|]. split; [exact Hlen|].
  intros i row Hi.
  assert (Hlt : (i < length r)%nat).
  { rewrite <- Hlen. apply nth_error_Some. congruence. }
  destruct (nth_error r i) as [point|] eqn:Ep;
    [| apply nth_error_None in Ep; lia].
  unfold SolutionDetails.routeRows in Hrows.
  apply bind_Some in Hrows. destruct Hrows as (distances & _ & Hrows).
  destruct (routeRows_from_cells _ _ _ _ _ _ _ _ Hrows) as (_ & Hcells).
  destruct (Hcells i row point Hi Ep) as (_ & Ho & Hs & Hr & _).
  simpl in Ho, Hs, Hr. rewrite Ho, Hs, Hr.
  split; [reflexivity|]. split; [apply Nat.eqb_eq|].
  rewrite Nat.eqb_eq. lia.
Qed.

(** X15.  In each of the two tables the highlighted row is the row the
    selection names, and there is never more than one: a selection that
    names no row highlights nothing. *)
Theorem tables_highlight_one_row :
  forall (sol : TSPSolution) (selO selR : option nat)
         (ops : list Point.t) (r : list RoutePoint.t)
         (rows : list SolutionDetails.Row),
    SolutionDetails.routeRows sol selR r = Some rows ->
    (forall i row, nth_error rows i = Some row ->
       (SolutionDetails.row_selected row = true <-> selR = Some i)) /\
    (length (filter SolutionDetails.row_selected rows) <= 1)%nat /\
    (forall i row, nth_error (OriginalPointsTable.rows ops selO) i = Some row ->
       (OriginalPointsTable.row_selected row = true <-> selO = Some i)) /\
    (length (filter OriginalPointsTable.row_selected
               (OriginalPointsTable.rows ops selO)) <= 1)%nat.
Proof.
  intros sol selO selR ops r rows Hrows.
  assert (Hsel : forall (s : option nat) (i : nat),
            SolutionDetails.option_nat_eqb s i = true <-> s = Some i).
  { intros [k|] i; simpl; [|split; discriminate].
    rewrite Nat.eqb_eq. split; [intros ->; reflexivity | intros E; now injection E]. }
  assert (Hroute : forall i row, nth_error rows i = Some row ->
            (SolutionDetails.row_selected row = true <-> selR = Some i)).
  { intros i row Hi.
    unfold SolutionDetails.routeRows in Hrows.
    apply bind_Some in Hrows. destruct Hrows as (distances & _ & Hrows).
    destruct (routeRows_from_cells _ _ _ _ _ _ _ _ Hrows) as (Hlen & Hcells).
    assert (Hlt : (i < length r)%nat).
    { rewrite <- Hlen. apply nth_error_Some. congruence. }
    destruct (nth_error r i) as [point|] eqn:Ep;
      [| apply nth_error_None in Ep; lia].
    destruct (Hcells i row point Hi Ep) as (_ & _ & _ & _ & Hs).
    simpl in Hs. rewrite Hs. apply Hsel. }
  assert (Horig : forall i row,
            nth_error (OriginalPointsTable.rows ops selO) i = Some row ->
            (OriginalPointsTable.row_selected row = true <-> selO = Some i)).
  { intros i row Hi. unfold OriginalPointsTable.rows, Array_map in Hi.
    rewrite map_from_nth_error in Hi.
    destruct (nth_error ops i) as [point|]; [|discriminate].
    simpl in Hi. injection Hi as <-. simpl. apply Hsel. }
  split; [exact Hroute|]. split.
  { apply filter_at_most_one. intros j k a b Hj Hk Ha Hb.
    apply (Hroute j a Hj) in Ha. apply (Hroute k b Hk) in Hb. congruence. }
  split; [exact Horig|].
  apply filter_at_most_one. intros j k a b Hj Hk Ha Hb.
  apply (Horig j a Hj) in Ha. apply (Horig k b Hk) in Hb. congruence.
Qed.

Lemma tables_highlight_one_row_witness :
  exists rows,
    SolutionDetails.routeRows onePointSolution (Some 0%nat)
      [RoutePoint.mk 3 4 None 0] = Some rows /\
    (length (filter SolutionDetails.row_selected rows) <= 1)%nat.
Proof.
  destruct (routeRows_row onePointSolution (Some 0%nat)
              [RoutePoint.mk 3 4 None 0]) as (rows & Hrows & _).
  exists rows. split; [exact Hrows|].
  exact (proj1 (proj2 (tables_highlight_one_row onePointSolution None
                         (Some 0%nat) [] [RoutePoint.mk 3 4 None 0] rows
                         Hrows))).
Defined.

(** X16.  A distance that is positive but below 0.005 is shown as ['0.00']:
    only a distance of exactly zero is shown as ['N/A']. *)
Theorem formatDistance_tiny : forall (d : R),
  0 < d -> d < 5 / 1000 ->
  SolutionDetails.formatDistance (Some d) = "0.00"%string.
Proof.
  intros d Hpos Hsmall. unfold SolutionDetails.formatDistance.
  destruct (Req_dec_T d 0) as [E|_]; [lra|].
  rewrite (toFixed_eval d 2 0); [reflexivity | lra | simpl; lra].
Qed.

Lemma formatDistance_tiny_witness :
  0 < 1 / 1000 /\ 1 / 1000 < 5 / 1000 /\
  SolutionDetails.formatDistance (Some (1 / 1000)) = "0.00"%string.
Proof.
  assert (H1 : 0 < 1 / 1000) by lra.
  assert (H2 : 1 / 1000 < 5 / 1000) by lra.
  split; [exact H1|]. split; [exact H2|].
  exact (formatDistance_tiny (1 / 1000) H1 H2).
Defined.

(** ** Validation of an uploaded file *)

Lemma split_length : forall (sep : N) (s : JSString),
  length (split sep s) = S (count_occ N.eq_dec s sep).
Proof.
  intros sep s. induction s as [|c s IH]; [reflexivity|].
  cbn [split count_occ].
  destruct (N.eqb_spec c sep) as [E|E].
  - destruct (N.eq_dec c sep) as [_|Hne]; [|contradiction].
    simpl. now rewrite IH.
  - destruct (N.eq_dec c sep) as [Heq|_]; [contradiction|].
    destruct (split sep s) as [|piece pieces]; [discriminate|].
    simpl in *. exact IH.
Qed.

Section ValidateProperties.

Variable Number : Type.
Variable parseFloat : JSString -> Number.
Variable isNaN : Number -> bool.

Lemma parseLine_inr : forall (line : JSString) (index : nat)
    (point : Number * Number),
  TSPService.parseLine parseFloat isNaN line index = inr point <->
  wellFormedLine parseFloat isNaN line point.
Proof.
  intros line index point. unfold TSPService.parseLine, wellFormedLine.
  destruct (split COMMA (trim line)) as [|a [|b [|c parts]]]; simpl.
  - split; [discriminate | intros (a & b & E & _); discriminate].
  - split; [discriminate | intros (a' & b & E & _); discriminate].
  - split.
    + intros E. destruct (isNaN (parseFloat a)) eqn:Ea; [discriminate|].
      destruct (isNaN (parseFloat b)) eqn:Eb; [discriminate|].
      simpl in E. injection E as <-. exists a, b. auto.
    + intros (a' & b' & E & Ha & Hb & Hp). injection E as <- <-.
      rewrite Ha, Hb. simpl. now rewrite Hp.
  - split; [discriminate | intros (a' & b' & E & _); discriminate].
Qed.

Lemma parseLines_from_inr : forall (lines : list JSString) (index : nat)
    (points : list (Number * Number)),
  TSPService.parseLines_from parseFloat isNaN index lines = inr points <->
  Forall2 (wellFormedLine parseFloat isNaN) lines points.
Proof.
  intros lines. induction lines as [|line rest IH]; intros index points.
  - simpl. split.
    + intros E. injection E as <-. constructor.
    + intros H. inversion H. reflexivity.
  - cbn [TSPService.parseLines_from].
    destruct (TSPService.parseLine parseFloat isNaN line index)
      as [e|p] eqn:Ep.
    + split; [discriminate|]. intros H. inversion H as [|? q ? ? Hq _]; subst.
      apply (parseLine_inr line index q) in Hq. rewrite Hq in Ep. discriminate.
    + apply parseLine_inr in Ep.
      destruct (TSPService.parseLines_from parseFloat isNaN (S index) rest)
        as [e|ps] eqn:Eps.
      * split; [discriminate|]. intros H.
        inversion H as [|? q ? qs _ Hqs]; subst.
        apply (IH (S index) qs) in Hqs. rewrite Hqs in Eps. discriminate.
      * split.
        -- intros E. injection E as <-. apply IH in Eps.
           constructor; assumption.
        -- intros H. inversion H as [|? q ? qs Hq Hqs]; subst.
           apply (IH (S index) qs) in Hqs.
           apply (parseLine_inr line index q) in Hq.
           apply (parseLine_inr line index p) in Ep.
           rewrite Hq in Ep. injection Ep as ->.
           rewrite Hqs in Eps. injection Eps as ->. reflexivity.
Qed.

(** The first line that is not a point decides the error. *)
Lemma parseLines_from_first_error : forall (lines : list JSString)
    (index k : nat) (line : JSString) (e : Thrown),
  nth_error lines k = Some line ->
  (forall j l, (j < k)%nat -> nth_error lines j = Some l ->
     exists p, wellFormedLine parseFloat isNaN l p) ->
  TSPService.parseLine parseFloat isNaN line (index + k) = inl e ->
  TSPService.parseLines_from parseFloat isNaN index lines = inl e.
Proof.
  intros lines. induction lines as [|l0 rest IH];
    intros index k line e Hk Hbefore He.
  - destruct k; discriminate.
  - cbn [TSPService.parseLines_from]. destruct k as [|k].
    + simpl in Hk. injection Hk as ->. rewrite Nat.add_0_r in He.
      rewrite He. reflexivity.
    + destruct (Hbefore 0%nat l0) as (p & Hp); [lia | reflexivity |].
      apply (parseLine_inr l0 index p) in Hp. rewrite Hp.
      rewrite (IH (S index) k line e); [reflexivity | exact Hk | |].
      * intros j l Hj Hl. apply (Hbefore (S j) l); [lia | exact Hl].
      * replace (S index + k)%nat with (index + S k)%nat by lia. exact He.
Qed.

End ValidateProperties.

(** X17.  The number of lines is checked before any line is read: a file
    whose trimmed content has fewer than two line feeds (the empty file
    among them) is refused as having fewer than 3 points, and one with 1000
    line feeds or more as having more than 1000, whatever the lines
    contain. *)
Theorem validate_line_count :
  forall {Number : Type} (parseFloat : JSString -> Number)
         (isNaN : Number -> bool) (content : JSString),
    ((count_occ N.eq_dec (trim content) LF < 2)%nat ->
     TSPService.validateCoordinateFile parseFloat isNaN content =
       TSPService.Invalid "File must contain at least 3 points") /\
    ((1000 <= count_occ N.eq_dec (trim content) LF)%nat ->
     TSPService.validateCoordinateFile parseFloat isNaN content =
       TSPService.Invalid "File cannot contain more than 1000 points").
Proof.
  intros Number parseFloat isNaN content.
  unfold TSPService.validateCoordinateFile. cbv zeta.
  rewrite split_length. split; intros Hcount.
  - destruct (Nat.ltb_spec (S (count_occ N.eq_dec (trim content) LF)) 3);
      [reflexivity | lia].
  - destruct (Nat.ltb_spec (S (count_occ N.eq_dec (trim content) LF)) 3);
      [lia|].
    destruct (Nat.ltb_spec 1000 (S (count_occ N.eq_dec (trim content) LF)));
      [reflexivity | lia].
Qed.

Lemma validate_line_count_witness :
  (count_occ N.eq_dec (trim []) LF < 2)%nat /\
  TSPService.validateCoordinateFile (fun _ : JSString => 0%Z)
    (fun _ : Z => false) [] =
    TSPService.Invalid "File must contain at least 3 points".
Proof.
  assert (H : (count_occ N.eq_dec (trim []) LF < 2)%nat) by (simpl; lia).
  split; [exact H|].
  exact (proj1 (validate_line_count (fun _ : JSString => 0%Z)
                  (fun _ : Z => false) []) H).
Defined.

(** X18.  A file is accepted exactly when its trimmed content has between 3
    and 1000 lines and every line, once trimmed, is two pieces around a
    single comma that [parseFloat] does not turn into [NaN]; the points
    returned are then those numbers, one per line and in line order. *)
Theorem validate_accepts :
  forall {Number : Type} (parseFloat : JSString -> Number)
         (isNaN : Number -> bool) (content : JSString)
         (points : list (Number * Number)),
    TSPService.validateCoordinateFile parseFloat isNaN content =
      TSPService.Valid points <->
    (3 <= length (split LF (trim content)) <= 1000)%nat /\
    Forall2 (wellFormedLine parseFloat isNaN) (split LF (trim content)) points.
Proof.
  intros Number parseFloat isNaN content points.
  unfold TSPService.validateCoordinateFile. cbv zeta.
  set (lines := split LF (trim content)).
  destruct (Nat.ltb_spec (length lines) 3) as [Hfew|Hfew].
  { split; [discriminate | intros ((H & _) & _); lia]. }
  destruct (Nat.ltb_spec 1000 (length lines)) as [Hmany|Hmany].
  { split; [discriminate | intros ((_ & H) & _); lia]. }
  destruct (TSPService.parseLines_from parseFloat isNaN 0 lines)
    as [e|ps] eqn:E.
  - split; [discriminate|]. intros (_ & H).
    apply (parseLines_from_inr Number parseFloat isNaN lines 0 points) in H.
    rewrite H in E. discriminate.
  - split.
    + intros Ev. injection Ev as <-. split; [lia|].
      apply (parseLines_from_inr Number parseFloat isNaN lines 0 ps), E.
    + intros (_ & H).
      apply (parseLines_from_inr Number parseFloat isNaN lines 0 points) in H.
      rewrite H in E. injection E as ->. reflexivity.
Qed.

(** X19.  When the number of lines is within bounds, the error names the
    first line that is not a point, counted from 1: "Expected format" when
    the trimmed line is not two pieces around one comma (a blank line is
    such a line), "Invalid coordinates" when it is but one of the pieces
    parses to [NaN].  Later lines are not looked at. *)
Theorem validate_reports_first_bad_line :
  forall {Number : Type} (parseFloat : JSString -> Number)
         (isNaN : Number -> bool) (content : JSString)
         (k : nat) (line : JSString),
    (3 <= length (split LF (trim content)) <= 1000)%nat ->
    nth_error (split LF (trim content)) k = Some line ->
    (forall j l, (j < k)%nat -> nth_error (split LF (trim content)) j = Some l ->
       exists p, wellFormedLine parseFloat isNaN l p) ->
    (length (split COMMA (trim line)) <> 2%nat ->
     TSPService.validateCoordinateFile parseFloat isNaN content =
       TSPService.Invalid (TSPService.expectedFormat k)) /\
    (trim line = [] ->
     TSPService.validateCoordinateFile parseFloat isNaN content =
       TSPService.Invalid (TSPService.expectedFormat k)) /\
    (forall a b, split COMMA (trim line) = [a; b] ->
       isNaN (parseFloat a) || isNaN (parseFloat b) = true ->
       TSPService.validateCoordinateFile parseFloat isNaN content =
         TSPService.Invalid (TSPService.invalidCoordinates k)).
Proof.
  intros Number parseFloat isNaN content k line Hcount Hk Hbefore.
  assert (Hresult : forall e,
    TSPService.parseLine parseFloat isNaN line k = inl (ErrorObject e) ->
    TSPService.validateCoordinateFile parseFloat isNaN content =
      TSPService.Invalid e).
  { intros e He. unfold TSPService.validateCoordinateFile. cbv zeta.
    destruct (Nat.ltb_spec (length (split LF (trim content))) 3); [lia|].
    destruct (Nat.ltb_spec 1000 (length (split LF (trim content)))); [lia|].
    rewrite (parseLines_from_first_error Number parseFloat isNaN _ 0 k line
               (ErrorObject e) Hk Hbefore He).
    reflexivity. }
  assert (Hformat : length (split COMMA (trim line)) <> 2%nat ->
    TSPService.validateCoordinateFile parseFloat isNaN content =
      TSPService.Invalid (TSPService.expectedFormat k)).
  { intros Hparts. apply Hresult. unfold TSPService.parseLine. cbv zeta.
    destruct (Nat.eqb_spec (length (split COMMA (trim line))) 2);
      [contradiction | reflexivity]. }
  split; [exact Hformat|]. split.
  - intros Hblank. apply Hformat. rewrite Hblank. simpl. lia.
  - intros a b Hparts Hnan. apply Hresult. unfold TSPService.parseLine.
    cbv zeta. rewrite Hparts. simpl. rewrite Hnan. reflexivity.
Qed.

Lemma validate_reports_first_bad_line_witness :
  let content : JSString := [49; 10; 10; 50]%N in
  (3 <= length (split LF (trim content)) <= 1000)%nat /\
  TSPService.validateCoordinateFile (fun _ : JSString => 0%Z)
    (fun _ : Z => false) content =
    TSPService.Invalid (TSPService.expectedFormat 0).
Proof.
  intros content.
  assert (Hcount : (3 <= length (split LF (trim content)) <= 1000)%nat)
    by (simpl; lia).
  split; [exact Hcount|].
  refine (proj1 (validate_reports_first_bad_line (fun _ : JSString => 0%Z)
                   (fun _ : Z => false) content 0 [49%N] Hcount eq_refl _) _).
  - intros j l Hj. lia.
  - simpl. lia.
Defined.

Lemma validate_accepts_witness :
  let content : JSString := [49; 44; 50; 10; 51; 44; 52; 10; 53; 44; 54]%N in
  (3 <= length (split LF (trim content)) <= 1000)%nat /\
  Forall2 (wellFormedLine (fun _ : JSString => 0%Z) (fun _ : Z => false))
    (split LF (trim content)) [(0, 0); (0, 0); (0, 0)]%Z.
Proof.
  intros content.
  exact (proj1 (validate_accepts (fun _ : JSString => 0%Z)
                  (fun _ : Z => false) content [(0, 0); (0, 0); (0, 0)]%Z)
           eq_refl).
Defined.

(** ** Dropping a file *)

(** X20.  [onDrop] asks the server to take a file only after every check
    has passed: the file is the first one dropped, its name ends in [.txt]
    or [.csv], it is no larger than 10 MB, its text could be read and the
    text is a valid coordinate file. *)
Theorem onDrop_uploads_only_checked_files :
  forall {Number : Type} (parseFloat : JSString -> Number)
         (isNaN : Number -> bool) {UploadResponse : Type}
         (uploadFile : FileUpload.File -> Thrown + UploadResponse)
         (acceptedFiles : list FileUpload.File) (f : FileUpload.File),
    In (FileUpload.UploadFile f)
       (FileUpload.onDrop parseFloat isNaN uploadFile acceptedFiles) ->
    hd_error acceptedFiles = Some f /\
    (endsWith (FileUpload.name f) dot_txt = true \/
     endsWith (FileUpload.name f) dot_csv = true) /\
    (FileUpload.size f <= 10 * 1024 * 1024)%N /\
    exists content points,
      FileUpload.text f = inr content /\
      TSPService.validateCoordinateFile parseFloat isNaN content =
        TSPService.Valid points.
Proof.
  intros Number parseFloat isNaN UploadResponse uploadFile acceptedFiles f Hin.
  unfold FileUpload.onDrop in Hin.
  destruct acceptedFiles as [|file rest].
  { destruct Hin as [E|[]]; discriminate. }
  destruct (negb (endsWith (FileUpload.name file) dot_txt) &&
            negb (endsWith (FileUpload.name file) dot_csv)) eqn:Eext.
  { destruct Hin as [E|[]]; discriminate. }
  destruct (N.ltb_spec (10 * 1024 * 1024) (FileUpload.size file)) as [Hbig|Hsize].
  { destruct Hin as [E|[]]; discriminate. }
  unfold FileUpload.tryBody in Hin.
  destruct (FileUpload.text file) as [e|content] eqn:Etext.
  { simpl in Hin. destruct e; simpl in Hin;
      destruct Hin as [E|[E|[E|[]]]]; discriminate. }
  destruct (TSPService.validateCoordinateFile parseFloat isNaN content)
    as [points|error] eqn:Evalid.
  2:{ simpl in Hin. destruct Hin as [E|[E|[E|[]]]]; discriminate. }
  assert (Hf : f = file).
  { destruct (uploadFile file) as [e|result]; simpl in Hin.
    - destruct Hin as [E|[E|[E|[E|[]]]]]; try discriminate.
      now injection E.
    - destruct Hin as [E|[E|[E|[E|[]]]]]; try discriminate.
      now injection E. }
  subst f. split; [reflexivity|]. split.
  { apply andb_false_iff in Eext.
    destruct Eext as [E|E]; apply negb_false_iff in E; auto. }
  split; [exact Hsize|].
  exists content, points. split; [exact Etext | exact Evalid].
Qed.

Ltac onDrop_accepted file middle :=
  split; [reflexivity|]; split; [intros E; discriminate|];
  split; [intros f Hf Ht Hc; injection Hf as <-; exfalso; auto|];
  split; [intros f Hf _ Hlt; injection Hf as <-; lia|];
  split;
  [ intros f Hf _ _; injection Hf as <-; exists middle;
    split; [reflexivity|];
    split; [intros b Hin; cbn [In] in Hin;
            repeat (destruct Hin as [Hin|Hin]; [discriminate|]);
            exact Hin|];
    repeat split; intros; congruence
  | intros result' Hin; cbn [app In] in Hin;
    repeat (destruct Hin as [Hin|Hin];
            [try discriminate; try (injection Hin as <-;
               exists file; split; [reflexivity | assumption])|]);
    try contradiction ].

(** X21.  Every drop ends in exactly one call of [onUploadError] or
    [onUploadSuccess].  A drop without a file, with a first file whose name
    ends neither in [.txt] nor in [.csv], or with a first file larger than
    10 MB does nothing but call [onUploadError] with the message of that
    check, and never touches [isUploading].  Any other drop sets
    [isUploading] to true first and back to false last and not in between,
    and does in between what the first failure decides: the error of a text
    that could not be read, the error of the validation, the request followed
    by its error, or the request followed by [onUploadSuccess] with the
    answer of the server. *)
Theorem onDrop_trace :
  forall {Number : Type} (parseFloat : JSString -> Number)
         (isNaN : Number -> bool) {UploadResponse : Type}
         (uploadFile : FileUpload.File -> Thrown + UploadResponse)
         (acceptedFiles : list FileUpload.File),
    length (filter (fun e => match e with
                             | FileUpload.OnUploadError _ => true
                             | FileUpload.OnUploadSuccess _ => true
                             | _ => false
                             end)
              (FileUpload.onDrop parseFloat isNaN uploadFile acceptedFiles))
      = 1%nat /\
    (acceptedFiles = [] ->
     FileUpload.onDrop parseFloat isNaN uploadFile acceptedFiles =
       [FileUpload.OnUploadError "No valid file selected"]) /\
    (forall file,
       hd_error acceptedFiles = Some file ->
       endsWith (FileUpload.name file) dot_txt = false ->
       endsWith (FileUpload.name file) dot_csv = false ->
       FileUpload.onDrop parseFloat isNaN uploadFile acceptedFiles =
         [FileUpload.OnUploadError "Please upload a .txt or .csv file"]) /\
    (forall file,
       hd_error acceptedFiles = Some file ->
       (endsWith (FileUpload.name file) dot_txt = true \/
        endsWith (FileUpload.name file) dot_csv = true) ->
       (10 * 1024 * 1024 < FileUpload.size file)%N ->
       FileUpload.onDrop parseFloat isNaN uploadFile acceptedFiles =
         [FileUpload.OnUploadError "File size must be less than 10MB"]) /\
    (forall file,
       hd_error acceptedFiles = Some file ->
       (endsWith (FileUpload.name file) dot_txt = true \/
        endsWith (FileUpload.name file) dot_csv = true) ->
       (FileUpload.size file <= 10 * 1024 * 1024)%N ->
       exists middle,
         FileUpload.onDrop parseFloat isNaN uploadFile acceptedFiles =
           FileUpload.SetIsUploading true :: middle ++
           [FileUpload.SetIsUploading false] /\
         (forall b, ~ In (FileUpload.SetIsUploading b) middle) /\
         (forall error, FileUpload.text file = inl error ->
            middle = [FileUpload.OnUploadError
                        (messageOr "Upload failed" error)]) /\
         (forall content error,
            FileUpload.text file = inr content ->
            TSPService.validateCoordinateFile parseFloat isNaN content =
              TSPService.Invalid error ->
            middle = [FileUpload.OnUploadError
                        (string_or_else error "Invalid file format")]) /\
         (forall content points error,
            FileUpload.text file = inr content ->
            TSPService.validateCoordinateFile parseFloat isNaN content =
              TSPService.Valid points ->
            uploadFile file = inl error ->
            middle = [FileUpload.UploadFile file;
                      FileUpload.OnUploadError
                        (messageOr "Upload failed" error)]) /\
         (forall content points result,
            FileUpload.text file = inr content ->
            TSPService.validateCoordinateFile parseFloat isNaN content =
              TSPService.Valid points ->
            uploadFile file = inr result ->
            middle = [FileUpload.UploadFile file;
                      FileUpload.OnUploadSuccess result])) /\
    (forall result,
       In (FileUpload.OnUploadSuccess result)
          (FileUpload.onDrop parseFloat isNaN uploadFile acceptedFiles) ->
       exists file,
         hd_error acceptedFiles = Some file /\ uploadFile file = inr result).
Proof.
  intros Number parseFloat isNaN UploadResponse uploadFile acceptedFiles.
  unfold FileUpload.onDrop.
  destruct acceptedFiles as [|file rest].
  { split; [reflexivity|]. split; [reflexivity|].
    split; [intros f Hf; discriminate|]. split; [intros f Hf; discriminate|].
    split; [intros f Hf; discriminate|].
    intros result [E|[]]; discriminate. }
  cbn [hd_error].
  assert (Hext : negb (endsWith (FileUpload.name file) dot_txt) &&
                 negb (endsWith (FileUpload.name file) dot_csv) = true \/
                 (negb (endsWith (FileUpload.name file) dot_txt) &&
                  negb (endsWith (FileUpload.name file) dot_csv) = false /\
                  (endsWith (FileUpload.name file) dot_txt = true \/
                   endsWith (FileUpload.name file) dot_csv = true))).
  { destruct (endsWith (FileUpload.name file) dot_txt),
      (endsWith (FileUpload.name file) dot_csv); simpl; auto. }
  destruct Hext as [Hbad|[Hgood Hone]].
  { rewrite Hbad. apply andb_true_iff in Hbad. destruct Hbad as [Ht Hc].
    apply negb_true_iff in Ht, Hc.
    split; [reflexivity|]. split; [intros E; discriminate|].
    split; [reflexivity|].
    split; [intros f Hf [H|H]; injection Hf as <-; congruence|].
    split; [intros f Hf [H|H]; injection Hf as <-; congruence|].
    intros result [E|[]]; discriminate. }
  rewrite Hgood. clear Hgood.
  assert (Hnot : ~ (endsWith (FileUpload.name file) dot_txt = false /\
                    endsWith (FileUpload.name file) dot_csv = false))
    by (intros [Ht Hc]; destruct Hone; congruence).
  destruct (N.ltb_spec (10 * 1024 * 1024) (FileUpload.size file))
    as [Hbig|Hsize].
  { split; [reflexivity|]. split; [intros E; discriminate|].
    split; [intros f Hf Ht Hc; injection Hf as <-; exfalso; auto|].
    split; [reflexivity|].
    split; [intros f Hf _ Hle; injection Hf as <-; lia|].
    intros result [E|[]]; discriminate. }
  unfold FileUpload.tryBody.
  destruct (FileUpload.text file) as [e|content] eqn:Etext.
  { onDrop_accepted file
      [@FileUpload.OnUploadError UploadResponse (messageOr "Upload failed" e)]. }
  destruct (TSPService.validateCoordinateFile parseFloat isNaN content)
    as [points|error] eqn:Evalid.
  2:{ onDrop_accepted file
        [@FileUpload.OnUploadError UploadResponse
           (string_or_else error "Invalid file format")]. }
  destruct (uploadFile file) as [e|result] eqn:Eup.
  - onDrop_accepted file
      [FileUpload.UploadFile file;
       @FileUpload.OnUploadError UploadResponse (messageOr "Upload failed" e)].
  - onDrop_accepted file
      [FileUpload.UploadFile file; FileUpload.OnUploadSuccess result].
Qed.

Lemma onDrop_uploads_only_checked_files_witness :
  let file := FileUpload.mkFile [97; 46; 116; 120; 116]%N 11%N
                (inr [49; 44; 50; 10; 51; 44; 52; 10; 53; 44; 54]%N) in
  In (FileUpload.UploadFile file)
     (FileUpload.onDrop (fun _ : JSString => 0%Z) (fun _ : Z => false)
        (fun _ : FileUpload.File => @inr Thrown unit tt) [file]) /\
  (FileUpload.size file <= 10 * 1024 * 1024)%N.
Proof.
  intros file.
  assert (H : In (FileUpload.UploadFile file)
     (FileUpload.onDrop (fun _ : JSString => 0%Z) (fun _ : Z => false)
        (fun _ : FileUpload.File => @inr Thrown unit tt) [file]))
    by (right; left; reflexivity).
  split; [exact H|].
  exact (proj1 (proj2 (proj2 (onDrop_uploads_only_checked_files _ _ _ _ _ H)))).
Defined.

(** ** White space around the content of a file *)

Lemma trimStart_ws_app : forall (ws s : JSString),
  Forall (fun c => isWhiteSpace c = true) ws ->
  trimStart (ws ++ s) = trimStart s.
Proof.
  intros ws s Hws. induction Hws as [|c ws Hc _ IH]; [reflexivity|].
  simpl. rewrite Hc. exact IH.
Qed.

Lemma trimStart_app_ws : forall (s ws : JSString),
  Forall (fun c => isWhiteSpace c = true) ws ->
  trimStart (s ++ ws) = trimStart s ++ ws \/
  (trimStart (s ++ ws) = [] /\ trimStart s = []).
Proof.
  intros s ws Hws. induction s as [|c s IH].
  - right. split; [|reflexivity]. simpl.
    induction Hws as [|c ws Hc _ IH]; [reflexivity|].
    simpl. rewrite Hc. exact IH.
  - cbn [app trimStart]. destruct (isWhiteSpace c); [exact IH|].
    left. reflexivity.
Qed.

Lemma trimEnd_app_ws : forall (s ws : JSString),
  Forall (fun c => isWhiteSpace c = true) ws ->
  trimEnd (s ++ ws) = trimEnd s.
Proof.
  intros s ws Hws. unfold trimEnd. rewrite rev_app_distr.
  rewrite trimStart_ws_app; [reflexivity|].
  apply Forall_rev, Hws.
Qed.

Lemma trim_surrounded : forall (before content after : JSString),
  Forall (fun c => isWhiteSpace c = true) before ->
  Forall (fun c => isWhiteSpace c = true) after ->
  trim (before ++ content ++ after) = trim content.
Proof.
  intros before content after Hb Ha. unfold trim.
  rewrite trimStart_ws_app by exact Hb.
  destruct (trimStart_app_ws content after Ha) as [E | (E & E')].
  - rewrite E. apply trimEnd_app_ws, Ha.
  - rewrite E, E'. reflexivity.
Qed.

(** X22.  White space before and after the content of a file does not
    change the verdict: blank lines and spaces at either end, a final line
    feed in particular, are removed before the lines are counted and
    read. *)
Theorem validate_ignores_surrounding_space :
  forall {Number : Type} (parseFloat : JSString -> Number)
         (isNaN : Number -> bool) (before content after : JSString),
    Forall (fun c => isWhiteSpace c = true) before ->
    Forall (fun c => isWhiteSpace c = true) after ->
    TSPService.validateCoordinateFile parseFloat isNaN
      (before ++ content ++ after) =
    TSPService.validateCoordinateFile parseFloat isNaN content.
Proof.
  intros Number parseFloat isNaN before content after Hb Ha.
  unfold TSPService.validateCoordinateFile.
  rewrite (trim_surrounded before content after Hb Ha). reflexivity.
Qed.

Lemma validate_ignores_surrounding_space_witness :
  Forall (fun c => isWhiteSpace c = true) [32; 10]%N /\
  TSPService.validateCoordinateFile (fun _ : JSString => 0%Z)
    (fun _ : Z => false) ([] ++ [49; 44; 50]%N ++ [32; 10]%N) =
  TSPService.validateCoordinateFile (fun _ : JSString => 0%Z)
    (fun _ : Z => false) [49; 44; 50]%N.
Proof.
  assert (Ha : Forall (fun c => isWhiteSpace c = true) [32; 10]%N)
    by (repeat constructor).
  split; [exact Ha|].
  exact (validate_ignores_surrounding_space (fun _ : JSString => 0%Z)
           (fun _ : Z => false) [] [49; 44; 50]%N [32; 10]%N
           (Forall_nil _) Ha).
Defined.
